(** * Go-Baby-Go car controller: a shallow embedding of the motion core

    The development follows the LCD sketch ("GoBabyGo Car Controller -
    Simple 4 Direction"): [setup], the save branch of [loop],
    [getJoystickInputs], [setLeftRightMotorSpeeds], [drive] and
    [resetMotorSpeeds]; the second sketch of the repository, which has the
    settings compiled in, is covered where it differs.  The target is an
    AVR Arduino (Nano), so [int] and
    [int16_t] are 16 bits wide, [uint16_t] is [unsigned int], and [long] is
    32 bits wide.  Integers are modelled as [Z] with the wrap of every
    conversion written out. *)

From Stdlib Require Import ZArith List Lia Bool Ascii.
Import ListNotations.
Local Open Scope Z_scope.

(** ** Machine integers and the Arduino core *)

Module Arduino.

(** Conversion to [uint8_t], [uint16_t] and [int16_t]. *)
Definition u8 (z : Z) : Z := z mod 256.
Definition u16 (z : Z) : Z := z mod 65536.
Definition s16 (z : Z) : Z := (z + 32768) mod 65536 - 32768.

(** [long map(long x, long in_min, long in_max, long out_min, long out_max)]
    of the Arduino core (WMath.cpp):
    [(x - in_min) * (out_max - out_min) / (in_max - in_min) + out_min],
    with C's division, which truncates towards zero.  At every call site
    of the sketch the intermediate product stays far below 2^31. *)
Definition map (x in_min in_max out_min out_max : Z) : Z :=
  Z.quot ((x - in_min) * (out_max - out_min)) (in_max - in_min) + out_min.

(** The EEPROM is an array of bytes; [EEPROM.read] returns a [uint8_t]. *)
Definition EEPROM := Z -> Z.
Definition EEPROM_read (e : EEPROM) (address : Z) : Z := u8 (e address).

End Arduino.
Import Arduino.

(** ** Constants of the sketch *)

Definition MIN_FORWARD_THRESH : Z := 600.
Definition MAX_FORWARD_THRESH : Z := 1000.
Definition MIN_REVERSE_THRESH : Z := 0.
Definition MAX_REVERSE_THRESH : Z := 400.
Definition MIN_LEFT_THRESH : Z := 0.
Definition MAX_LEFT_THRESH : Z := 400.
Definition MIN_RIGHT_THRESH : Z := 600.
Definition MAX_RIGHT_THRESH : Z := 1000.
Definition MIN_SPEED_LIMIT : Z := 72.
Definition MAX_SPEED_LIMIT : Z := 512.
Definition MIN_INCREASE_RAMPING : Z := 1.
Definition MAX_INCREASE_RAMPING : Z := 30.
Definition MIN_DECREASE_RAMPING : Z := 1.
Definition MAX_DECREASE_RAMPING : Z := 30.

Definition DEFAULT_FORWARD_THRESH : Z := 630.
Definition DEFAULT_REVERSE_THRESH : Z := 340.
Definition DEFAULT_LEFT_THRESH : Z := 400.
Definition DEFAULT_RIGHT_THRESH : Z := 600.
Definition DEFAULT_SPEED_LIMIT : Z := 256.
Definition DEFAULT_INCREASE_RAMPING : Z := 15.
Definition DEFAULT_DECREASE_RAMPING : Z := 20.

Definition REVERSE_PULSE : Z := 1000.
Definition FORWARD_PULSE : Z := 2000.
Definition NEUTRAL_SPEED : Z := 500.

Definition FORWARD_SENS_ADDRESS : Z := 1.
Definition REVERSE_SENS_ADDRESS : Z := 2.
Definition LEFT_SENS_ADDRESS : Z := 3.
Definition RIGHT_SENS_ADDRESS : Z := 4.
Definition SPEED_LIMIT_ADDRESS : Z := 5.
Definition ACC_RATE_ADDRESS : Z := 6.
Definition DEC_RATE_ADDRESS : Z := 7.

(** ** Configuration *)

(** The seven percentage settings shown on the LCD (all [uint16_t]). *)
Record Percents : Type := mkPercents {
  forwardSensPercent : Z;
  reverseSensPercent : Z;
  leftSensPercent : Z;
  rightSensPercent : Z;
  speedLimitPercent : Z;
  accRatePercent : Z;
  decRatePercent : Z
}.

(** The vehicle motion and sensitivity characteristics together with the
    four trims ([uint16_t] thresholds and speed limit, [int16_t] rates,
    [uint8_t] trims). *)
Record Config : Type := mkConfig {
  forwardThresh : Z;
  reverseThresh : Z;
  leftThresh : Z;
  rightThresh : Z;
  speedLimit : Z;
  accRate : Z;
  decRate : Z;
  FWD_LEFT_TRIM : Z;
  REV_LEFT_TRIM : Z;
  FWD_RIGHT_TRIM : Z;
  REV_RIGHT_TRIM : Z
}.

(** The trims are globals initialised in the source to 0, 0, 4, 0. *)
Record Trims : Type := mkTrims {
  tFWD_LEFT : Z;
  tREV_LEFT : Z;
  tFWD_RIGHT : Z;
  tREV_RIGHT : Z
}.

Definition sourceTrims : Trims := mkTrims 0 0 4 0.

Module Setup.

(** The seven [EEPROM.read] calls of [setup]. *)
Definition readPercents (e : EEPROM) : Percents :=
  mkPercents
    (u16 (EEPROM_read e FORWARD_SENS_ADDRESS))
    (u16 (EEPROM_read e REVERSE_SENS_ADDRESS))
    (u16 (EEPROM_read e LEFT_SENS_ADDRESS))
    (u16 (EEPROM_read e RIGHT_SENS_ADDRESS))
    (u16 (EEPROM_read e SPEED_LIMIT_ADDRESS))
    (u16 (EEPROM_read e ACC_RATE_ADDRESS))
    (u16 (EEPROM_read e DEC_RATE_ADDRESS)).

(** [if (p > 100) p = 100;] *)
Definition clampPercent (p : Z) : Z := if p >? 100 then 100 else p.

Definition clampPercents (p : Percents) : Percents :=
  mkPercents
    (clampPercent (forwardSensPercent p))
    (clampPercent (reverseSensPercent p))
    (clampPercent (leftSensPercent p))
    (clampPercent (rightSensPercent p))
    (clampPercent (speedLimitPercent p))
    (clampPercent (accRatePercent p))
    (clampPercent (decRatePercent p)).

(** "Convert EEPROM read values from percents to counts" in [setup]. *)
Definition setupDerive (p : Percents) (t : Trims) : Config :=
  mkConfig
    (u16 (map (forwardSensPercent p) 0 100 MAX_FORWARD_THRESH MIN_FORWARD_THRESH))
    (u16 (map (reverseSensPercent p) 0 100 MIN_REVERSE_THRESH MAX_REVERSE_THRESH))
    (u16 (map (leftSensPercent p) 0 100 MIN_LEFT_THRESH MAX_LEFT_THRESH))
    (u16 (map (rightSensPercent p) 0 100 MAX_RIGHT_THRESH MIN_RIGHT_THRESH))
    (u16 (map (speedLimitPercent p) 0 100 MIN_SPEED_LIMIT MAX_SPEED_LIMIT))
    (s16 (map (accRatePercent p) 0 100 MIN_INCREASE_RAMPING MAX_INCREASE_RAMPING))
    (s16 (map (decRatePercent p) 0 100 MIN_DECREASE_RAMPING MAX_DECREASE_RAMPING))
    (tFWD_LEFT t) (tREV_LEFT t) (tFWD_RIGHT t) (tREV_RIGHT t).

(** The [else] branch of [setup] ([USE_LCD] false). *)
Definition defaultConfig (t : Trims) : Config :=
  mkConfig DEFAULT_FORWARD_THRESH DEFAULT_REVERSE_THRESH
           DEFAULT_LEFT_THRESH DEFAULT_RIGHT_THRESH
           DEFAULT_SPEED_LIMIT
           DEFAULT_INCREASE_RAMPING DEFAULT_DECREASE_RAMPING
           (tFWD_LEFT t) (tREV_LEFT t) (tFWD_RIGHT t) (tREV_RIGHT t).

(** [setup], as far as the configuration goes: the percentages kept in
    the globals and the derived characteristics. *)
Definition setup (USE_LCD : bool) (e : EEPROM) (t : Trims)
  : Percents * Config :=
  if USE_LCD then
    let p := clampPercents (readPercents e) in
    (p, setupDerive p t)
  else
    (mkPercents 0 0 0 0 0 0 0, defaultConfig t).

(** The save branch of [loop] ("Updates motion charateristics from EEPROM
    values"), run when the save button is touched and EEPROM writes are
    allowed: the characteristics are derived again from the percentages. *)
Definition saveDerive (p : Percents) (c : Config) : Config :=
  mkConfig
    (u16 (map (forwardSensPercent p) 0 100 MIN_FORWARD_THRESH MAX_FORWARD_THRESH))
    (u16 (map (reverseSensPercent p) 0 100 MIN_REVERSE_THRESH MAX_REVERSE_THRESH))
    (u16 (map (leftSensPercent p) 0 100 MIN_LEFT_THRESH MAX_LEFT_THRESH))
    (u16 (map (rightSensPercent p) 0 100 MIN_RIGHT_THRESH MAX_RIGHT_THRESH))
    (u16 (map (speedLimitPercent p) 0 100 MIN_SPEED_LIMIT MAX_SPEED_LIMIT))
    (s16 (map (accRatePercent p) 0 100 MIN_INCREASE_RAMPING MAX_INCREASE_RAMPING))
    (s16 (map (decRatePercent p) 0 100 MIN_DECREASE_RAMPING MAX_DECREASE_RAMPING))
    (FWD_LEFT_TRIM c) (REV_LEFT_TRIM c) (FWD_RIGHT_TRIM c) (REV_RIGHT_TRIM c).

End Setup.

(** ** Input classifier and target speeds *)

(** One pass through [getJoystickInputs] performs four [analogRead] calls,
    two per axis, in this order. *)
Record JoystickReads : Type := mkReads {
  readXp : Z;   (* analogRead(JOYSTICK_X), compared with rightThresh *)
  readXn : Z;   (* analogRead(JOYSTICK_X), compared with leftThresh *)
  readYp : Z;   (* analogRead(JOYSTICK_Y), compared with forwardThresh *)
  readYn : Z    (* analogRead(JOYSTICK_Y), compared with reverseThresh *)
}.

Module Joystick.

(** [512 - (speedLimit / TURN_SPEED_RATIO)] and
    [512 + (speedLimit / TURN_SPEED_RATIO)] are computed in [float] with
    [TURN_SPEED_RATIO = 1.5] and converted to [long] (truncation) when
    passed to [map].  When the speed limit is a multiple of 3 the quotient
    is a whole number and the [float] operations are exact; otherwise the
    exact values [512 -/+ 2*speedLimit/3] lie a third away from the next
    whole number, far more than the rounding error of a [float] of this
    size.  Either way the truncated results are those of exact
    arithmetic, which is what the two definitions compute. *)
Definition turnOutMin (speedLimit : Z) : Z := Z.quot (3 * 512 - 2 * speedLimit) 3.
Definition turnOutMax (speedLimit : Z) : Z := Z.quot (3 * 512 + 2 * speedLimit) 3.

(** [uint16_t x = x_p ? 1023 : (x_n ? 0 : 512);] *)
Definition quantize (p n : bool) : Z :=
  if p then 1023 else if n then 0 else 512.

(** [if (v > 512) r = v - 512; else r = -(512 - v);] with [v] a
    [uint16_t] and [r] an [int16_t]. *)
Definition recentre (v : Z) : Z :=
  if v >? 512 then s16 (u16 (v - 512)) else s16 (u16 (- u16 (512 - v))).

(** "Set motor speeds to MIN_SPEED_LIMIT if target speed is below
    minimum".  [MIN_SPEED_LIMIT] is a [uint16_t], so [-MIN_SPEED_LIMIT]
    and the two comparisons against it are unsigned. *)
Definition minRotate (rotateValue : Z) : Z :=
  if (rotateValue <? -3) && (u16 rotateValue >? u16 (- MIN_SPEED_LIMIT))
  then s16 (u16 (- MIN_SPEED_LIMIT))
  else if (rotateValue >? 3) && (u16 rotateValue <? MIN_SPEED_LIMIT)
  then s16 MIN_SPEED_LIMIT
  else rotateValue.

(** [getJoystickInputs] up to the call of [setLeftRightMotorSpeeds]:
    the pair (moveValue, rotateValue). *)
Definition getJoystickInputs (c : Config) (j : JoystickReads) : Z * Z :=
  let x_p := u16 (readXp j) >? rightThresh c in
  let x_n := u16 (readXn j) <? leftThresh c in
  let y_p := u16 (readYp j) >? forwardThresh c in
  let y_n := u16 (readYn j) <? reverseThresh c in
  let x := quantize x_p x_n in
  let y := quantize y_p y_n in
  let x := u16 (map x 0 1023 (turnOutMin (speedLimit c)) (turnOutMax (speedLimit c))) in
  let y := u16 (map y 0 1023 (u16 (512 - speedLimit c)) (u16 (512 + speedLimit c))) in
  let moveValue := recentre y in
  let rotateValue := recentre x in
  (moveValue, minRotate rotateValue).

(** The [if]/[else if] chain of [setLeftRightMotorSpeeds]: the pair
    (leftMotorSpeed, rightMotorSpeed), both [uint16_t], initialised to 0. *)
Definition targetSpeeds (c : Config) (moveValue rotateValue : Z) : Z * Z :=
  if moveValue >? 0 then
    (u16 (moveValue - FWD_LEFT_TRIM c), u16 (moveValue - FWD_RIGHT_TRIM c))
  else if moveValue <? 0 then
    (u16 (moveValue + REV_LEFT_TRIM c), u16 (moveValue + REV_RIGHT_TRIM c))
  else if rotateValue <? 0 then
    (u16 (rotateValue + REV_LEFT_TRIM c), u16 (- rotateValue - FWD_RIGHT_TRIM c))
  else if rotateValue >? 0 then
    (u16 (rotateValue - FWD_LEFT_TRIM c), u16 (- rotateValue + REV_RIGHT_TRIM c))
  else (0, 0).

End Joystick.

(** ** Drive state, interlock, rate limiter and resync loop *)

(** The process-wide state: the statics of [setLeftRightMotorSpeeds], the
    three interlock flags and the two previous drive speeds. *)
Record DriveState : Type := mkState {
  prevLeftMotorSpeed : Z;
  prevRightMotorSpeed : Z;
  directionChanged : bool;
  leftResetComplete : bool;
  rightResetComplete : bool;
  prevLeft : Z;
  prevRight : Z
}.

(** What the two [writeMicroseconds] calls of one cycle send. *)
Record MotorPulse : Type := mkPulse {
  leftMotorPulse : Z;
  rightMotorPulse : Z
}.

Definition coldStart : DriveState := mkState 0 0 false true true 500 500.

Module Drive.

Definition signalChange (s : DriveState) : DriveState :=
  mkState (prevLeftMotorSpeed s) (prevRightMotorSpeed s)
          true false false (prevLeft s) (prevRight s).

Definition storeTargets (l r : Z) (s : DriveState) : DriveState :=
  mkState l r (directionChanged s) (leftResetComplete s)
          (rightResetComplete s) (prevLeft s) (prevRight s).

Definition setLeft (speed : Z) (complete : bool) (s : DriveState) : DriveState :=
  mkState (prevLeftMotorSpeed s) (prevRightMotorSpeed s) (directionChanged s)
          complete (rightResetComplete s) speed (prevRight s).

Definition setRight (speed : Z) (complete : bool) (s : DriveState) : DriveState :=
  mkState (prevLeftMotorSpeed s) (prevRightMotorSpeed s) (directionChanged s)
          (leftResetComplete s) complete (prevLeft s) speed.

Definition clearChange (s : DriveState) : DriveState :=
  mkState (prevLeftMotorSpeed s) (prevRightMotorSpeed s) false
          (leftResetComplete s) (rightResetComplete s)
          (prevLeft s) (prevRight s).

(** "Find out if a direction change occured": the comparison of the new
    speeds with the stored ones and the three flag assignments. *)
Definition interlock (leftMotorSpeed rightMotorSpeed : Z) (s : DriveState)
  : DriveState :=
  if negb (leftMotorSpeed =? prevLeftMotorSpeed s)
     || negb (rightMotorSpeed =? prevRightMotorSpeed s)
  then signalChange s
  else s.

(** One motor's block of the [while] loop of [resetMotorSpeeds]; the left
    and the right block are the same text up to the variable names.
    [resetSpeed] is the local [uint16_t], [prev] the global [int16_t];
    the result is the new local and the new completion flag. *)
Definition resetMotor (decRate resetSpeed prev : Z) (complete : bool)
  : Z * bool :=
  if resetSpeed >? u16 (NEUTRAL_SPEED + decRate) then
    (u16 (s16 (prev - decRate)), complete)
  else if resetSpeed <? u16 (NEUTRAL_SPEED - decRate) then
    (u16 (s16 (prev + decRate)), complete)
  else (resetSpeed, true).

(** One iteration of the [while (directionChanged)] loop. *)
Definition resetIteration (c : Config) (locals : Z * Z) (s : DriveState)
  : (Z * Z) * DriveState * MotorPulse :=
  let '(leftResetSpeed, rightResetSpeed) := locals in
  let '(leftResetSpeed, lc) :=
    resetMotor (decRate c) leftResetSpeed (prevLeft s) (leftResetComplete s) in
  let leftPulse := u16 (REVERSE_PULSE + leftResetSpeed) in
  let s := setLeft (s16 leftResetSpeed) lc s in
  let '(rightResetSpeed, rc) :=
    resetMotor (decRate c) rightResetSpeed (prevRight s) (rightResetComplete s) in
  let rightPulse := u16 (REVERSE_PULSE + rightResetSpeed) in
  let s := setRight (s16 rightResetSpeed) rc s in
  let s := if leftResetComplete s && rightResetComplete s
           then clearChange s else s in
  ((leftResetSpeed, rightResetSpeed), s, mkPulse leftPulse rightPulse).

(** The loop itself.  It has no bound in the source, so the model counts
    iterations down from [fuel] and answers [None] when they run out. *)
Fixpoint resetLoop (fuel : nat) (c : Config) (locals : Z * Z) (s : DriveState)
  : option (DriveState * list MotorPulse) :=
  if directionChanged s then
    match fuel with
    | O => None
    | S fuel' =>
        let '(locals', s', p) := resetIteration c locals s in
        match resetLoop fuel' c locals' s' with
        | Some (s'', ps) => Some (s'', p :: ps)
        | None => None
        end
    end
  else Some (s, []).

Definition resetMotorSpeeds (fuel : nat) (c : Config) (s : DriveState)
  : option (DriveState * list MotorPulse) :=
  resetLoop fuel c (u16 (prevLeft s), u16 (prevRight s)) s.

(** [map(nextLeftSpeed, -512, 512, 0, FORWARD_PULSE - REVERSE_PULSE)]
    stored in a [uint16_t]; the same line opens the right motor block. *)
Definition mapDriveSpeed (nextSpeed : Z) : Z :=
  u16 (map nextSpeed (-512) 512 0 (u16 (FORWARD_PULSE - REVERSE_PULSE))).

(** Left motor block of [drive]: the new [leftDriveSpeed]. *)
Definition leftDrive (c : Config) (nextLeftSpeed prevLeft : Z) : Z :=
  let leftDriveSpeed := mapDriveSpeed nextLeftSpeed in
  if leftDriveSpeed >? u16 (s16 (prevLeft + accRate c)) then
    if u16 (s16 (prevLeft + accRate c)) <? u16 (FORWARD_PULSE - REVERSE_PULSE)
    then u16 (s16 (prevLeft + accRate c))
    else u16 (FORWARD_PULSE - REVERSE_PULSE)
  else if leftDriveSpeed <? u16 (s16 (prevLeft - accRate c)) then
    if s16 (prevLeft - accRate c) >? 0
    then u16 (s16 (prevLeft - accRate c))
    else 0
  else leftDriveSpeed.

(** Right motor block of [drive]: the new [rightDriveSpeed].  The inner
    test of the first branch differs from the left block. *)
Definition rightDrive (c : Config) (nextRightSpeed prevRight : Z) : Z :=
  let rightDriveSpeed := mapDriveSpeed nextRightSpeed in
  if rightDriveSpeed >? u16 (s16 (prevRight + accRate c)) then
    if rightDriveSpeed <? u16 (FORWARD_PULSE - REVERSE_PULSE)
    then u16 (s16 (prevRight + accRate c))
    else u16 (FORWARD_PULSE - REVERSE_PULSE)
  else if rightDriveSpeed <? u16 (s16 (prevRight - accRate c)) then
    if s16 (prevRight - accRate c) >? 0
    then u16 (s16 (prevRight - accRate c))
    else 0
  else rightDriveSpeed.

(** [drive] after the resync test: both motor blocks, one pulse each. *)
Definition driveMotors (c : Config) (nextLeftSpeed nextRightSpeed : Z)
           (s : DriveState) : DriveState * MotorPulse :=
  let leftDriveSpeed := leftDrive c nextLeftSpeed (prevLeft s) in
  let leftPulse := u16 (REVERSE_PULSE + leftDriveSpeed) in
  let s := setLeft (s16 leftDriveSpeed) (leftResetComplete s) s in
  let rightDriveSpeed := rightDrive c nextRightSpeed (prevRight s) in
  let rightPulse := u16 (REVERSE_PULSE + rightDriveSpeed) in
  let s := setRight (s16 rightDriveSpeed) (rightResetComplete s) s in
  (s, mkPulse leftPulse rightPulse).

(** [drive(int16_t nextLeftSpeed, int16_t nextRightSpeed)]: the pulses of
    the resync loop, if it ran, followed by the pulse of the ramp. *)
Definition drive (fuel : nat) (c : Config) (nextLeftSpeed nextRightSpeed : Z)
           (s : DriveState) : option (DriveState * list MotorPulse) :=
  match (if directionChanged s then resetMotorSpeeds fuel c s
         else Some (s, [])) with
  | Some (s, ps) =>
      let '(s, p) := driveMotors c nextLeftSpeed nextRightSpeed s in
      Some (s, ps ++ [p])
  | None => None
  end.

(** [setLeftRightMotorSpeeds(int16_t moveValue, int16_t rotateValue)]. *)
Definition setLeftRightMotorSpeeds (fuel : nat) (c : Config)
           (moveValue rotateValue : Z) (s : DriveState)
  : option (DriveState * list MotorPulse) :=
  let '(leftMotorSpeed, rightMotorSpeed) :=
    Joystick.targetSpeeds c moveValue rotateValue in
  let s := interlock leftMotorSpeed rightMotorSpeed s in
  let s := storeTargets leftMotorSpeed rightMotorSpeed s in
  drive fuel c (s16 leftMotorSpeed) (s16 rightMotorSpeed) s.

(** One pass of [loop] in vehicle operation: [getJoystickInputs]. *)
Definition cycle (fuel : nat) (c : Config) (j : JoystickReads) (s : DriveState)
  : option (DriveState * list MotorPulse) :=
  let '(moveValue, rotateValue) := Joystick.getJoystickInputs c j in
  setLeftRightMotorSpeeds fuel c moveValue rotateValue s.

(** A run of the control loop over a sequence of joystick readings, with
    the configuration held fixed; the pulses are listed in the order in
    which they are written. *)
Fixpoint run (fuel : nat) (c : Config) (js : list JoystickReads) (s : DriveState)
  : option (DriveState * list MotorPulse) :=
  match js with
  | [] => Some (s, [])
  | j :: js' =>
      match cycle fuel c j s with
      | Some (s', ps) =>
          match run fuel c js' s' with
          | Some (s'', ps') => Some (s'', ps ++ ps')
          | None => None
          end
      | None => None
      end
  end.

End Drive.

(** The same EEPROM with every byte above 100 replaced by 100. *)
Definition clampedEEPROM (e : EEPROM) : EEPROM :=
  fun address => Z.min (EEPROM_read e address) 100.

(** The configured ranges named by the constants of the sketch. *)
Definition thresholdsInRange (c : Config) : Prop :=
  MIN_FORWARD_THRESH <= forwardThresh c <= MAX_FORWARD_THRESH /\
  MIN_REVERSE_THRESH <= reverseThresh c <= MAX_REVERSE_THRESH /\
  MIN_LEFT_THRESH <= leftThresh c <= MAX_LEFT_THRESH /\
  MIN_RIGHT_THRESH <= rightThresh c <= MAX_RIGHT_THRESH.

Definition speedLimitInRange (c : Config) : Prop :=
  MIN_SPEED_LIMIT <= speedLimit c <= MAX_SPEED_LIMIT.

Definition ratesInRange (c : Config) : Prop :=
  MIN_INCREASE_RAMPING <= accRate c <= MAX_INCREASE_RAMPING /\
  MIN_DECREASE_RAMPING <= decRate c <= MAX_DECREASE_RAMPING.

Definition percentsAtMost100 (p : Percents) : Prop :=
  forwardSensPercent p <= 100 /\ reverseSensPercent p <= 100 /\
  leftSensPercent p <= 100 /\ rightSensPercent p <= 100 /\
  speedLimitPercent p <= 100 /\ accRatePercent p <= 100 /\
  decRatePercent p <= 100.

Definition trimsInRange (c : Config) : Prop :=
  0 <= FWD_LEFT_TRIM c <= 255 /\ 0 <= REV_LEFT_TRIM c <= 255 /\
  0 <= FWD_RIGHT_TRIM c <= 255 /\ 0 <= REV_RIGHT_TRIM c <= 255.

(** A configuration the sketch can be set up with. *)
Definition validConfig (c : Config) : Prop :=
  speedLimitInRange c /\ ratesInRange c /\ trimsInRange c.

(** Drive speeds run from 0 (full reverse) to
    [FORWARD_PULSE - REVERSE_PULSE] (full forward). *)
Definition speedInRange (v : Z) : Prop :=
  0 <= v <= FORWARD_PULSE - REVERSE_PULSE.

Definition speedsInRange (s : DriveState) : Prop :=
  speedInRange (prevLeft s) /\ speedInRange (prevRight s).

Definition pulseInRange (p : MotorPulse) : Prop :=
  REVERSE_PULSE <= leftMotorPulse p <= FORWARD_PULSE /\
  REVERSE_PULSE <= rightMotorPulse p <= FORWARD_PULSE.

(** The RESYNCING state as the interlock sets it up. *)
Definition resyncing (s : DriveState) : Prop :=
  directionChanged s = true /\
  leftResetComplete s = false /\ rightResetComplete s = false.

(** A motor is within one step [d] of neutral speed. *)
Definition nearNeutral (d v : Z) : Prop := Z.abs (v - NEUTRAL_SPEED) <= d.

(** ** Output traces *)

Definition NEUTRAL_PULSE : Z := REVERSE_PULSE + NEUTRAL_SPEED.

Definition leftPulses (tr : list MotorPulse) : list Z :=
  List.map leftMotorPulse tr.

Definition rightPulses (tr : list MotorPulse) : list Z :=
  List.map rightMotorPulse tr.

(** Two pulses lie strictly on opposite sides of the neutral pulse. *)
Definition oppositeSides (a b : Z) : Prop :=
  (a < NEUTRAL_PULSE /\ NEUTRAL_PULSE < b) \/
  (b < NEUTRAL_PULSE /\ NEUTRAL_PULSE < a).

Definition withinStep (d a : Z) : Prop := Z.abs (a - NEUTRAL_PULSE) <= d.

(** Between any two outputs on opposite sides of neutral, the earlier one
    included, some output is exactly the neutral pulse. *)
Definition passesExactNeutral (tr : list Z) : Prop :=
  forall (i j : nat) (a b : Z),
    (i < j)%nat -> nth_error tr i = Some a -> nth_error tr j = Some b ->
    oppositeSides a b ->
    exists k : nat, (i <= k <= j)%nat /\ nth_error tr k = Some NEUTRAL_PULSE.

(** Between any two outputs on opposite sides of neutral, the earlier one
    included, some output is within [d] of the neutral pulse. *)
Definition passesNeutralBand (d : Z) (tr : list Z) : Prop :=
  forall (i j : nat) (a b : Z),
    (i < j)%nat -> nth_error tr i = Some a -> nth_error tr j = Some b ->
    oppositeSides a b ->
    exists (k : nat) (m : Z),
      (i <= k < j)%nat /\ nth_error tr k = Some m /\ withinStep d m.

(** Every output that is followed by one on the other side of neutral is
    within [d] of neutral; [prev] is the output before the list. *)
Fixpoint chain (d prev : Z) (l : list Z) : Prop :=
  match l with
  | [] => True
  | o :: l' => (oppositeSides prev o -> withinStep d prev) /\ chain d o l'
  end.

(** A motor at speed [v] heading for the drive speed [target] is near
    neutral or on the target's side of it. *)
Definition headingFor (d v target : Z) : Prop :=
  nearNeutral d v \/
  (NEUTRAL_SPEED < v /\ NEUTRAL_SPEED < target) \/
  (v < NEUTRAL_SPEED /\ target < NEUTRAL_SPEED).

(** Largest distance of the two motors from neutral speed: it bounds the
    number of iterations of the resync loop. *)
Definition resetMeasure (s : DriveState) : nat :=
  Z.to_nat (Z.max (Z.abs (prevLeft s - NEUTRAL_SPEED))
                  (Z.abs (prevRight s - NEUTRAL_SPEED))).


(** What one block of the resync loop does to a motor at speed [p] with
    completion flag [b]: a step of [d] towards neutral, or, within [d] of
    neutral, no move and the flag set. *)
Definition resetMoves (d p : Z) (b : bool) (p' : Z) (b' : bool) : Prop :=
  (NEUTRAL_SPEED + d < p /\ p' = p - d /\ b' = b) \/
  (p < NEUTRAL_SPEED - d /\ p' = p + d /\ b' = b) \/
  (nearNeutral d p /\ p' = p /\ b' = true).

(** A set completion flag tells the truth about its motor. *)
Definition flagsHonest (d : Z) (s : DriveState) : Prop :=
  (leftResetComplete s = true -> nearNeutral d (prevLeft s)) /\
  (rightResetComplete s = true -> nearNeutral d (prevRight s)).

(** The configuration with another deceleration rate. *)
Definition setDecRate (d : Z) (c : Config) : Config :=
  mkConfig (forwardThresh c) (reverseThresh c) (leftThresh c) (rightThresh c)
           (speedLimit c) (accRate c) d
           (FWD_LEFT_TRIM c) (REV_LEFT_TRIM c) (FWD_RIGHT_TRIM c)
           (REV_RIGHT_TRIM c).

(** What holds between two passes of [loop]: no resync is pending, the
    speeds are in range, and each motor is near neutral or on the side of
    neutral of the target stored for it. *)
Definition betweenCycles (c : Config) (s : DriveState) : Prop :=
  directionChanged s = false /\
  speedsInRange s /\
  headingFor (decRate c) (prevLeft s)
             (Drive.mapDriveSpeed (s16 (prevLeftMotorSpeed s))) /\
  headingFor (decRate c) (prevRight s)
             (Drive.mapDriveSpeed (s16 (prevRightMotorSpeed s))).

(** Joystick readings with the stick pushed fully forward, pulled fully
    back, and at rest. *)
Definition stickForward : JoystickReads := mkReads 512 512 1023 1023.
Definition stickReverse : JoystickReads := mkReads 512 512 0 0.
Definition stickAtRest : JoystickReads := mkReads 512 512 512 512.

(** ** Touchscreen adjustment of a percentage *)

Module Touch.

(** One [case] of [updateSensitivityReadout] or [updateMotionCharReadout],
    as far as the percentage goes; the seven cases are the same text up to
    the variable.  The percentage is a [uint16_t] and [incAmount] a
    [uint8_t], so the two tests against 100 are unsigned: a decrease below
    0 shows as a wrap to 65k. *)
Definition adjustPercent (upOrDown : Ascii.ascii) (incAmount percent : Z) : Z :=
  if Ascii.eqb upOrDown "U"%char && negb (percent =? 100) then
    if u16 (percent + u8 incAmount) >? 100 then 100
    else u16 (percent + u8 incAmount)
  else if Ascii.eqb upOrDown "D"%char && negb (percent =? 0) then
    if u16 (percent - u8 incAmount) >? 100 then 0
    else u16 (percent - u8 incAmount)
  else percent.

End Touch.

(** ** The sketch with compiled-in settings

    The second sketch of the repository ("New Board") keeps the same
    interlock and resync loop but works on [int]s, has no trims, and ramps
    by the constants [INCREASE_RAMPING] and [DECREASE_RAMPING]. *)

Module NewBoard.

Definition INCREASE_RAMPING : Z := 5.
Definition DECREASE_RAMPING : Z := 15.

(** The [if]/[else if] chain of its [setLeftRightMotorSpeeds]. *)
Definition targetSpeeds (moveValue rotateValue : Z) : Z * Z :=
  if moveValue >? 0 then (moveValue, moveValue)
  else if moveValue <? 0 then (moveValue, moveValue)
  else if rotateValue <? 0 then (rotateValue, - rotateValue)
  else if rotateValue >? 0 then (rotateValue, - rotateValue)
  else (0, 0).

(** One motor block of its [drive]; the left and the right block are the
    same text up to the variable names. *)
Definition rampMotor (nextSpeed prev : Z) : Z :=
  let driveSpeed := map nextSpeed 0 1023 0 (u16 (FORWARD_PULSE - REVERSE_PULSE)) in
  if driveSpeed >? prev + INCREASE_RAMPING then prev + INCREASE_RAMPING
  else if driveSpeed <? prev - INCREASE_RAMPING then prev - INCREASE_RAMPING
  else driveSpeed.

End NewBoard.

(** ** The touchscreen menu of [loop] *)

Module Menu.

Definition CONSECUTIVE_TOUCH_DELAY : Z := 100.

Definition L_BUTTON_R1_TOUCH_X1 : Z := 1000.
Definition L_BUTTON_R1_TOUCH_X2 : Z := 1300.
Definition L_BUTTON_R2_TOUCH_X1 : Z := 1450.
Definition L_BUTTON_R2_TOUCH_X2 : Z := 1750.
Definition L_BUTTON_R3_TOUCH_X1 : Z := 1900.
Definition L_BUTTON_R3_TOUCH_X2 : Z := 2200.
Definition L_BUTTON_R4_TOUCH_X1 : Z := 2350.
Definition L_BUTTON_R4_TOUCH_X2 : Z := 2650.
Definition L_BUTTON_C1_TOUCH_Y1 : Z := 3870.
Definition L_BUTTON_C1_TOUCH_Y2 : Z := 3650.
Definition L_BUTTON_C2_TOUCH_Y1 : Z := 2800.
Definition L_BUTTON_C2_TOUCH_Y2 : Z := 2550.

Definition INC_BTNS_TOUCH_X1 : Z := 2800.
Definition INC_BTNS_TOUCH_X2 : Z := 3100.
Definition x1_TOUCH_Y1 : Z := 3550.
Definition x1_TOUCH_Y2 : Z := 3200.
Definition x5_TOUCH_Y1 : Z := 3150.
Definition x5_TOUCH_Y2 : Z := 2800.
Definition x10_TOUCH_Y1 : Z := 3750.
Definition x10_TOUCH_Y2 : Z := 2400.

Definition SAVE_VAL_TOUCH_X1 : Z := 3250.
Definition SAVE_VAL_TOUCH_X2 : Z := 3550.
Definition SAVE_VAL_TOUCH_Y1 : Z := 3870.
Definition SAVE_VAL_TOUCH_Y2 : Z := 2190.

Definition R_BUTTON_R1_TOUCH_X1 : Z := 1000.
Definition R_BUTTON_R1_TOUCH_X2 : Z := 1300.
Definition R_BUTTON_R2_TOUCH_X1 : Z := 2200.
Definition R_BUTTON_R2_TOUCH_X2 : Z := 2550.
Definition R_BUTTON_R3_TOUCH_X1 : Z := 3400.
Definition R_BUTTON_R3_TOUCH_X2 : Z := 3700.
Definition R_BUTTON_C1_TOUCH_Y1 : Z := 2000.
Definition R_BUTTON_C1_TOUCH_Y2 : Z := 1770.
Definition R_BUTTON_C2_TOUCH_Y1 : Z := 860.
Definition R_BUTTON_C2_TOUCH_Y2 : Z := 650.

(** Conversion to [unsigned long]. *)
Definition u32 (z : Z) : Z := z mod 4294967296.

(** [updateSensitivityReadout(row, upOrDown, incAmount)], as far as the
    percentages go: the [switch] over the four rows. *)
Definition updateSensitivityReadout
  (row : Z) (upOrDown : ascii) (incAmount : Z) (p : Percents) : Percents :=
  let row := u8 row in
  if row =? 1 then
    mkPercents (Touch.adjustPercent upOrDown incAmount (forwardSensPercent p))
               (reverseSensPercent p) (leftSensPercent p) (rightSensPercent p)
               (speedLimitPercent p) (accRatePercent p) (decRatePercent p)
  else if row =? 2 then
    mkPercents (forwardSensPercent p)
               (Touch.adjustPercent upOrDown incAmount (reverseSensPercent p))
               (leftSensPercent p) (rightSensPercent p)
               (speedLimitPercent p) (accRatePercent p) (decRatePercent p)
  else if row =? 3 then
    mkPercents (forwardSensPercent p) (reverseSensPercent p)
               (Touch.adjustPercent upOrDown incAmount (leftSensPercent p))
               (rightSensPercent p)
               (speedLimitPercent p) (accRatePercent p) (decRatePercent p)
  else if row =? 4 then
    mkPercents (forwardSensPercent p) (reverseSensPercent p) (leftSensPercent p)
               (Touch.adjustPercent upOrDown incAmount (rightSensPercent p))
               (speedLimitPercent p) (accRatePercent p) (decRatePercent p)
  else p.

(** [updateMotionCharReadout(row, upOrDown, incAmount)], as far as the
    percentages go: the [switch] over the three rows. *)
Definition updateMotionCharReadout
  (row : Z) (upOrDown : ascii) (incAmount : Z) (p : Percents) : Percents :=
  let row := u8 row in
  if row =? 1 then
    mkPercents (forwardSensPercent p) (reverseSensPercent p) (leftSensPercent p)
               (rightSensPercent p)
               (Touch.adjustPercent upOrDown incAmount (speedLimitPercent p))
               (accRatePercent p) (decRatePercent p)
  else if row =? 2 then
    mkPercents (forwardSensPercent p) (reverseSensPercent p) (leftSensPercent p)
               (rightSensPercent p) (speedLimitPercent p)
               (Touch.adjustPercent upOrDown incAmount (accRatePercent p))
               (decRatePercent p)
  else if row =? 3 then
    mkPercents (forwardSensPercent p) (reverseSensPercent p) (leftSensPercent p)
               (rightSensPercent p) (speedLimitPercent p) (accRatePercent p)
               (Touch.adjustPercent upOrDown incAmount (decRatePercent p))
  else p.

(** [v > lo && v < hi], the shape of every extent test in [loop]. *)
Definition within (lo hi v : Z) : bool := (v >? lo) && (v <? hi).

(** "Determine which (if any) button was pressed": the chain over the four
    button columns and their rows. *)
Definition adjustByTouch (touch_x touch_y readoutIncrement : Z) (p : Percents)
  : Percents :=
  if within L_BUTTON_C1_TOUCH_Y2 L_BUTTON_C1_TOUCH_Y1 touch_y then
    if within L_BUTTON_R1_TOUCH_X1 L_BUTTON_R1_TOUCH_X2 touch_x then
      updateSensitivityReadout 1 "D" readoutIncrement p
    else if within L_BUTTON_R2_TOUCH_X1 L_BUTTON_R2_TOUCH_X2 touch_x then
      updateSensitivityReadout 2 "D" readoutIncrement p
    else if within L_BUTTON_R3_TOUCH_X1 L_BUTTON_R3_TOUCH_X2 touch_x then
      updateSensitivityReadout 3 "D" readoutIncrement p
    else if within L_BUTTON_R4_TOUCH_X1 L_BUTTON_R4_TOUCH_X2 touch_x then
      updateSensitivityReadout 4 "D" readoutIncrement p
    else p
  else if within L_BUTTON_C2_TOUCH_Y2 L_BUTTON_C2_TOUCH_Y1 touch_y then
    if within L_BUTTON_R1_TOUCH_X1 L_BUTTON_R1_TOUCH_X2 touch_x then
      updateSensitivityReadout 1 "U" readoutIncrement p
    else if within L_BUTTON_R2_TOUCH_X1 L_BUTTON_R2_TOUCH_X2 touch_x then
      updateSensitivityReadout 2 "U" readoutIncrement p
    else if within L_BUTTON_R3_TOUCH_X1 L_BUTTON_R3_TOUCH_X2 touch_x then
      updateSensitivityReadout 3 "U" readoutIncrement p
    else if within L_BUTTON_R4_TOUCH_X1 L_BUTTON_R4_TOUCH_X2 touch_x then
      updateSensitivityReadout 4 "U" readoutIncrement p
    else p
  else if within R_BUTTON_C1_TOUCH_Y2 R_BUTTON_C1_TOUCH_Y1 touch_y then
    if within R_BUTTON_R1_TOUCH_X1 R_BUTTON_R1_TOUCH_X2 touch_x then
      updateMotionCharReadout 1 "D" readoutIncrement p
    else if within R_BUTTON_R2_TOUCH_X1 R_BUTTON_R2_TOUCH_X2 touch_x then
      updateMotionCharReadout 2 "D" readoutIncrement p
    else if within R_BUTTON_R3_TOUCH_X1 R_BUTTON_R3_TOUCH_X2 touch_x then
      updateMotionCharReadout 3 "D" readoutIncrement p
    else p
  else if within R_BUTTON_C2_TOUCH_Y2 R_BUTTON_C2_TOUCH_Y1 touch_y then
    if within R_BUTTON_R1_TOUCH_X1 R_BUTTON_R1_TOUCH_X2 touch_x then
      updateMotionCharReadout 1 "U" readoutIncrement p
    else if within R_BUTTON_R2_TOUCH_X1 R_BUTTON_R2_TOUCH_X2 touch_x then
      updateMotionCharReadout 2 "U" readoutIncrement p
    else if within R_BUTTON_R3_TOUCH_X1 R_BUTTON_R3_TOUCH_X2 touch_x then
      updateMotionCharReadout 3 "U" readoutIncrement p
    else p
  else p.

(** "One of the increment selection buttons was pressed". *)
Definition selectIncrement (touch_x touch_y readoutIncrement : Z) : Z :=
  if within INC_BTNS_TOUCH_X1 INC_BTNS_TOUCH_X2 touch_x then
    if within x1_TOUCH_Y2 x1_TOUCH_Y1 touch_y then 1
    else if within x5_TOUCH_Y2 x5_TOUCH_Y1 touch_y then 5
    else if within x10_TOUCH_Y2 x10_TOUCH_Y1 touch_y then 10
    else readoutIncrement
  else readoutIncrement.

(** The extent test of the save values button. *)
Definition savePressed (touch_x touch_y : Z) : bool :=
  within SAVE_VAL_TOUCH_X1 SAVE_VAL_TOUCH_X2 touch_x
  && within SAVE_VAL_TOUCH_Y2 SAVE_VAL_TOUCH_Y1 touch_y.

(** [EEPROM.update(address, value)] with a [uint8_t] value. *)
Definition EEPROM_update (e : EEPROM) (address value : Z) : EEPROM :=
  fun a => if a =? address then u8 value else e a.

(** The seven [EEPROM.update] calls of the save branch, in order. *)
Definition saveValues (p : Percents) (e : EEPROM) : EEPROM :=
  let e := EEPROM_update e FORWARD_SENS_ADDRESS (forwardSensPercent p) in
  let e := EEPROM_update e REVERSE_SENS_ADDRESS (reverseSensPercent p) in
  let e := EEPROM_update e LEFT_SENS_ADDRESS (leftSensPercent p) in
  let e := EEPROM_update e RIGHT_SENS_ADDRESS (rightSensPercent p) in
  let e := EEPROM_update e SPEED_LIMIT_ADDRESS (speedLimitPercent p) in
  let e := EEPROM_update e ACC_RATE_ADDRESS (accRatePercent p) in
  EEPROM_update e DEC_RATE_ADDRESS (decRatePercent p).

(** What the touchscreen block of [loop] reads and writes: the seven
    percentages, the increment, the characteristics in force, the EEPROM
    and the time of the last accepted touch. *)
Record MenuState : Type := mkMenu {
  percents : Percents;
  readoutIncrement : Z;
  characteristics : Config;
  storage : EEPROM;
  prevTimePressed : Z
}.

(** The touchscreen block of [loop].  [timePressed] is the time stamp left
    by the interrupt routine, [touch_x] and [touch_y] what [read_touch]
    returns. *)
Definition handleTouch (ALLOW_EEPROM_WRITES : bool)
           (timePressed touch_x touch_y : Z) (m : MenuState) : MenuState :=
  if timePressed >? u32 (prevTimePressed m + CONSECUTIVE_TOUCH_DELAY) then
    let p := adjustByTouch touch_x touch_y (readoutIncrement m) (percents m) in
    let inc := selectIncrement touch_x touch_y (readoutIncrement m) in
    if savePressed touch_x touch_y && ALLOW_EEPROM_WRITES then
      mkMenu p inc (Setup.saveDerive p (characteristics m))
             (saveValues p (storage m)) timePressed
    else
      mkMenu p inc (characteristics m) (storage m) timePressed
  else m.

End Menu.

(** ** Calibration over the serial line *)

Inductive incType : Type := COURSE | FINE.

Record CalibState : Type := mkCalib {
  calibrationStarted : bool;
  calibrationMode : list ascii;
  courseOrFine : incType;
  calibConfig : Config
}.

Module Calibration.

Definition COURSE_SPEED_CALIBRATION_INC : Z := 32.
Definition FINE_SPEED_CALIBRATION_INC : Z := 2.

Definition setSpeedLimit (v : Z) (c : Config) : Config :=
  mkConfig (forwardThresh c) (reverseThresh c) (leftThresh c) (rightThresh c)
           v (accRate c) (decRate c)
           (FWD_LEFT_TRIM c) (REV_LEFT_TRIM c) (FWD_RIGHT_TRIM c)
           (REV_RIGHT_TRIM c).

Definition setTrims (fl rl fr rr : Z) (c : Config) : Config :=
  mkConfig (forwardThresh c) (reverseThresh c) (leftThresh c) (rightThresh c)
           (speedLimit c) (accRate c) (decRate c) fl rl fr rr.

(** The branch of [loop] taken when the operator answers "1": the values
    the minimum speed calibration starts from. *)
Definition startSpeedCalibration (k : CalibState) : CalibState :=
  mkCalib true ["1"%char] (courseOrFine k)
          (mkConfig 900 100 100 900 32 50 50 0 0 0 0).

(** The increment selected by [courseOrFine]. *)
Definition selectedInc (t : incType) : Z :=
  match t with
  | COURSE => COURSE_SPEED_CALIBRATION_INC
  | FINE => FINE_SPEED_CALIBRATION_INC
  end.

(** [serialEvent].  [serialRead] is what [Serial.read()] returns; it is
    stored in a [uint8_t].  The test [calibrationMode = "1"] is an
    assignment, so the mode becomes "1" and the [switch] always runs.  The
    characters are given by their codes. *)
Definition serialEvent (CALIBRATION_MODE_ENABLE : bool) (serialRead : Z)
           (k : CalibState) : CalibState :=
  if CALIBRATION_MODE_ENABLE && calibrationStarted k then
    let menuControl := u8 serialRead in
    let c := calibConfig k in
    let mode := ["1"%char] in
    if (menuControl =? 99) || (menuControl =? 67) then        (* c C *)
      mkCalib true mode COURSE c
    else if (menuControl =? 102) || (menuControl =? 70) then  (* f F *)
      mkCalib true mode FINE c
    else if (menuControl =? 117) || (menuControl =? 85) then  (* u U *)
      if u16 (speedLimit c + selectedInc (courseOrFine k)) <=? 512 then
        mkCalib true mode (courseOrFine k)
          (setSpeedLimit (u16 (speedLimit c + selectedInc (courseOrFine k))) c)
      else mkCalib true mode (courseOrFine k) c
    else if (menuControl =? 68) || (menuControl =? 100) then  (* D d *)
      if u16 (speedLimit c - selectedInc (courseOrFine k)) <=? 512 then
        mkCalib true mode (courseOrFine k)
          (setSpeedLimit (u16 (speedLimit c - selectedInc (courseOrFine k))) c)
      else mkCalib true mode (courseOrFine k) c
    else if menuControl =? 49 then                            (* 1 *)
      mkCalib true mode (courseOrFine k)
        (setTrims (u8 (FWD_LEFT_TRIM c + 1)) (REV_LEFT_TRIM c)
                  (FWD_RIGHT_TRIM c) (REV_RIGHT_TRIM c) c)
    else if menuControl =? 50 then                            (* 2 *)
      mkCalib true mode (courseOrFine k)
        (setTrims (u8 (FWD_LEFT_TRIM c - 1)) (REV_LEFT_TRIM c)
                  (FWD_RIGHT_TRIM c) (REV_RIGHT_TRIM c) c)
    else if menuControl =? 51 then                            (* 3 *)
      mkCalib true mode (courseOrFine k)
        (setTrims (FWD_LEFT_TRIM c) (u8 (REV_LEFT_TRIM c + 1))
                  (FWD_RIGHT_TRIM c) (REV_RIGHT_TRIM c) c)
    else if menuControl =? 52 then                            (* 4 *)
      mkCalib true mode (courseOrFine k)
        (setTrims (FWD_LEFT_TRIM c) (u8 (REV_LEFT_TRIM c - 1))
                  (FWD_RIGHT_TRIM c) (REV_RIGHT_TRIM c) c)
    else if menuControl =? 53 then                            (* 5 *)
      mkCalib true mode (courseOrFine k)
        (setTrims (FWD_LEFT_TRIM c) (REV_LEFT_TRIM c)
                  (u8 (FWD_RIGHT_TRIM c + 1)) (REV_RIGHT_TRIM c) c)
    else if menuControl =? 54 then                            (* 6 *)
      mkCalib true mode (courseOrFine k)
        (setTrims (FWD_LEFT_TRIM c) (REV_LEFT_TRIM c)
                  (u8 (FWD_RIGHT_TRIM c - 1)) (REV_RIGHT_TRIM c) c)
    else if menuControl =? 55 then                            (* 7 *)
      mkCalib true mode (courseOrFine k)
        (setTrims (FWD_LEFT_TRIM c) (REV_LEFT_TRIM c)
                  (FWD_RIGHT_TRIM c) (u8 (REV_RIGHT_TRIM c + 1)) c)
    else if menuControl =? 56 then                            (* 8 *)
      mkCalib true mode (courseOrFine k)
        (setTrims (FWD_LEFT_TRIM c) (REV_LEFT_TRIM c)
                  (FWD_RIGHT_TRIM c) (u8 (REV_RIGHT_TRIM c - 1)) c)
    else if (menuControl =? 101) || (menuControl =? 69) then  (* e E *)
      mkCalib false mode (courseOrFine k) c
    else mkCalib true mode (courseOrFine k) c
  else k.

End Calibration.

(** ** The magnitude bar *)

(** One [tft.fillRect(x, y, w, h, color)] call. *)
Record Rect : Type := mkRect {
  rectX : Z;
  rectY : Z;
  rectW : Z;
  rectH : Z;
  rectColor : Z
}.

Module MagnitudeBar.

Definition WHITE : Z := 65535.   (* 0xFFFF *)
Definition GREEN : Z := 2016.    (* 0x07E0 *)
Definition MAG_BAR_BOX_WIDTH : Z := 103.
Definition MENU_LINE_HEIGHT : Z := 31.

(** [int(round(float(percentMagnitude) / 4.0))] stored in a [uint8_t],
    then raised to 1 for a non-zero percentage.  A quarter of a byte value
    is exact in [float], and [round] takes halves away from zero, so the
    quotient is [(p + 2) / 4] in whole numbers. *)
Definition numSegmentsToFill (percentMagnitude : Z) : Z :=
  let p := u8 percentMagnitude in
  let n := u8 ((p + 2) / 4) in
  if (p >? 0) && (n =? 0) then 1 else n.

(** The colour of the segment after segment [currBar]. *)
Definition nextColor (numSegments currBar currBarColor : Z) : Z :=
  if currBar <? numSegments then
    if currBar <=? 2 then u16 (currBarColor + 4096)        (* 0x1000 *)
    else if currBar <? 12 then u16 (currBarColor + 6144)   (* 0x1800 *)
    else if currBar <? 23 then u16 (currBarColor - 160)    (* 0x00A0 *)
    else u16 (currBarColor - 128)                          (* 0x0080 *)
  else WHITE.

(** [n] passes of the [for] loop from the given loop variables: the
    rectangles filled, in order. *)
Fixpoint barLoop (n : nat) (numSegments currBar currBarX0 currBarY0
                            currBarHeight currBarColor : Z) : list Rect :=
  match n with
  | O => []
  | S n' =>
      mkRect currBarX0 currBarY0 3 currBarHeight currBarColor ::
      barLoop n' numSegments (u8 (currBar + 1))
              (u16 (currBarX0 + 4)) (u16 (currBarY0 - 1))
              (u8 (currBarHeight + 1))
              (nextColor numSegments currBar currBarColor)
  end.

(** [drawMagnitudeBar(x0, y0, percentMagnitude)]: the loop runs for
    [currBar] from 1 to 25. *)
Definition drawMagnitudeBar (x0 y0 percentMagnitude : Z) : list Rect :=
  let n := numSegmentsToFill percentMagnitude in
  barLoop 25 n 1 (u16 (x0 + 2)) (u16 (y0 + 27)) 2
          (if n =? 0 then WHITE else GREEN).

End MagnitudeBar.

(** ** Outputs of the second sketch *)

Module NewBoardDrive.

Definition INVERT_LEFT_MOTOR : bool := false.
Definition INVERT_RIGHT_MOTOR : bool := true.

(** [map(leftMotorSpeed, -512, 512, 0, 1023)] stored in an [int]. *)
Definition remap (motorSpeed : Z) : Z := s16 (map motorSpeed (-512) 512 0 1023).

(** "Calculate pulse width to send to ... motor controller". *)
Definition motorPulse (invert : bool) (driveSpeed : Z) : Z :=
  if invert then s16 (u16 (FORWARD_PULSE - driveSpeed))
  else s16 (u16 (REVERSE_PULSE + driveSpeed)).

(** Both motor blocks of its [drive] without a pending resync: the new
    speeds and the two pulses. *)
Definition driveMotors (nextLeftSpeed nextRightSpeed prevLeft prevRight : Z)
  : (Z * Z) * (Z * Z) :=
  let leftDriveSpeed := NewBoard.rampMotor nextLeftSpeed prevLeft in
  let rightDriveSpeed := NewBoard.rampMotor nextRightSpeed prevRight in
  ((leftDriveSpeed, rightDriveSpeed),
   (motorPulse INVERT_LEFT_MOTOR leftDriveSpeed,
    motorPulse INVERT_RIGHT_MOTOR rightDriveSpeed)).

End NewBoardDrive.

(** ** The resync loop of the second sketch *)

Module NewBoardReset.

(** One motor's block of the [while] loop of its [resetMotorSpeeds]: all
    [int]s, and the step is the constant [DECREASE_RAMPING]. *)
Definition resetMotor (resetSpeed prev : Z) (complete : bool) : Z * bool :=
  if resetSpeed >? s16 (NEUTRAL_SPEED + NewBoard.DECREASE_RAMPING) then
    (s16 (prev - NewBoard.DECREASE_RAMPING), complete)
  else if resetSpeed <? s16 (NEUTRAL_SPEED - NewBoard.DECREASE_RAMPING) then
    (s16 (prev + NewBoard.DECREASE_RAMPING), complete)
  else (resetSpeed, true).

(** One iteration of the [while (directionChanged)] loop. *)
Definition resetIteration (locals : Z * Z) (s : DriveState)
  : (Z * Z) * DriveState * MotorPulse :=
  let '(leftResetSpeed, rightResetSpeed) := locals in
  let '(leftResetSpeed, lc) :=
    resetMotor leftResetSpeed (prevLeft s) (leftResetComplete s) in
  let leftPulse :=
    NewBoardDrive.motorPulse NewBoardDrive.INVERT_LEFT_MOTOR leftResetSpeed in
  let s := Drive.setLeft leftResetSpeed lc s in
  let '(rightResetSpeed, rc) :=
    resetMotor rightResetSpeed (prevRight s) (rightResetComplete s) in
  let rightPulse :=
    NewBoardDrive.motorPulse NewBoardDrive.INVERT_RIGHT_MOTOR rightResetSpeed in
  let s := Drive.setRight rightResetSpeed rc s in
  let s := if leftResetComplete s && rightResetComplete s
           then Drive.clearChange s else s in
  ((leftResetSpeed, rightResetSpeed), s, mkPulse leftPulse rightPulse).

(** The loop, counted down from [fuel] as for the first sketch. *)
Fixpoint resetLoop (fuel : nat) (locals : Z * Z) (s : DriveState)
  : option (DriveState * list MotorPulse) :=
  if directionChanged s then
    match fuel with
    | O => None
    | S fuel' =>
        let '(locals', s', p) := resetIteration locals s in
        match resetLoop fuel' locals' s' with
        | Some (s'', ps) => Some (s'', p :: ps)
        | None => None
        end
    end
  else Some (s, []).

Definition resetMotorSpeeds (fuel : nat) (s : DriveState)
  : option (DriveState * list MotorPulse) :=
  resetLoop fuel (prevLeft s, prevRight s) s.

End NewBoardReset.

(** The pulse pair with the right pulse mirrored about neutral, as the
    inverted right motor of the second sketch is driven. *)
Definition mirrorRight (p : MotorPulse) : MotorPulse :=
  mkPulse (leftMotorPulse p)
          (REVERSE_PULSE + FORWARD_PULSE - rightMotorPulse p).

Definition mirrored (r : option (DriveState * list MotorPulse))
  : option (DriveState * list MotorPulse) :=
  match r with
  | Some (s, outs) => Some (s, List.map mirrorRight outs)
  | None => None
  end.

(** ** Auxiliary notions for the ramp and the resync loop *)

(** The speed after [n] passes of a ramp by [acc] from [p] towards [t]. *)
Definition rampedSpeed (acc p t : Z) (n : nat) : Z :=
  if p <=? t then Z.min t (p + Z.of_nat n * acc)
  else Z.max t (p - Z.of_nat n * acc).

(** The number of resync steps a motor at distance [dist] from neutral
    takes with deceleration rate [d]. *)
Definition resyncSteps (d dist : Z) : Z := Z.max 0 ((dist - 1) / d).

(** The stick is inside all four deadzones. *)
Definition atRest (c : Config) (j : JoystickReads) : Prop :=
  (u16 (readXp j) >? rightThresh c) = false /\
  (u16 (readXn j) <? leftThresh c) = false /\
  (u16 (readYp j) >? forwardThresh c) = false /\
  (u16 (readYn j) <? reverseThresh c) = false.

(** Each of the seven percentages is between 0 and 100. *)
Definition percentsValid (p : Percents) : Prop :=
  0 <= forwardSensPercent p <= 100 /\ 0 <= reverseSensPercent p <= 100 /\
  0 <= leftSensPercent p <= 100 /\ 0 <= rightSensPercent p <= 100 /\
  0 <= speedLimitPercent p <= 100 /\ 0 <= accRatePercent p <= 100 /\
  0 <= decRatePercent p <= 100.

(** The increment is one of the three the buttons select. *)
Definition incrementValid (i : Z) : Prop := i = 1 \/ i = 5 \/ i = 10.

(** The colours of a magnitude bar filled to all 25 segments. *)
Definition fullGradient : list Z :=
  List.map rectColor (MagnitudeBar.drawMagnitudeBar 0 0 100).

(** How many of the 25 segments carry a gradient colour. *)
Definition colouredSegments (percentMagnitude : Z) : nat :=
  Z.to_nat (Z.min 25 (MagnitudeBar.numSegmentsToFill percentMagnitude)).

(** How many of the seven percentages differ between [p] and [q]. *)
Definition changedPercents (p q : Percents) : nat :=
  (if forwardSensPercent p =? forwardSensPercent q then 0 else 1) +
  (if reverseSensPercent p =? reverseSensPercent q then 0 else 1) +
  (if leftSensPercent p =? leftSensPercent q then 0 else 1) +
  (if rightSensPercent p =? rightSensPercent q then 0 else 1) +
  (if speedLimitPercent p =? speedLimitPercent q then 0 else 1) +
  (if accRatePercent p =? accRatePercent q then 0 else 1) +
  (if decRatePercent p =? decRatePercent q then 0 else 1).

(** Successive passes of the touchscreen block of [loop]: each element is
    the time stamp and the coordinates the pass works with. *)
Definition menuRun (ALLOW_EEPROM_WRITES : bool) (ts : list (Z * Z * Z))
           (m : Menu.MenuState) : Menu.MenuState :=
  fold_left (fun m t =>
               Menu.handleTouch ALLOW_EEPROM_WRITES
                                (fst (fst t)) (snd (fst t)) (snd t) m) ts m.

(** Successive calls of [serialEvent], one per byte received. *)
Definition calibRun (CALIBRATION_MODE_ENABLE : bool) (bytes : list Z)
           (k : CalibState) : CalibState :=
  fold_left (fun k b => Calibration.serialEvent CALIBRATION_MODE_ENABLE b k)
            bytes k.

(** What holds of the characteristics throughout a minimum speed
    calibration. *)
Definition calibrating (c : Config) : Prop :=
  0 <= speedLimit c <= 512 /\ speedLimit c mod 2 = 0 /\
  forwardThresh c = 900 /\ reverseThresh c = 100 /\
  leftThresh c = 100 /\ rightThresh c = 900 /\
  accRate c = 50 /\ decRate c = 50 /\ trimsInRange c.

(** Whether the colours of the bar at the origin are the leading part of
    the full gradient followed by white. *)
Definition barColoursAgree (p : Z) : bool :=
  let k := colouredSegments p in
  if list_eq_dec Z.eq_dec
       (List.map rectColor (MagnitudeBar.drawMagnitudeBar 0 0 p))
       (firstn k fullGradient ++ repeat MagnitudeBar.WHITE (25 - k))
  then true else false.

(** Every value of a [uint8_t]. *)
Definition allBytes : list Z := List.map Z.of_nat (seq 0 256).

(** * Properties *)

(** ** Machine integer facts *)

Lemma u8_range z : 0 <= u8 z < 256.
Proof. unfold u8. apply Z.mod_pos_bound. lia. Qed.

Lemma u16_small z : 0 <= z < 65536 -> u16 z = z.
Proof. intro H. unfold u16. apply Z.mod_small. exact H. Qed.

Lemma s16_small z : -32768 <= z < 32768 -> s16 z = z.
Proof. intro H. unfold s16. rewrite Z.mod_small; lia. Qed.

Lemma u16_neg z : -65536 <= z < 0 -> u16 z = z + 65536.
Proof.
  intro H. unfold u16.
  replace z with (z + 65536 + (-1) * 65536) at 1 by lia.
  rewrite Z.mod_add by lia. apply Z.mod_small. lia.
Qed.

Lemma u16_s16 z : u16 (s16 z) = u16 z.
Proof.
  unfold u16, s16.
  replace ((z + 32768) mod 65536 - 32768)
    with ((z + 32768) mod 65536 + 32768 + (-1) * 65536) by lia.
  rewrite Z.mod_add by lia.
  rewrite Zplus_mod_idemp_l.
  replace (z + 32768 + 32768) with (z + 1 * 65536) by lia.
  apply Z.mod_add. lia.
Qed.

(** [map] on the percent scale is the expected affine function. *)
Lemma map_percent p lo hi :
  0 <= p -> lo <= hi ->
  map p 0 100 lo hi = lo + (p * (hi - lo)) / 100.
Proof.
  intros Hp Hl. unfold map. change (100 - 0) with 100.
  rewrite Z.sub_0_r. rewrite Z.quot_div_nonneg by nia. lia.
Qed.

Lemma map_percent_down p lo hi :
  0 <= p -> hi <= lo ->
  map p 0 100 lo hi = lo - (p * (lo - hi)) / 100.
Proof.
  intros Hp Hl. unfold map. change (100 - 0) with 100. rewrite Z.sub_0_r.
  replace (p * (hi - lo)) with (- (p * (lo - hi))) by lia.
  rewrite Z.quot_opp_l by lia.
  rewrite Z.quot_div_nonneg by nia. lia.
Qed.

Lemma clampPercent_min p : Setup.clampPercent p = Z.min p 100.
Proof.
  unfold Setup.clampPercent. destruct (Z.gtb_spec p 100); lia.
Qed.

Lemma clamped_read e a :
  u16 (EEPROM_read (clampedEEPROM e) a) = Z.min (EEPROM_read e a) 100.
Proof.
  unfold clampedEEPROM.
  pose proof (u8_range (e a)) as H.
  assert (Hm : 0 <= Z.min (EEPROM_read e a) 100 < 256)
    by (unfold EEPROM_read; lia).
  unfold EEPROM_read at 1. unfold u8 at 1.
  rewrite (Z.mod_small _ 256) by exact Hm.
  apply u16_small. lia.
Qed.

Lemma clamp_read e a :
  Setup.clampPercent (u16 (EEPROM_read e a)) = Z.min (EEPROM_read e a) 100.
Proof.
  pose proof (u8_range (e a)) as H.
  rewrite u16_small by (unfold EEPROM_read; lia).
  apply clampPercent_min.
Qed.

Lemma clamp_idem z : Setup.clampPercent (Z.min z 100) = Z.min z 100.
Proof. rewrite clampPercent_min. lia. Qed.

(** The characteristics derived at startup from percentages in [0,100]. *)
Lemma setupDerive_values p t :
  0 <= forwardSensPercent p <= 100 -> 0 <= reverseSensPercent p <= 100 ->
  0 <= leftSensPercent p <= 100 -> 0 <= rightSensPercent p <= 100 ->
  0 <= speedLimitPercent p <= 100 -> 0 <= accRatePercent p <= 100 ->
  0 <= decRatePercent p <= 100 ->
  Setup.setupDerive p t =
  mkConfig (1000 - 4 * forwardSensPercent p) (4 * reverseSensPercent p)
           (4 * leftSensPercent p) (1000 - 4 * rightSensPercent p)
           (72 + speedLimitPercent p * 440 / 100)
           (1 + accRatePercent p * 29 / 100)
           (1 + decRatePercent p * 29 / 100)
           (tFWD_LEFT t) (tREV_LEFT t) (tFWD_RIGHT t) (tREV_RIGHT t).
Proof.
  intros Hf Hr Hl Hg Hs Ha Hd. unfold Setup.setupDerive.
  unfold MAX_FORWARD_THRESH, MIN_FORWARD_THRESH, MIN_REVERSE_THRESH,
    MAX_REVERSE_THRESH, MIN_LEFT_THRESH, MAX_LEFT_THRESH, MAX_RIGHT_THRESH,
    MIN_RIGHT_THRESH, MIN_SPEED_LIMIT, MAX_SPEED_LIMIT, MIN_INCREASE_RAMPING,
    MAX_INCREASE_RAMPING, MIN_DECREASE_RAMPING, MAX_DECREASE_RAMPING.
  rewrite (map_percent_down (forwardSensPercent p) 1000 600) by lia.
  rewrite (map_percent_down (rightSensPercent p) 1000 600) by lia.
  rewrite (map_percent (reverseSensPercent p) 0 400) by lia.
  rewrite (map_percent (leftSensPercent p) 0 400) by lia.
  rewrite (map_percent (speedLimitPercent p) 72 512) by lia.
  rewrite (map_percent (accRatePercent p) 1 30) by lia.
  rewrite (map_percent (decRatePercent p) 1 30) by lia.
  f_equal; (rewrite u16_small || rewrite s16_small);
    Z.div_mod_to_equations; lia.
Qed.

(** ** Configuration storage *)

(** C9.  Whatever bytes the EEPROM holds (255 on unwritten storage
    included), [setup] keeps each of the seven percentages at the stored
    byte capped at 100, derives every threshold and rate from the capped
    percentages only, and so returns exactly what it returns on a storage
    whose bytes were capped beforehand; the derived characteristics lie in
    the ranges named by the MIN/MAX constants. *)
Theorem C9_setup_clamps_percentages (e : EEPROM) (t : Trims) :
  let p := fst (Setup.setup true e t) in
  let c := snd (Setup.setup true e t) in
  p = mkPercents (Z.min (EEPROM_read e FORWARD_SENS_ADDRESS) 100)
                 (Z.min (EEPROM_read e REVERSE_SENS_ADDRESS) 100)
                 (Z.min (EEPROM_read e LEFT_SENS_ADDRESS) 100)
                 (Z.min (EEPROM_read e RIGHT_SENS_ADDRESS) 100)
                 (Z.min (EEPROM_read e SPEED_LIMIT_ADDRESS) 100)
                 (Z.min (EEPROM_read e ACC_RATE_ADDRESS) 100)
                 (Z.min (EEPROM_read e DEC_RATE_ADDRESS) 100) /\
  percentsAtMost100 p /\
  c = Setup.setupDerive p t /\
  Setup.setup true e t = Setup.setup true (clampedEEPROM e) t /\
  thresholdsInRange c /\ speedLimitInRange c /\ ratesInRange c.
Proof.
  intros p c. subst p c. unfold Setup.setup. cbn [fst snd].
  assert (Hp : Setup.clampPercents (Setup.readPercents e) =
               mkPercents (Z.min (EEPROM_read e FORWARD_SENS_ADDRESS) 100)
                 (Z.min (EEPROM_read e REVERSE_SENS_ADDRESS) 100)
                 (Z.min (EEPROM_read e LEFT_SENS_ADDRESS) 100)
                 (Z.min (EEPROM_read e RIGHT_SENS_ADDRESS) 100)
                 (Z.min (EEPROM_read e SPEED_LIMIT_ADDRESS) 100)
                 (Z.min (EEPROM_read e ACC_RATE_ADDRESS) 100)
                 (Z.min (EEPROM_read e DEC_RATE_ADDRESS) 100)).
  { unfold Setup.clampPercents, Setup.readPercents. cbn [forwardSensPercent
      reverseSensPercent leftSensPercent rightSensPercent speedLimitPercent
      accRatePercent decRatePercent].
    rewrite !clamp_read. reflexivity. }
  assert (Hq : Setup.clampPercents (Setup.readPercents (clampedEEPROM e)) =
               Setup.clampPercents (Setup.readPercents e)).
  { rewrite Hp. unfold Setup.clampPercents, Setup.readPercents.
    cbn [forwardSensPercent reverseSensPercent leftSensPercent
      rightSensPercent speedLimitPercent accRatePercent decRatePercent].
    rewrite !clamped_read, !clamp_idem. reflexivity. }
  rewrite Hq, Hp.
  pose proof (u8_range (e FORWARD_SENS_ADDRESS)) as B1.
  pose proof (u8_range (e REVERSE_SENS_ADDRESS)) as B2.
  pose proof (u8_range (e LEFT_SENS_ADDRESS)) as B3.
  pose proof (u8_range (e RIGHT_SENS_ADDRESS)) as B4.
  pose proof (u8_range (e SPEED_LIMIT_ADDRESS)) as B5.
  pose proof (u8_range (e ACC_RATE_ADDRESS)) as B6.
  pose proof (u8_range (e DEC_RATE_ADDRESS)) as B7.
  fold (EEPROM_read e FORWARD_SENS_ADDRESS) in B1.
  fold (EEPROM_read e REVERSE_SENS_ADDRESS) in B2.
  fold (EEPROM_read e LEFT_SENS_ADDRESS) in B3.
  fold (EEPROM_read e RIGHT_SENS_ADDRESS) in B4.
  fold (EEPROM_read e SPEED_LIMIT_ADDRESS) in B5.
  fold (EEPROM_read e ACC_RATE_ADDRESS) in B6.
  fold (EEPROM_read e DEC_RATE_ADDRESS) in B7.
  split; [reflexivity|].
  split; [unfold percentsAtMost100; cbn; lia|].
  split; [reflexivity|].
  split; [reflexivity|].
  rewrite setupDerive_values by (cbn; lia).
  unfold thresholdsInRange, speedLimitInRange, ratesInRange.
  cbn [forwardThresh reverseThresh leftThresh rightThresh speedLimit accRate
       decRate forwardSensPercent reverseSensPercent leftSensPercent
       rightSensPercent speedLimitPercent accRatePercent decRatePercent].
  unfold MAX_FORWARD_THRESH, MIN_FORWARD_THRESH, MIN_REVERSE_THRESH,
    MAX_REVERSE_THRESH, MIN_LEFT_THRESH, MAX_LEFT_THRESH, MAX_RIGHT_THRESH,
    MIN_RIGHT_THRESH, MIN_SPEED_LIMIT, MAX_SPEED_LIMIT, MIN_INCREASE_RAMPING,
    MAX_INCREASE_RAMPING, MIN_DECREASE_RAMPING, MAX_DECREASE_RAMPING.
  repeat split; Z.div_mod_to_equations; lia.
Qed.

(** The startup path maps a sensitivity of p percent to a forward (and
    right) threshold of 1000 - 4p, the save path to 600 + 4p. *)
Lemma derive_paths_forward_right (p : Percents) (t : Trims) (c : Config) :
  0 <= forwardSensPercent p <= 100 -> 0 <= rightSensPercent p <= 100 ->
  forwardThresh (Setup.setupDerive p t) = 1000 - 4 * forwardSensPercent p /\
  forwardThresh (Setup.saveDerive p c) = 600 + 4 * forwardSensPercent p /\
  rightThresh (Setup.setupDerive p t) = 1000 - 4 * rightSensPercent p /\
  rightThresh (Setup.saveDerive p c) = 600 + 4 * rightSensPercent p.
Proof.
  intros Hf Hr. unfold Setup.setupDerive, Setup.saveDerive.
  cbn [forwardThresh rightThresh].
  unfold MAX_FORWARD_THRESH, MIN_FORWARD_THRESH, MAX_RIGHT_THRESH,
    MIN_RIGHT_THRESH.
  rewrite (map_percent_down (forwardSensPercent p) 1000 600) by lia.
  rewrite (map_percent_down (rightSensPercent p) 1000 600) by lia.
  rewrite (map_percent (forwardSensPercent p) 600 1000) by lia.
  rewrite (map_percent (rightSensPercent p) 600 1000) by lia.
  repeat split; rewrite u16_small; Z.div_mod_to_equations; lia.
Qed.

(** C10.  The two derivation paths disagree: at a forward and right
    sensitivity of 100 percent [setup] derives the thresholds 600 and 600,
    while the save branch of [loop] derives 1000 and 1000 from the same
    percentages (and at 0 percent the other way round). *)
Theorem C10_save_path_inverts_thresholds :
  let p100 := mkPercents 100 100 100 100 100 100 100 in
  let p0 := mkPercents 0 0 0 0 0 0 0 in
  let c100 := Setup.setupDerive p100 sourceTrims in
  let c0 := Setup.setupDerive p0 sourceTrims in
  (forwardThresh c100, rightThresh c100) = (600, 600) /\
  (forwardThresh (Setup.saveDerive p100 c100),
   rightThresh (Setup.saveDerive p100 c100)) = (1000, 1000) /\
  (forwardThresh c0, rightThresh c0) = (1000, 1000) /\
  (forwardThresh (Setup.saveDerive p0 c0),
   rightThresh (Setup.saveDerive p0 c0)) = (600, 600).
Proof. vm_compute. repeat split; reflexivity. Qed.

(** ** Target speeds and interlock *)

(** C3.  In the RUNNING state ([directionChanged] false) the comparison in
    [setLeftRightMotorSpeeds] raises [directionChanged] exactly when the
    new left or right motor speed differs from the stored one (any
    difference of value); when it does, both reset-complete flags are
    cleared, and when it does not, the state is left as it was.  The state
    handed to [drive] is this one with the new speeds stored. *)
Theorem C3_interlock_iff_speed_differs
  (fuel : nat) (c : Config) (s : DriveState) (moveValue rotateValue : Z) :
  directionChanged s = false ->
  let l := fst (Joystick.targetSpeeds c moveValue rotateValue) in
  let r := snd (Joystick.targetSpeeds c moveValue rotateValue) in
  let s' := Drive.interlock l r s in
  (directionChanged s' = true <->
   (l <> prevLeftMotorSpeed s \/ r <> prevRightMotorSpeed s)) /\
  (directionChanged s' = true ->
   leftResetComplete s' = false /\ rightResetComplete s' = false) /\
  (directionChanged s' = false -> s' = s) /\
  Drive.setLeftRightMotorSpeeds fuel c moveValue rotateValue s =
  Drive.drive fuel c (s16 l) (s16 r) (Drive.storeTargets l r s').
Proof.
  intros Hrun l r s'. subst s'. unfold Drive.interlock.
  destruct (Z.eqb_spec l (prevLeftMotorSpeed s)) as [El|El];
    destruct (Z.eqb_spec r (prevRightMotorSpeed s)) as [Er|Er];
    cbn [negb orb Drive.signalChange directionChanged leftResetComplete
         rightResetComplete].
  all: repeat split; try tauto; try congruence; try (intros; discriminate).
  all: try (intros [H|H]; congruence); try (intros _; tauto).
  all: unfold Drive.setLeftRightMotorSpeeds; subst l r;
    destruct (Joystick.targetSpeeds c moveValue rotateValue) as [a b];
    cbn [fst snd] in *; unfold Drive.interlock;
    repeat match goal with
           | |- context [?x =? ?y] =>
               destruct (Z.eqb_spec x y); try contradiction; try congruence
           end; reflexivity.
Qed.

Lemma C3_interlock_iff_speed_differs_witness :
  directionChanged coldStart = false /\
  (directionChanged
     (Drive.interlock
        (fst (Joystick.targetSpeeds (Setup.defaultConfig sourceTrims) 256 0))
        (snd (Joystick.targetSpeeds (Setup.defaultConfig sourceTrims) 256 0))
        coldStart) = true <->
   (fst (Joystick.targetSpeeds (Setup.defaultConfig sourceTrims) 256 0)
      <> prevLeftMotorSpeed coldStart \/
    snd (Joystick.targetSpeeds (Setup.defaultConfig sourceTrims) 256 0)
      <> prevRightMotorSpeed coldStart)).
Proof.
  split; [reflexivity|].
  apply (C3_interlock_iff_speed_differs
           O (Setup.defaultConfig sourceTrims) coldStart 256 0).
  reflexivity.
Defined.

(** C7.  With a non-zero [moveValue] the left and right motor speeds, and
    with them the whole effect of [setLeftRightMotorSpeeds], are the same
    for any two values of [rotateValue]; with a zero [moveValue] the speeds
    are the ones of the two turning branches, computed from [rotateValue]
    alone. *)
Theorem C7_one_axis_contributes
  (fuel : nat) (c : Config) (s : DriveState) (moveValue r1 r2 : Z) :
  moveValue <> 0 ->
  Joystick.targetSpeeds c moveValue r1 = Joystick.targetSpeeds c moveValue r2 /\
  Drive.setLeftRightMotorSpeeds fuel c moveValue r1 s =
  Drive.setLeftRightMotorSpeeds fuel c moveValue r2 s /\
  Joystick.targetSpeeds c 0 r1 =
  (if r1 <? 0 then
     (u16 (r1 + REV_LEFT_TRIM c), u16 (- r1 - FWD_RIGHT_TRIM c))
   else if r1 >? 0 then
     (u16 (r1 - FWD_LEFT_TRIM c), u16 (- r1 + REV_RIGHT_TRIM c))
   else (0, 0)).
Proof.
  intro Hm.
  assert (E : Joystick.targetSpeeds c moveValue r1 =
              Joystick.targetSpeeds c moveValue r2).
  { unfold Joystick.targetSpeeds.
    destruct (Z.gtb_spec moveValue 0); [reflexivity|].
    destruct (Z.ltb_spec moveValue 0); [reflexivity|]. lia. }
  split; [exact E|]. split.
  - unfold Drive.setLeftRightMotorSpeeds. rewrite E. reflexivity.
  - reflexivity.
Qed.

Lemma C7_one_axis_contributes_witness :
  256 <> 0 /\
  Joystick.targetSpeeds (Setup.defaultConfig sourceTrims) 256 170 =
  Joystick.targetSpeeds (Setup.defaultConfig sourceTrims) 256 (-171).
Proof.
  split; [discriminate|].
  apply (C7_one_axis_contributes
           O (Setup.defaultConfig sourceTrims) coldStart 256 170 (-171)).
  discriminate.
Defined.

(** ** The rate limiter, one motor at a time *)

Ltac unfold_consts :=
  unfold speedInRange, nearNeutral, NEUTRAL_SPEED, FORWARD_PULSE,
    REVERSE_PULSE, MIN_INCREASE_RAMPING, MAX_INCREASE_RAMPING,
    MIN_DECREASE_RAMPING, MAX_DECREASE_RAMPING, MIN_SPEED_LIMIT,
    MAX_SPEED_LIMIT in *.

Ltac wrap16 := unfold u16, s16 in *; Z.div_mod_to_equations; lia.

Lemma full_scale : u16 (FORWARD_PULSE - REVERSE_PULSE) = 1000.
Proof. reflexivity. Qed.

Lemma mapDriveSpeed_value v :
  -512 <= v <= 512 ->
  Drive.mapDriveSpeed v = (v + 512) * 1000 / 1024.
Proof.
  intro H. unfold Drive.mapDriveSpeed, map. rewrite full_scale.
  change (512 - -512) with 1024.
  replace ((v - -512) * (1000 - 0)) with ((v + 512) * 1000) by lia.
  rewrite Z.quot_div_nonneg by lia.
  rewrite Z.add_0_r. apply u16_small.
  Z.div_mod_to_equations; lia.
Qed.

Lemma mapDriveSpeed_range v :
  -512 <= v <= 512 -> speedInRange (Drive.mapDriveSpeed v).
Proof.
  intro H. rewrite mapDriveSpeed_value by exact H. unfold_consts.
  Z.div_mod_to_equations; lia.
Qed.

(** The left block moves the speed to the target, or by [accRate] towards
    it; a speed below [accRate] with no faster target falls to 0. *)
Lemma leftDrive_cases c v p :
  0 <= accRate c <= 500 -> speedInRange p -> speedInRange (Drive.mapDriveSpeed v) ->
  let t := Drive.mapDriveSpeed v in
  let n := Drive.leftDrive c v p in
  (p + accRate c < t /\ n = p + accRate c) \/
  (t < p - accRate c /\ n = p - accRate c) \/
  (p - accRate c < 0 /\ t <= p + accRate c /\ n = 0) \/
  (p - accRate c <= t <= p + accRate c /\ n = t).
Proof.
  intros Ha Hp Ht t n. subst n. unfold Drive.leftDrive. fold t.
  rewrite full_scale. rewrite !u16_s16. unfold_consts. fold t in Ht.
  assert (E1 : u16 (p + accRate c) = p + accRate c) by (apply u16_small; lia).
  rewrite E1.
  destruct (Z.gtb_spec t (p + accRate c)) as [G|G].
  - destruct (Z.ltb_spec (p + accRate c) 1000); lia.
  - destruct (Z_lt_le_dec (p - accRate c) 0) as [N|N].
    + rewrite (u16_neg (p - accRate c)) by lia.
      rewrite (s16_small (p - accRate c)) by lia.
      destruct (Z.ltb_spec t (p - accRate c + 65536)); [|lia].
      destruct (Z.gtb_spec (p - accRate c) 0); lia.
    + rewrite (u16_small (p - accRate c)) by lia.
      rewrite (s16_small (p - accRate c)) by lia.
      destruct (Z.ltb_spec t (p - accRate c)).
      * destruct (Z.gtb_spec (p - accRate c) 0); lia.
      * lia.
Qed.

(** The right block differs in one case: a full-scale target further than
    [accRate] away is taken at once. *)
Lemma rightDrive_cases c v p :
  0 <= accRate c <= 500 -> speedInRange p -> speedInRange (Drive.mapDriveSpeed v) ->
  let t := Drive.mapDriveSpeed v in
  let n := Drive.rightDrive c v p in
  (p + accRate c < t /\ t < 1000 /\ n = p + accRate c) \/
  (p + accRate c < t /\ t = 1000 /\ n = 1000) \/
  (t < p - accRate c /\ n = p - accRate c) \/
  (p - accRate c < 0 /\ t <= p + accRate c /\ n = 0) \/
  (p - accRate c <= t <= p + accRate c /\ n = t).
Proof.
  intros Ha Hp Ht t n. subst n. unfold Drive.rightDrive. fold t.
  rewrite full_scale. rewrite !u16_s16. unfold_consts. fold t in Ht.
  assert (E1 : u16 (p + accRate c) = p + accRate c) by (apply u16_small; lia).
  rewrite E1.
  destruct (Z.gtb_spec t (p + accRate c)) as [G|G].
  - destruct (Z.ltb_spec t 1000); lia.
  - destruct (Z_lt_le_dec (p - accRate c) 0) as [N|N].
    + rewrite (u16_neg (p - accRate c)) by lia.
      rewrite (s16_small (p - accRate c)) by lia.
      destruct (Z.ltb_spec t (p - accRate c + 65536)); [|lia].
      destruct (Z.gtb_spec (p - accRate c) 0); lia.
    + rewrite (u16_small (p - accRate c)) by lia.
      rewrite (s16_small (p - accRate c)) by lia.
      destruct (Z.ltb_spec t (p - accRate c)).
      * destruct (Z.gtb_spec (p - accRate c) 0); lia.
      * lia.
Qed.

Lemma leftDrive_range c v p :
  0 <= accRate c <= 500 -> speedInRange p -> -512 <= v <= 512 ->
  speedInRange (Drive.leftDrive c v p).
Proof.
  intros Ha Hp Hv. pose proof (mapDriveSpeed_range v Hv) as Ht.
  pose proof (leftDrive_cases c v p Ha Hp Ht) as H. cbv zeta in H.
  unfold_consts. lia.
Qed.

Lemma rightDrive_range c v p :
  0 <= accRate c <= 500 -> speedInRange p -> -512 <= v <= 512 ->
  speedInRange (Drive.rightDrive c v p).
Proof.
  intros Ha Hp Hv. pose proof (mapDriveSpeed_range v Hv) as Ht.
  pose proof (rightDrive_cases c v p Ha Hp Ht) as H. cbv zeta in H.
  unfold_consts. lia.
Qed.

Lemma leftDrive_step c v p :
  0 <= accRate c <= 500 -> speedInRange p -> -512 <= v <= 512 ->
  Z.abs (Drive.leftDrive c v p - p) <= accRate c.
Proof.
  intros Ha Hp Hv. pose proof (mapDriveSpeed_range v Hv) as Ht.
  pose proof (leftDrive_cases c v p Ha Hp Ht) as H. cbv zeta in H.
  unfold_consts. lia.
Qed.

Lemma rightDrive_step c v p :
  0 <= accRate c <= 500 -> speedInRange p -> -512 <= v <= 512 ->
  Drive.mapDriveSpeed v < 1000 ->
  Z.abs (Drive.rightDrive c v p - p) <= accRate c.
Proof.
  intros Ha Hp Hv Hf. pose proof (mapDriveSpeed_range v Hv) as Ht.
  pose proof (rightDrive_cases c v p Ha Hp Ht) as H. cbv zeta in H.
  unfold_consts. lia.
Qed.

(** One motor's block of the resync loop. *)
Lemma resetMotor_cases d p (b : bool) :
  0 <= d <= 500 -> speedInRange p ->
  let r := Drive.resetMotor d p p b in
  (NEUTRAL_SPEED + d < p /\ r = (p - d, b)) \/
  (p < NEUTRAL_SPEED - d /\ r = (p + d, b)) \/
  (nearNeutral d p /\ r = (p, true)).
Proof.
  intros Hd Hp r. subst r. unfold Drive.resetMotor. unfold_consts.
  rewrite !u16_s16.
  rewrite (u16_small (500 + d)) by lia.
  rewrite (u16_small (500 - d)) by lia.
  destruct (Z.gtb_spec p (500 + d)).
  - left. rewrite u16_small by lia. split; [lia|reflexivity].
  - destruct (Z.ltb_spec p (500 - d)).
    + right; left. rewrite u16_small by lia. split; [lia|reflexivity].
    + right; right. split; [lia|reflexivity].
Qed.

(** ** The resync loop *)

Lemma resetIteration_spec c s :
  0 <= decRate c <= 500 -> speedsInRange s ->
  exists l' lc r' rc,
    resetMoves (decRate c) (prevLeft s) (leftResetComplete s) l' lc /\
    resetMoves (decRate c) (prevRight s) (rightResetComplete s) r' rc /\
    Drive.resetIteration c (prevLeft s, prevRight s) s =
    ((l', r'),
     mkState (prevLeftMotorSpeed s) (prevRightMotorSpeed s)
             (if lc && rc then false else directionChanged s) lc rc l' r',
     mkPulse (REVERSE_PULSE + l') (REVERSE_PULSE + r')).
Proof.
  intros Hd [Hl Hr].
  pose proof (resetMotor_cases (decRate c) (prevLeft s) (leftResetComplete s) Hd Hl) as CL.
  pose proof (resetMotor_cases (decRate c) (prevRight s) (rightResetComplete s) Hd Hr) as CR.
  cbv zeta in CL, CR.
  unfold Drive.resetIteration.
  destruct (Drive.resetMotor (decRate c) (prevLeft s) (prevLeft s)
              (leftResetComplete s)) as [l' lc] eqn:EL.
  cbn [Drive.setLeft prevRight rightResetComplete].
  destruct (Drive.resetMotor (decRate c) (prevRight s) (prevRight s)
              (rightResetComplete s)) as [r' rc] eqn:ER.
  exists l', lc, r', rc.
  assert (ML : resetMoves (decRate c) (prevLeft s) (leftResetComplete s) l' lc).
  { unfold resetMoves.
    destruct CL as [[? E]|[[? E]|[? E]]]; inversion E; subst; tauto. }
  assert (MR : resetMoves (decRate c) (prevRight s) (rightResetComplete s) r' rc).
  { unfold resetMoves.
    destruct CR as [[? E]|[[? E]|[? E]]]; inversion E; subst; tauto. }
  split; [exact ML|]. split; [exact MR|].
  assert (Bl : 0 <= l' <= 1000) by (unfold resetMoves in ML; unfold_consts; lia).
  assert (Br : 0 <= r' <= 1000) by (unfold resetMoves in MR; unfold_consts; lia).
  cbn [Drive.setRight Drive.setLeft Drive.clearChange leftResetComplete
       rightResetComplete prevLeftMotorSpeed prevRightMotorSpeed
       directionChanged prevLeft prevRight].
  rewrite (s16_small l') by lia. rewrite (s16_small r') by lia.
  rewrite (u16_small (REVERSE_PULSE + l')) by (unfold_consts; lia).
  rewrite (u16_small (REVERSE_PULSE + r')) by (unfold_consts; lia).
  destruct (lc && rc); reflexivity.
Qed.

Lemma resetLoop_done fuel c locals s :
  directionChanged s = false -> Drive.resetLoop fuel c locals s = Some (s, []).
Proof. intro H. destruct fuel; cbn; rewrite H; reflexivity. Qed.

Lemma resetMoves_range d p b p' b' :
  0 <= d <= 500 -> speedInRange p -> resetMoves d p b p' b' -> speedInRange p'.
Proof. unfold resetMoves. unfold_consts. lia. Qed.

Lemma resetMoves_no_flip d p b p' b' :
  0 <= d -> resetMoves d p b p' b' ->
  ~ oppositeSides (REVERSE_PULSE + p) (REVERSE_PULSE + p').
Proof. unfold resetMoves, oppositeSides, NEUTRAL_PULSE. unfold_consts. lia. Qed.

Lemma resetMoves_distance d p b p' b' :
  1 <= d -> resetMoves d p b p' b' ->
  (b' = false -> Z.abs (p' - NEUTRAL_SPEED) < Z.abs (p - NEUTRAL_SPEED)) /\
  (nearNeutral d p -> nearNeutral d p') /\
  Z.abs (p' - NEUTRAL_SPEED) <= Z.abs (p - NEUTRAL_SPEED).
Proof.
  unfold resetMoves. unfold_consts. intros Hd H.
  repeat split; intros; destruct H as [H|[H|H]];
    try (destruct H as (_ & _ & H); congruence); lia.
Qed.

Lemma resetMoves_honest d p b p' b' :
  1 <= d -> resetMoves d p b p' b' ->
  (b = true -> nearNeutral d p) -> b' = true -> nearNeutral d p'.
Proof.
  unfold resetMoves. unfold_consts. intros Hd H Hb Hb'.
  destruct H as [(? & ? & E)|[(? & ? & E)|(? & ? & E)]];
    subst; try (specialize (Hb eq_refl)); lia.
Qed.

Lemma resetMoves_measure d pl bl l' lc pr br r' rc :
  1 <= d ->
  resetMoves d pl bl l' lc -> resetMoves d pr br r' rc ->
  lc && rc = false ->
  Z.max (Z.abs (l' - NEUTRAL_SPEED)) (Z.abs (r' - NEUTRAL_SPEED)) <
  Z.max (Z.abs (pl - NEUTRAL_SPEED)) (Z.abs (pr - NEUTRAL_SPEED)).
Proof.
  unfold resetMoves. unfold_consts. intros Hd HL HR Hb.
  destruct HL as [(? & ? & EL)|[(? & ? & EL)|(? & ? & EL)]];
    destruct HR as [(? & ? & ER)|[(? & ? & ER)|(? & ? & ER)]];
    subst; try discriminate; try lia.
Qed.

Lemma last_cons_default {A} (a d : A) (l : list A) : last (a :: l) d = last l a.
Proof.
  revert a d. induction l as [|b l IH]; intros a d; [reflexivity|].
  change (last (a :: b :: l) d) with (last (b :: l) d).
  rewrite (IH b d). symmetry. apply IH.
Qed.

Lemma resetLoop_spec c :
  1 <= decRate c <= 500 ->
  forall (fuel : nat) (s : DriveState),
    speedsInRange s -> (resetMeasure s < fuel)%nat ->
    exists s' outs,
      Drive.resetLoop fuel c (prevLeft s, prevRight s) s = Some (s', outs) /\
      directionChanged s' = false /\
      speedsInRange s' /\
      prevLeftMotorSpeed s' = prevLeftMotorSpeed s /\
      prevRightMotorSpeed s' = prevRightMotorSpeed s /\
      Forall pulseInRange outs /\
      chain (decRate c) (REVERSE_PULSE + prevLeft s) (leftPulses outs) /\
      chain (decRate c) (REVERSE_PULSE + prevRight s) (rightPulses outs) /\
      last (leftPulses outs) (REVERSE_PULSE + prevLeft s) =
        REVERSE_PULSE + prevLeft s' /\
      last (rightPulses outs) (REVERSE_PULSE + prevRight s) =
        REVERSE_PULSE + prevRight s' /\
      (directionChanged s = true ->
       leftResetComplete s' = true /\ rightResetComplete s' = true /\
       outs <> []) /\
      (flagsHonest (decRate c) s -> flagsHonest (decRate c) s') /\
      (length outs <= S (resetMeasure s))%nat.
Proof.
  intros Hd. induction fuel as [|fuel IH]; intros s Hs Hm; [lia|].
  destruct (directionChanged s) eqn:Hdc.
  2:{ exists s, []. rewrite resetLoop_done by exact Hdc.
      split; [reflexivity|]. split; [exact Hdc|]. split; [exact Hs|].
      split; [reflexivity|]. split; [reflexivity|].
      split; [constructor|]. split; [exact I|]. split; [exact I|].
      split; [reflexivity|]. split; [reflexivity|].
      split; [discriminate|]. split; [tauto|]. cbn. lia. }
  destruct (resetIteration_spec c s ltac:(lia) Hs)
    as (l' & lc & r' & rc & ML & MR & EI).
  rewrite Hdc in EI. cbn [Drive.resetLoop]. rewrite Hdc, EI.
  set (s1 := mkState (prevLeftMotorSpeed s) (prevRightMotorSpeed s)
                     (if lc && rc then false else true) lc rc l' r').
  destruct Hs as [Hl Hr].
  assert (Hs1 : speedsInRange s1).
  { split; cbn.
    - eapply resetMoves_range; [| exact Hl | exact ML]; lia.
    - eapply resetMoves_range; [| exact Hr | exact MR]; lia. }
  assert (Hh1 : flagsHonest (decRate c) s -> flagsHonest (decRate c) s1).
  { intros [HL HR]. split; cbn; intro E.
    - eapply resetMoves_honest; [| exact ML | exact HL | exact E]; lia.
    - eapply resetMoves_honest; [| exact MR | exact HR | exact E]; lia. }
  assert (Pin : pulseInRange (mkPulse (REVERSE_PULSE + l') (REVERSE_PULSE + r'))).
  { destruct Hs1 as [A B]. unfold s1 in A, B.
    cbn [prevLeft prevRight] in A, B. unfold pulseInRange.
    cbn [leftMotorPulse rightMotorPulse]. unfold_consts. lia. }
  assert (NL : ~ oppositeSides (REVERSE_PULSE + prevLeft s) (REVERSE_PULSE + l'))
    by (eapply resetMoves_no_flip; [| exact ML]; lia).
  assert (NR : ~ oppositeSides (REVERSE_PULSE + prevRight s) (REVERSE_PULSE + r'))
    by (eapply resetMoves_no_flip; [| exact MR]; lia).
  destruct (lc && rc) eqn:Hb.
  - (* both motors have arrived: the loop ends here *)
    rewrite resetLoop_done by reflexivity.
    exists s1, [mkPulse (REVERSE_PULSE + l') (REVERSE_PULSE + r')].
    apply andb_prop in Hb. destruct Hb as [Hlc Hrc].
    split; [reflexivity|]. split; [reflexivity|]. split; [exact Hs1|].
    split; [reflexivity|]. split; [reflexivity|].
    split; [constructor; [exact Pin | constructor]|].
    split; [cbn; tauto|]. split; [cbn; tauto|].
    split; [reflexivity|]. split; [reflexivity|].
    split; [intros _; repeat split; [exact Hlc | exact Hrc | discriminate]|].
    split; [exact Hh1|]. cbn. lia.
  - (* at least one motor still moves: the measure has gone down *)
    assert (Hm1 : (resetMeasure s1 < fuel)%nat).
    { pose proof (resetMoves_measure _ _ _ _ _ _ _ _ _ (proj1 Hd) ML MR Hb) as D.
      unfold resetMeasure in *. unfold s1. cbn [prevLeft prevRight]. lia. }
    destruct (IH s1 Hs1 Hm1)
      as (s' & outs & E & Hdc' & Hs' & PL & PR & Fo & CL & CR & LL & LR & Fl & Hh & Len).
    change (prevLeft s1) with l' in *. change (prevRight s1) with r' in *.
    rewrite E.
    exists s', (mkPulse (REVERSE_PULSE + l') (REVERSE_PULSE + r') :: outs).
    split; [reflexivity|]. split; [exact Hdc'|]. split; [exact Hs'|].
    split; [exact PL|]. split; [exact PR|].
    split; [constructor; assumption|].
    split; [cbn; split; [tauto | exact CL]|].
    split; [cbn; split; [tauto | exact CR]|].
    split.
    { unfold leftPulses. cbn [List.map leftMotorPulse].
      rewrite last_cons_default. exact LL. }
    split.
    { unfold rightPulses. cbn [List.map rightMotorPulse].
      rewrite last_cons_default. exact LR. }
    split.
    { intros _. destruct (Fl eq_refl) as (A & B & _).
      repeat split; try assumption. discriminate. }
    split; [intro H; apply Hh, Hh1, H|].
    pose proof (resetMoves_measure _ _ _ _ _ _ _ _ _ (proj1 Hd) ML MR Hb) as D.
    unfold resetMeasure in Len, Hm |- *. unfold s1 in Len.
    cbn [length prevLeft prevRight] in Len |- *. lia.
Qed.

(** ** The classifier's two values *)

Lemma quantize_cases p n :
  Joystick.quantize p n = 1023 \/ Joystick.quantize p n = 0 \/
  Joystick.quantize p n = 512.
Proof. destruct p, n; cbn; auto. Qed.

Lemma recentre_value v :
  0 <= v <= 1024 -> Joystick.recentre v = v - 512.
Proof.
  intro H. unfold Joystick.recentre.
  destruct (Z.gtb_spec v 512).
  - rewrite u16_small by lia. apply s16_small. lia.
  - rewrite (u16_small (512 - v)) by lia.
    destruct (Z.eq_dec v 512) as [->|N]; [reflexivity|].
    rewrite u16_neg by lia. unfold s16.
    replace (- (512 - v) + 65536 + 32768) with (v - 512 + 32768 + 1 * 65536) by lia.
    rewrite Z.mod_add by lia. rewrite Z.mod_small; lia.
Qed.

(** The move axis snaps to the speed limit, its opposite or 0. *)
Lemma moveValue_cases sl q :
  72 <= sl <= 512 -> q = 1023 \/ q = 0 \/ q = 512 ->
  let y := u16 (map q 0 1023 (u16 (512 - sl)) (u16 (512 + sl))) in
  (q = 1023 /\ Joystick.recentre y = sl) \/
  (q = 0 /\ Joystick.recentre y = - sl) \/
  (q = 512 /\ Joystick.recentre y = 0).
Proof.
  intros Hs Hq y. subst y.
  rewrite (u16_small (512 - sl)) by lia.
  rewrite (u16_small (512 + sl)) by lia.
  unfold map. change (1023 - 0) with 1023.
  replace (512 + sl - (512 - sl)) with (2 * sl) by lia.
  destruct Hq as [-> | [-> | ->]].
  - left. split; [reflexivity|].
    replace ((1023 - 0) * (2 * sl)) with (2 * sl * 1023) by lia.
    rewrite Z.quot_mul by lia.
    rewrite u16_small by lia. rewrite recentre_value by lia. lia.
  - right; left. split; [reflexivity|].
    change ((0 - 0) * (2 * sl)) with 0. change (Z.quot 0 1023) with 0.
    rewrite u16_small by lia. rewrite recentre_value by lia. lia.
  - right; right. split; [reflexivity|].
    rewrite Z.quot_div_nonneg by lia.
    assert (E : (512 - 0) * (2 * sl) / 1023 = sl)
      by (Z.div_mod_to_equations; lia).
    rewrite E. rewrite u16_small by lia. rewrite recentre_value by lia. lia.
Qed.

(** The rotate axis, before the minimum-speed adjustment, snaps to two
    thirds of the speed limit (rounded down on the right, up on the left);
    at rest it is 0 or -1. *)
Lemma rotateValue_cases sl q :
  72 <= sl <= 512 -> q = 1023 \/ q = 0 \/ q = 512 ->
  let x := u16 (map q 0 1023 (Joystick.turnOutMin sl) (Joystick.turnOutMax sl)) in
  (q = 1023 /\ Joystick.recentre x = 2 * sl / 3) \/
  (q = 0 /\ Joystick.recentre x = - ((2 * sl + 2) / 3)) \/
  (q = 512 /\ -1 <= Joystick.recentre x <= 0).
Proof.
  intros Hs Hq x. subst x. unfold Joystick.turnOutMin, Joystick.turnOutMax.
  rewrite !Z.quot_div_nonneg by lia.
  unfold map. change (1023 - 0) with 1023.
  set (lo := (3 * 512 - 2 * sl) / 3). set (hi := (3 * 512 + 2 * sl) / 3).
  assert (Hlo : lo = 512 - (2 * sl + 2) / 3)
    by (subst lo; Z.div_mod_to_equations; lia).
  assert (Hhi : hi = 512 + 2 * sl / 3)
    by (subst hi; Z.div_mod_to_equations; lia).
  assert (B1 : 48 <= 2 * sl / 3 <= 341) by (Z.div_mod_to_equations; lia).
  assert (B2 : 48 <= (2 * sl + 2) / 3 <= 342) by (Z.div_mod_to_equations; lia).
  assert (B3 : 2 * sl / 3 <= (2 * sl + 2) / 3 <= 2 * sl / 3 + 1)
    by (Z.div_mod_to_equations; lia).
  destruct Hq as [-> | [-> | ->]].
  - left. split; [reflexivity|].
    replace ((1023 - 0) * (hi - lo)) with ((hi - lo) * 1023) by lia.
    rewrite Z.quot_mul by lia.
    rewrite u16_small by lia. rewrite recentre_value by lia. lia.
  - right; left. split; [reflexivity|].
    change ((0 - 0) * (hi - lo)) with 0. change (Z.quot 0 1023) with 0.
    rewrite u16_small by lia. rewrite recentre_value by lia. lia.
  - right; right. split; [reflexivity|].
    rewrite Z.quot_div_nonneg by lia.
    assert (E : (512 - 0) * (hi - lo) / 1023 = 2 * sl / 3).
    { rewrite Hlo, Hhi.
      generalize dependent ((2 * sl + 2) / 3). generalize dependent (2 * sl / 3).
      intros a Ba b Bb Bab _. Z.div_mod_to_equations. lia. }
    rewrite E. rewrite u16_small by lia. rewrite recentre_value by lia. lia.
Qed.

Lemma s16_u16 z : s16 (u16 z) = s16 z.
Proof.
  unfold s16, u16. rewrite Zplus_mod_idemp_l. reflexivity.
Qed.

Lemma minRotate_cases rv :
  -32768 <= rv < 32768 ->
  (- MIN_SPEED_LIMIT < rv < -3 /\ Joystick.minRotate rv = - MIN_SPEED_LIMIT) \/
  (3 < rv < MIN_SPEED_LIMIT /\ Joystick.minRotate rv = MIN_SPEED_LIMIT) \/
  ((rv <= - MIN_SPEED_LIMIT \/ -3 <= rv <= 3 \/ MIN_SPEED_LIMIT <= rv) /\
   Joystick.minRotate rv = rv).
Proof.
  intro H. unfold Joystick.minRotate, MIN_SPEED_LIMIT.
  change (Z.opp 72) with (-72).
  change (u16 (-72)) with 65464. change (s16 65464) with (-72).
  change (s16 72) with 72.
  destruct (Z.ltb_spec rv (-3)) as [A|A]; cbn [andb].
  - rewrite u16_neg by lia.
    destruct (Z.gtb_spec (rv + 65536) 65464) as [B|B].
    + left. lia.
    + destruct (Z.gtb_spec rv 3); cbn [andb]; [lia|]. right; right. lia.
  - destruct (Z.gtb_spec rv 3) as [B|B]; cbn [andb].
    + rewrite u16_small by lia.
      destruct (Z.ltb_spec rv 72); [right; left; lia | right; right; lia].
    + right; right. lia.
Qed.

(** Both values handed to [setLeftRightMotorSpeeds] stay within the speed
    limit; the move value is the limit, its opposite or 0. *)
Lemma getJoystickInputs_bound c j :
  speedLimitInRange c ->
  let mv := fst (Joystick.getJoystickInputs c j) in
  let rv := snd (Joystick.getJoystickInputs c j) in
  (mv = speedLimit c \/ mv = - speedLimit c \/ mv = 0) /\
  Z.abs rv <= speedLimit c.
Proof.
  unfold speedLimitInRange, MIN_SPEED_LIMIT, MAX_SPEED_LIMIT.
  intros Hs. cbv zeta. unfold Joystick.getJoystickInputs.
  cbn [fst snd].
  set (qy := Joystick.quantize (u16 (readYp j) >? forwardThresh c) _).
  set (qx := Joystick.quantize (u16 (readXp j) >? rightThresh c) _).
  pose proof (moveValue_cases (speedLimit c) qy Hs
                (quantize_cases _ _)) as HM.
  pose proof (rotateValue_cases (speedLimit c) qx Hs
                (quantize_cases _ _)) as HR.
  cbv zeta in HM, HR.
  split; [lia|].
  clear HM.
  set (r := Joystick.recentre
              (u16 (map qx 0 1023 (Joystick.turnOutMin _) _))) in *.
  clearbody r.
  assert (B : -342 <= r <= 341 /\ Z.abs r <= speedLimit c).
  { destruct HR as [[_ E]|[[_ E]|[_ E]]];
      try rewrite E; Z.div_mod_to_equations; lia. }
  pose proof (minRotate_cases r ltac:(lia)) as HC.
  unfold MIN_SPEED_LIMIT in HC. lia.
Qed.

(** With move and rotate values and the trims all bounded by [B], the
    speeds handed to [drive] are bounded by [B] too. *)
Lemma targetSpeeds_bound c mv rv B :
  0 <= B <= 16000 ->
  Z.abs mv <= B -> Z.abs rv <= B ->
  0 <= FWD_LEFT_TRIM c <= B -> 0 <= REV_LEFT_TRIM c <= B ->
  0 <= FWD_RIGHT_TRIM c <= B -> 0 <= REV_RIGHT_TRIM c <= B ->
  Z.abs (s16 (fst (Joystick.targetSpeeds c mv rv))) <= B /\
  Z.abs (s16 (snd (Joystick.targetSpeeds c mv rv))) <= B.
Proof.
  intros HB Hm Hr H1 H2 H3 H4. unfold Joystick.targetSpeeds.
  destruct (Z.gtb_spec mv 0); [|destruct (Z.ltb_spec mv 0);
    [|destruct (Z.ltb_spec rv 0); [|destruct (Z.gtb_spec rv 0)]]];
    cbn [fst snd]; rewrite ?s16_u16;
    rewrite ?s16_small by lia; lia.
Qed.

(** ** One pass of [drive] *)

Lemma driveMotors_spec c nl nr s :
  0 <= accRate c <= 500 -> speedsInRange s ->
  -512 <= nl <= 512 -> -512 <= nr <= 512 ->
  Drive.driveMotors c nl nr s =
  (mkState (prevLeftMotorSpeed s) (prevRightMotorSpeed s) (directionChanged s)
           (leftResetComplete s) (rightResetComplete s)
           (Drive.leftDrive c nl (prevLeft s))
           (Drive.rightDrive c nr (prevRight s)),
   mkPulse (REVERSE_PULSE + Drive.leftDrive c nl (prevLeft s))
           (REVERSE_PULSE + Drive.rightDrive c nr (prevRight s))).
Proof.
  intros Ha [Hl Hr] Hnl Hnr.
  pose proof (leftDrive_range c nl (prevLeft s) Ha Hl Hnl) as RL.
  pose proof (rightDrive_range c nr (prevRight s) Ha Hr Hnr) as RR.
  unfold Drive.driveMotors.
  cbn [Drive.setLeft Drive.setRight prevLeftMotorSpeed prevRightMotorSpeed
       directionChanged leftResetComplete rightResetComplete prevLeft prevRight].
  unfold speedInRange, FORWARD_PULSE, REVERSE_PULSE in *.
  rewrite (s16_small (Drive.leftDrive c nl (prevLeft s))) by lia.
  rewrite (s16_small (Drive.rightDrive c nr (prevRight s))) by lia.
  rewrite (u16_small (1000 + Drive.leftDrive c nl (prevLeft s))) by lia.
  rewrite (u16_small (1000 + Drive.rightDrive c nr (prevRight s))) by lia.
  reflexivity.
Qed.

(** A ramp step keeps a motor near neutral or on its target's side, and it
    crosses neutral only from within [d] of it. *)
Lemma leftDrive_heading c d v p :
  0 <= accRate c -> 0 <= d -> accRate c + d <= 500 ->
  speedInRange p -> -512 <= v <= 512 ->
  headingFor d p (Drive.mapDriveSpeed v) ->
  headingFor d (Drive.leftDrive c v p) (Drive.mapDriveSpeed v) /\
  (oppositeSides (REVERSE_PULSE + p) (REVERSE_PULSE + Drive.leftDrive c v p) ->
   withinStep d (REVERSE_PULSE + p)).
Proof.
  intros Ha Hd Hs Hp Hv Hh.
  pose proof (mapDriveSpeed_range v Hv) as Ht.
  pose proof (leftDrive_cases c v p ltac:(lia) Hp Ht) as H. cbv zeta in H.
  unfold headingFor, oppositeSides, withinStep, NEUTRAL_PULSE in *.
  unfold_consts. lia.
Qed.

Lemma rightDrive_heading c d v p :
  0 <= accRate c -> 0 <= d -> accRate c + d <= 500 ->
  speedInRange p -> -512 <= v <= 512 ->
  headingFor d p (Drive.mapDriveSpeed v) ->
  headingFor d (Drive.rightDrive c v p) (Drive.mapDriveSpeed v) /\
  (oppositeSides (REVERSE_PULSE + p) (REVERSE_PULSE + Drive.rightDrive c v p) ->
   withinStep d (REVERSE_PULSE + p)).
Proof.
  intros Ha Hd Hs Hp Hv Hh.
  pose proof (mapDriveSpeed_range v Hv) as Ht.
  pose proof (rightDrive_cases c v p ltac:(lia) Hp Ht) as H. cbv zeta in H.
  unfold headingFor, oppositeSides, withinStep, NEUTRAL_PULSE in *.
  unfold_consts. lia.
Qed.

(** ** Chains of outputs *)

Lemma chain_app d p l1 l2 :
  chain d p l1 -> chain d (last l1 p) l2 -> chain d p (l1 ++ l2).
Proof.
  revert p. induction l1 as [|o l1 IH]; intros p H1 H2; [exact H2|].
  cbn [app chain] in *. destruct H1 as [A B]. split; [exact A|].
  apply IH; [exact B|]. rewrite last_cons_default in H2. exact H2.
Qed.

Lemma last_app_single {A} (l : list A) (x d : A) : last (l ++ [x]) d = x.
Proof.
  revert d. induction l as [|a l IH]; intro d; [reflexivity|].
  change ((a :: l) ++ [x]) with (a :: (l ++ [x])).
  rewrite last_cons_default. apply IH.
Qed.

Lemma last_app_default {A} (l1 l2 : list A) (d : A) :
  last (l1 ++ l2) d = last l2 (last l1 d).
Proof.
  revert d. induction l1 as [|a l1 IH]; intro d; [reflexivity|].
  change ((a :: l1) ++ l2) with (a :: (l1 ++ l2)).
  rewrite !last_cons_default. apply IH.
Qed.

Lemma chain_from_head d o l j b :
  0 <= d -> chain d o l ->
  nth_error (o :: l) (S j) = Some b -> oppositeSides o b ->
  exists (k : nat) (m : Z),
    (k < S j)%nat /\ nth_error (o :: l) k = Some m /\ withinStep d m.
Proof.
  intros Hd. revert o j. induction l as [|o1 l1 IH]; intros o j Hc Hn Ho.
  - destruct j; discriminate.
  - destruct Hc as [Hflip Hc].
    destruct (Z_le_dec (Z.abs (o - NEUTRAL_PULSE)) d) as [W|W].
    + exists O, o. repeat split; [lia | exact W].
    + destruct j as [|j].
      * cbn in Hn. inversion Hn; subst. exfalso. apply W, Hflip, Ho.
      * assert (Ho1 : oppositeSides o1 b \/ withinStep d o1).
        { destruct (Z_le_dec (Z.abs (o1 - NEUTRAL_PULSE)) d) as [W1|W1];
            [right; exact W1|]. left.
          assert (N : ~ oppositeSides o o1) by (intro F; apply W, Hflip, F).
          unfold oppositeSides, withinStep in *. lia. }
        destruct Ho1 as [Ho1|W1].
        -- destruct (IH o1 j Hc Hn Ho1) as (k & m & Hk & Hm & Hw).
           exists (S k), m. repeat split; [lia | exact Hm | exact Hw].
        -- exists 1%nat, o1. repeat split; [lia | exact W1].
Qed.

Lemma chain_passes d o l :
  0 <= d -> chain d o l -> passesNeutralBand d (o :: l).
Proof.
  intros Hd Hc i. revert o l Hc.
  induction i as [|i IH]; intros o l Hc j a b Hij Ha Hb Ho.
  - destruct j as [|j]; [lia|]. cbn in Ha. inversion Ha; subst a.
    destruct (chain_from_head d o l j b Hd Hc Hb Ho) as (k & m & Hk & Hm & Hw).
    exists k, m. repeat split; [lia | lia | exact Hm | exact Hw].
  - destruct j as [|j]; [lia|].
    destruct l as [|o1 l1]; [destruct i; discriminate|].
    destruct Hc as [_ Hc].
    destruct (IH o1 l1 Hc j a b ltac:(lia) Ha Hb Ho) as (k & m & Hk & Hm & Hw).
    exists (S k), m. repeat split; [lia | lia | exact Hm | exact Hw].
Qed.

Lemma resetMeasure_bound s : speedsInRange s -> (resetMeasure s <= 500)%nat.
Proof.
  intros [Hl Hr]. unfold resetMeasure. unfold_consts. lia.
Qed.

(** [drive] from a state with speeds in range: it returns, every pulse is
    in range, the speeds stay in range; and if the state is one the control
    loop produces, the outputs cross neutral only from within [decRate]. *)
Lemma drive_spec c nl nr s fuel :
  0 <= accRate c <= 500 -> 1 <= decRate c <= 500 ->
  speedsInRange s -> -512 <= nl <= 512 -> -512 <= nr <= 512 ->
  (500 < fuel)%nat ->
  exists s' outs,
    Drive.drive fuel c nl nr s = Some (s', outs) /\
    directionChanged s' = false /\
    speedsInRange s' /\
    prevLeftMotorSpeed s' = prevLeftMotorSpeed s /\
    prevRightMotorSpeed s' = prevRightMotorSpeed s /\
    Forall pulseInRange outs /\
    last (leftPulses outs) (REVERSE_PULSE + prevLeft s) =
      REVERSE_PULSE + prevLeft s' /\
    last (rightPulses outs) (REVERSE_PULSE + prevRight s) =
      REVERSE_PULSE + prevRight s' /\
    (accRate c + decRate c <= 500 ->
     (if directionChanged s
      then leftResetComplete s = false /\ rightResetComplete s = false
      else headingFor (decRate c) (prevLeft s) (Drive.mapDriveSpeed nl) /\
           headingFor (decRate c) (prevRight s) (Drive.mapDriveSpeed nr)) ->
     chain (decRate c) (REVERSE_PULSE + prevLeft s) (leftPulses outs) /\
     chain (decRate c) (REVERSE_PULSE + prevRight s) (rightPulses outs) /\
     headingFor (decRate c) (prevLeft s') (Drive.mapDriveSpeed nl) /\
     headingFor (decRate c) (prevRight s') (Drive.mapDriveSpeed nr)).
Proof.
  intros Ha Hd Hs Hnl Hnr Hf.
  assert (Step : forall s2 : DriveState,
    speedsInRange s2 ->
    let s3 := fst (Drive.driveMotors c nl nr s2) in
    let p := snd (Drive.driveMotors c nl nr s2) in
    directionChanged s3 = directionChanged s2 /\
    speedsInRange s3 /\
    prevLeftMotorSpeed s3 = prevLeftMotorSpeed s2 /\
    prevRightMotorSpeed s3 = prevRightMotorSpeed s2 /\
    pulseInRange p /\
    leftMotorPulse p = REVERSE_PULSE + prevLeft s3 /\
    rightMotorPulse p = REVERSE_PULSE + prevRight s3 /\
    (accRate c + decRate c <= 500 ->
     headingFor (decRate c) (prevLeft s2) (Drive.mapDriveSpeed nl) ->
     headingFor (decRate c) (prevRight s2) (Drive.mapDriveSpeed nr) ->
     chain (decRate c) (REVERSE_PULSE + prevLeft s2) [leftMotorPulse p] /\
     chain (decRate c) (REVERSE_PULSE + prevRight s2) [rightMotorPulse p] /\
     headingFor (decRate c) (prevLeft s3) (Drive.mapDriveSpeed nl) /\
     headingFor (decRate c) (prevRight s3) (Drive.mapDriveSpeed nr))).
  { intros s2 Hs2. rewrite (driveMotors_spec c nl nr s2 Ha Hs2 Hnl Hnr).
    cbn [fst snd]. cbv zeta.
    cbn [directionChanged prevLeftMotorSpeed prevRightMotorSpeed prevLeft
         prevRight leftMotorPulse rightMotorPulse].
    destruct Hs2 as [H2l H2r].
    pose proof (leftDrive_range c nl (prevLeft s2) Ha H2l Hnl) as RL.
    pose proof (rightDrive_range c nr (prevRight s2) Ha H2r Hnr) as RR.
    split; [reflexivity|]. split; [split; assumption|].
    split; [reflexivity|]. split; [reflexivity|].
    split; [unfold pulseInRange; cbn [leftMotorPulse rightMotorPulse];
            unfold_consts; lia|].
    split; [reflexivity|]. split; [reflexivity|].
    intros Hsum HL HR.
    destruct (leftDrive_heading c (decRate c) nl (prevLeft s2)
                ltac:(lia) ltac:(lia) Hsum H2l Hnl HL) as [A1 A2].
    destruct (rightDrive_heading c (decRate c) nr (prevRight s2)
                ltac:(lia) ltac:(lia) Hsum H2r Hnr HR) as [B1 B2].
    cbn [chain]. tauto. }
  unfold Drive.drive. destruct (directionChanged s) eqn:Hdc.
  - unfold Drive.resetMotorSpeeds.
    destruct Hs as [Hl Hr].
    rewrite (u16_small (prevLeft s)) by (unfold_consts; lia).
    rewrite (u16_small (prevRight s)) by (unfold_consts; lia).
    pose proof (resetMeasure_bound s (conj Hl Hr)) as Hm.
    destruct (resetLoop_spec c Hd fuel s (conj Hl Hr) ltac:(lia))
      as (s2 & outs & E & Hdc2 & Hs2 & PL & PR & Fo & CL & CR & LL & LR & Fl & Hh & _).
    rewrite E.
    pose proof (Step s2 Hs2) as St. cbv zeta in St.
    destruct (Drive.driveMotors c nl nr s2) as [s3 p].
    cbn [fst snd] in St.
    destruct St as (S1 & S2 & S3 & S4 & S5 & S6 & S7 & S8).
    exists s3, (outs ++ [p]).
    split; [reflexivity|]. split; [congruence|]. split; [exact S2|].
    split; [congruence|]. split; [congruence|].
    split; [apply Forall_app; split; [exact Fo | constructor; [exact S5 | constructor]]|].
    split; [unfold leftPulses; rewrite map_app; cbn [List.map];
            rewrite last_app_single; exact S6|].
    split; [unfold rightPulses; rewrite map_app; cbn [List.map];
            rewrite last_app_single; exact S7|].
    intros Hsum [F1 F2].
    destruct (Fl Hdc) as (C1 & C2 & _).
    assert (Hon : flagsHonest (decRate c) s2).
    { apply Hh. split; intro X; congruence. }
    destruct Hon as [N1 N2].
    specialize (N1 C1). specialize (N2 C2).
    destruct (S8 Hsum (or_introl N1) (or_introl N2)) as (K1 & K2 & K3 & K4).
    split.
    { unfold leftPulses. rewrite map_app. apply chain_app; [exact CL|].
      fold (leftPulses outs). rewrite LL. exact K1. }
    split.
    { unfold rightPulses. rewrite map_app. apply chain_app; [exact CR|].
      fold (rightPulses outs). rewrite LR. exact K2. }
    split; assumption.
  - pose proof (Step s Hs) as St. cbv zeta in St.
    destruct (Drive.driveMotors c nl nr s) as [s3 p].
    cbn [fst snd] in St.
    destruct St as (S1 & S2 & S3 & S4 & S5 & S6 & S7 & S8).
    exists s3, [p]. cbn [app].
    split; [reflexivity|]. split; [congruence|]. split; [exact S2|].
    split; [exact S3|]. split; [exact S4|].
    split; [constructor; [exact S5 | constructor]|].
    split; [exact S6|]. split; [exact S7|].
    intros Hsum [HL HR].
    destruct (S8 Hsum HL HR) as (K1 & K2 & K3 & K4). tauto.
Qed.

(** ** Passes of the control loop *)

Lemma cycle_targets_in_domain c j :
  validConfig c ->
  let mv := fst (Joystick.getJoystickInputs c j) in
  let rv := snd (Joystick.getJoystickInputs c j) in
  -512 <= s16 (fst (Joystick.targetSpeeds c mv rv)) <= 512 /\
  -512 <= s16 (snd (Joystick.targetSpeeds c mv rv)) <= 512.
Proof.
  intros (Hs & _ & T1 & T2 & T3 & T4). cbv zeta.
  pose proof (getJoystickInputs_bound c j Hs) as [Hm Hr]. cbv zeta in Hm, Hr.
  unfold speedLimitInRange, MIN_SPEED_LIMIT, MAX_SPEED_LIMIT in Hs.
  pose proof (targetSpeeds_bound c (fst (Joystick.getJoystickInputs c j))
                (snd (Joystick.getJoystickInputs c j)) 512) as H.
  lia.
Qed.

Lemma cycle_spec c j s fuel :
  validConfig c -> betweenCycles c s -> (500 < fuel)%nat ->
  exists s' outs,
    Drive.cycle fuel c j s = Some (s', outs) /\
    betweenCycles c s' /\
    Forall pulseInRange outs /\
    chain (decRate c) (REVERSE_PULSE + prevLeft s) (leftPulses outs) /\
    chain (decRate c) (REVERSE_PULSE + prevRight s) (rightPulses outs) /\
    last (leftPulses outs) (REVERSE_PULSE + prevLeft s) =
      REVERSE_PULSE + prevLeft s' /\
    last (rightPulses outs) (REVERSE_PULSE + prevRight s) =
      REVERSE_PULSE + prevRight s'.
Proof.
  intros Hc (Hdc & Hs & HL & HR) Hf.
  pose proof (cycle_targets_in_domain c j Hc) as [Dl Dr]. cbv zeta in Dl, Dr.
  destruct Hc as (_ & (Ra & Rd) & _).
  unfold MIN_INCREASE_RAMPING, MAX_INCREASE_RAMPING, MIN_DECREASE_RAMPING,
    MAX_DECREASE_RAMPING in Ra, Rd.
  unfold Drive.cycle.
  destruct (Joystick.getJoystickInputs c j) as [mv rv]. cbn [fst snd] in Dl, Dr.
  unfold Drive.setLeftRightMotorSpeeds.
  destruct (Joystick.targetSpeeds c mv rv) as [l r]. cbn [fst snd] in Dl, Dr.
  set (s1 := Drive.storeTargets l r (Drive.interlock l r s)).
  assert (Hs1 : speedsInRange s1).
  { unfold s1, Drive.interlock.
    destruct (negb (l =? prevLeftMotorSpeed s) || negb (r =? prevRightMotorSpeed s));
      exact Hs. }
  assert (Hst : prevLeftMotorSpeed s1 = l /\ prevRightMotorSpeed s1 = r /\
                prevLeft s1 = prevLeft s /\ prevRight s1 = prevRight s).
  { unfold s1, Drive.interlock.
    destruct (negb (l =? prevLeftMotorSpeed s) || negb (r =? prevRightMotorSpeed s));
      repeat split. }
  destruct Hst as (E1 & E2 & E3 & E4).
  assert (Hpre : if directionChanged s1
                 then leftResetComplete s1 = false /\ rightResetComplete s1 = false
                 else headingFor (decRate c) (prevLeft s1) (Drive.mapDriveSpeed (s16 l)) /\
                      headingFor (decRate c) (prevRight s1) (Drive.mapDriveSpeed (s16 r))).
  { unfold s1, Drive.interlock.
    destruct (Z.eqb_spec l (prevLeftMotorSpeed s)) as [A|A];
      destruct (Z.eqb_spec r (prevRightMotorSpeed s)) as [B|B];
      cbn [negb orb Drive.storeTargets Drive.signalChange directionChanged
           leftResetComplete rightResetComplete prevLeft prevRight];
      try (split; reflexivity).
    rewrite Hdc, A, B. split; assumption. }
  destruct (drive_spec c (s16 l) (s16 r) s1 fuel ltac:(lia) ltac:(lia)
              Hs1 Dl Dr Hf)
    as (s' & outs & E & Hdc' & Hs' & PL & PR & Fo & LL & LR & Cond).
  destruct (Cond ltac:(lia) Hpre) as (CL & CR & HL' & HR').
  exists s', outs. rewrite E3 in *. rewrite E4 in *.
  split; [exact E|]. split.
  { unfold betweenCycles. rewrite PL, PR, E1, E2. tauto. }
  tauto.
Qed.

Lemma run_spec c fuel :
  validConfig c -> (500 < fuel)%nat ->
  forall js s,
    betweenCycles c s ->
    exists s' tr,
      Drive.run fuel c js s = Some (s', tr) /\
      betweenCycles c s' /\
      Forall pulseInRange tr /\
      chain (decRate c) (REVERSE_PULSE + prevLeft s) (leftPulses tr) /\
      chain (decRate c) (REVERSE_PULSE + prevRight s) (rightPulses tr) /\
      last (leftPulses tr) (REVERSE_PULSE + prevLeft s) =
        REVERSE_PULSE + prevLeft s' /\
      last (rightPulses tr) (REVERSE_PULSE + prevRight s) =
        REVERSE_PULSE + prevRight s'.
Proof.
  intros Hc Hf. induction js as [|j js IH]; intros s Hb.
  - exists s, []. split; [reflexivity|]. split; [exact Hb|].
    split; [constructor|]. split; [exact I|]. split; [exact I|].
    split; reflexivity.
  - destruct (cycle_spec c j s fuel Hc Hb Hf)
      as (s1 & o1 & E1 & B1 & F1 & CL1 & CR1 & LL1 & LR1).
    destruct (IH s1 B1) as (s2 & o2 & E2 & B2 & F2 & CL2 & CR2 & LL2 & LR2).
    exists s2, (o1 ++ o2). cbn [Drive.run]. rewrite E1, E2.
    split; [reflexivity|]. split; [exact B2|].
    split; [apply Forall_app; tauto|].
    unfold leftPulses, rightPulses in *. rewrite !map_app.
    split; [apply chain_app; [exact CL1 | rewrite LL1; exact CL2]|].
    split; [apply chain_app; [exact CR1 | rewrite LR1; exact CR2]|].
    split.
    + rewrite <- LL2, <- LL1. apply last_app_default.
    + rewrite <- LR2, <- LR1. apply last_app_default.
Qed.

Lemma resetLoop_fuel_mono c :
  forall (f : nat) (locals : Z * Z) (s : DriveState) r,
    Drive.resetLoop f c locals s = Some r ->
    forall f' : nat, (f <= f')%nat -> Drive.resetLoop f' c locals s = Some r.
Proof.
  induction f as [|f IH]; intros locals s r H f' Hle.
  - cbn in H. destruct (directionChanged s) eqn:Hdc; [discriminate|].
    rewrite resetLoop_done by exact Hdc. exact H.
  - destruct f' as [|f']; [lia|]. cbn [Drive.resetLoop] in *.
    destruct (directionChanged s); [|exact H].
    destruct (Drive.resetIteration c locals s) as [[locals' s'] p].
    destruct (Drive.resetLoop f c locals' s') as [[s'' ps]|] eqn:E;
      [|discriminate].
    rewrite (IH locals' s' (s'', ps) E f') by lia. exact H.
Qed.

(** ** The claims about the resync loop and the pulse range *)

(** C4.  From any state whose two previous speeds lie in the drive-speed
    range [0, 1000], with a deceleration rate between one unit and the
    neutral speed (every configured rate is), the resync loop terminates:
    with more fuel than the larger distance from neutral it returns, and
    always the same state and pulses, after at most that many iterations
    plus one.  Each iteration moves a motor that is more than [decRate]
    from neutral exactly [decRate] closer and leaves a motor within
    [decRate] in place with its completion flag set; [directionChanged] is
    cleared only in a state where both completion flags are set; and when
    the loop was entered in the RESYNCING state set up by the interlock,
    both motors end within [decRate] of neutral. *)
Theorem C4_resync_terminates (c : Config) (s : DriveState) :
  MIN_DECREASE_RAMPING <= decRate c <= NEUTRAL_SPEED ->
  speedsInRange s ->
  exists s' outs,
    (forall fuel : nat, (resetMeasure s < fuel)%nat ->
       Drive.resetMotorSpeeds fuel c s = Some (s', outs)) /\
    (resetMeasure s <= 500)%nat /\
    (length outs <= S (resetMeasure s))%nat /\
    directionChanged s' = false /\
    (directionChanged s = true ->
     leftResetComplete s' = true /\ rightResetComplete s' = true) /\
    (resyncing s ->
     nearNeutral (decRate c) (prevLeft s') /\
     nearNeutral (decRate c) (prevRight s')) /\
    (forall t : DriveState, speedsInRange t ->
       let t' := snd (fst (Drive.resetIteration c (prevLeft t, prevRight t) t)) in
       (~ nearNeutral (decRate c) (prevLeft t) ->
        Z.abs (prevLeft t' - NEUTRAL_SPEED) =
        Z.abs (prevLeft t - NEUTRAL_SPEED) - decRate c) /\
       (~ nearNeutral (decRate c) (prevRight t) ->
        Z.abs (prevRight t' - NEUTRAL_SPEED) =
        Z.abs (prevRight t - NEUTRAL_SPEED) - decRate c) /\
       (nearNeutral (decRate c) (prevLeft t) ->
        prevLeft t' = prevLeft t /\ leftResetComplete t' = true) /\
       (nearNeutral (decRate c) (prevRight t) ->
        prevRight t' = prevRight t /\ rightResetComplete t' = true) /\
       (directionChanged t = true -> directionChanged t' = false ->
        leftResetComplete t' = true /\ rightResetComplete t' = true)).
Proof.
  unfold MIN_DECREASE_RAMPING, NEUTRAL_SPEED at 1. intros Hd Hs.
  pose proof (resetMeasure_bound s Hs) as Hb.
  destruct (resetLoop_spec c Hd (S (resetMeasure s)) s Hs ltac:(lia))
    as (s' & outs & E & Hdc' & Hs' & _ & _ & _ & _ & _ & _ & _ & Fl & Hh & Len).
  exists s', outs.
  split.
  { intros fuel Hf. unfold Drive.resetMotorSpeeds.
    destruct Hs as [Hl Hr].
    rewrite (u16_small (prevLeft s)) by (unfold_consts; lia).
    rewrite (u16_small (prevRight s)) by (unfold_consts; lia).
    apply (resetLoop_fuel_mono c _ _ _ _ E). lia. }
  split; [exact Hb|]. split; [exact Len|]. split; [exact Hdc'|].
  split; [intro H; destruct (Fl H) as (A & B & _); split; assumption|].
  split.
  { intros (H1 & H2 & H3). destruct (Fl H1) as (A & B & _).
    assert (Hon : flagsHonest (decRate c) s') by
      (apply Hh; split; intro X; congruence).
    destruct Hon as [N1 N2]. split; [apply N1, A | apply N2, B]. }
  intros t Ht.
  destruct (resetIteration_spec c t ltac:(lia) Ht)
    as (l' & lc & r' & rc & ML & MR & EI).
  rewrite EI. cbn [fst snd]. cbv zeta.
  cbn [prevLeft prevRight leftResetComplete rightResetComplete directionChanged].
  unfold resetMoves in ML, MR. unfold_consts.
  split; [lia|]. split; [lia|].
  split; [intro N; destruct ML as [?|[?|(_ & ? & ?)]]; [lia | lia | split; assumption]|].
  split; [intro N; destruct MR as [?|[?|(_ & ? & ?)]]; [lia | lia | split; assumption]|].
  intros D1 D2. rewrite D1 in D2.
  destruct lc; destruct rc; cbn in D2; try discriminate. split; reflexivity.
Qed.

Lemma C4_resync_terminates_witness :
  let c := Setup.defaultConfig sourceTrims in
  let s := mkState 256 252 true false false 750 746 in
  MIN_DECREASE_RAMPING <= decRate c <= NEUTRAL_SPEED /\
  speedsInRange s /\
  exists s' outs,
    Drive.resetMotorSpeeds 501 c s = Some (s', outs) /\
    directionChanged s' = false.
Proof.
  intros c s.
  assert (H1 : MIN_DECREASE_RAMPING <= decRate c <= NEUTRAL_SPEED)
    by (vm_compute; split; discriminate).
  assert (H2 : speedsInRange s)
    by (vm_compute; repeat split; discriminate).
  split; [exact H1|]. split; [exact H2|].
  destruct (C4_resync_terminates c s H1 H2)
    as (s' & outs & Hf & Hb & _ & Hdc & _).
  exists s', outs. split; [apply Hf; lia | exact Hdc].
Defined.

(** C5.  With the rates in their configured ranges, from any state whose
    previous speeds lie in [0, 1000] (whatever the interlock flags) and for
    any two input speeds in [-512, 512], [drive] returns and every pulse it
    writes, in the resync loop and in the ramp, lies in
    [REVERSE_PULSE, FORWARD_PULSE], and the speeds it stores lie in
    [0, 1000] again.  Every state the control loop reaches from the cold
    start is such a state, and every pulse of such a run is in range. *)
Theorem C5_pulses_in_range
  (c : Config) (s : DriveState) (nextLeftSpeed nextRightSpeed : Z)
  (fuel : nat) (js : list JoystickReads) :
  validConfig c -> speedsInRange s ->
  -512 <= nextLeftSpeed <= 512 -> -512 <= nextRightSpeed <= 512 ->
  (500 < fuel)%nat ->
  (exists s' outs,
     Drive.drive fuel c nextLeftSpeed nextRightSpeed s = Some (s', outs) /\
     Forall pulseInRange outs /\ speedsInRange s') /\
  (exists s' tr,
     Drive.run fuel c js coldStart = Some (s', tr) /\
     Forall pulseInRange tr /\ speedsInRange s').
Proof.
  intros Hc Hs Hl Hr Hf.
  assert (Hrates : 0 <= accRate c <= 500 /\ 1 <= decRate c <= 500).
  { destruct Hc as (_ & (Ra & Rd) & _).
    unfold MIN_INCREASE_RAMPING, MAX_INCREASE_RAMPING, MIN_DECREASE_RAMPING,
      MAX_DECREASE_RAMPING in *. lia. }
  destruct Hrates as [Ha Hd]. split.
  - destruct (drive_spec c nextLeftSpeed nextRightSpeed s fuel Ha Hd Hs Hl Hr Hf)
      as (s' & outs & E & _ & Hs' & _ & _ & Fo & _).
    exists s', outs. tauto.
  - assert (B0 : betweenCycles c coldStart).
    { unfold betweenCycles, headingFor, nearNeutral.
      split; [reflexivity|]. split; [vm_compute; repeat split; discriminate|].
      cbn [coldStart prevLeft prevRight]. unfold NEUTRAL_SPEED.
      split; left; change (500 - 500) with 0; cbn [Z.abs]; lia. }
    destruct (run_spec c fuel Hc Hf js coldStart B0)
      as (s' & tr & E & (_ & Hs' & _) & Fo & _).
    exists s', tr. tauto.
Qed.

Lemma C5_pulses_in_range_witness :
  let c := Setup.defaultConfig sourceTrims in
  validConfig c /\ speedsInRange coldStart /\
  exists s' outs,
    Drive.drive 501 c 512 (-512) coldStart = Some (s', outs) /\
    Forall pulseInRange outs.
Proof.
  intro c.
  assert (H1 : validConfig c) by (vm_compute; repeat split; discriminate).
  assert (H2 : speedsInRange coldStart)
    by (vm_compute; repeat split; discriminate).
  split; [exact H1|]. split; [exact H2|].
  destruct (C5_pulses_in_range c coldStart 512 (-512) 501 [] H1 H2
              ltac:(lia) ltac:(lia) ltac:(lia))
    as [(s' & outs & E & Fo & _) _].
  exists s', outs. split; assumption.
Defined.

(** ** The claims about the rate limiter *)

(** C2.  The right motor block of [drive] takes a full-scale target at
    once.  Configuration: what [setup] derives from an unwritten EEPROM
    (speed limit 512, both rates 30) with all four trims at 0.  With the
    stick pushed forward on the first pass the targets are 512 and 512;
    the left motor goes from 500 to 530, the right motor from 500 to 1000,
    a change of 500 against an acceleration rate of 30. *)
Theorem C2_right_motor_full_scale_jump :
  let c := snd (Setup.setup true (fun _ => 255) (mkTrims 0 0 0 0)) in
  validConfig c /\
  accRate c = 30 /\
  Joystick.targetSpeeds c (fst (Joystick.getJoystickInputs c stickForward))
                          (snd (Joystick.getJoystickInputs c stickForward))
    = (512, 512) /\
  Drive.run 501 c [stickForward] coldStart =
    Some (mkState 512 512 false true true 530 1000,
          [mkPulse 1500 1500; mkPulse 1530 2000]) /\
  Drive.driveMotors c 512 512 (mkState 512 512 false true true 500 500) =
    (mkState 512 512 false true true 530 1000, mkPulse 1530 2000) /\
  ~ Z.abs (1000 - 500) <= accRate c.
Proof.
  vm_compute. repeat split; try discriminate; try reflexivity.
  intro H. apply H. reflexivity.
Qed.

(** C6 fails as stated: [drive] bounds a decreasing speed by the
    acceleration rate, not by the deceleration rate.  Configuration: the
    defaults with an acceleration rate of 30 (deceleration rate 20).  After
    two passes with the stick forward and a release of the stick, the
    resync loop leaves the left motor at 520 and the ramp of [drive] then
    takes it to 499: its distance from neutral falls from 20 to 1, by a
    change of 21, more than the deceleration rate. *)
Lemma C6_counterexample :
  let c := mkConfig 630 340 400 600 256 30 20 0 0 4 0 in
  let l := fst (Joystick.targetSpeeds c 0 (-1)) in
  let r := snd (Joystick.targetSpeeds c 0 (-1)) in
  validConfig c /\
  Joystick.getJoystickInputs c stickAtRest = (0, -1) /\
  exists s1 tr1 s2 tr2 s3 p,
    Drive.run 501 c [stickForward; stickForward] coldStart = Some (s1, tr1) /\
    Drive.resetMotorSpeeds 501 c
      (Drive.storeTargets l r (Drive.interlock l r s1)) = Some (s2, tr2) /\
    directionChanged s2 = false /\
    Drive.driveMotors c (s16 l) (s16 r) s2 = (s3, p) /\
    prevLeft s2 = 520 /\ prevLeft s3 = 499 /\
    Z.abs (prevLeft s3 - NEUTRAL_SPEED) < Z.abs (prevLeft s2 - NEUTRAL_SPEED) /\
    ~ Z.abs (prevLeft s3 - prevLeft s2) <= decRate c.
Proof.
  cbv zeta. split; [vm_compute; repeat split; discriminate|].
  split; [vm_compute; reflexivity|].
  eexists. eexists. eexists. eexists. eexists. eexists.
  split; [vm_compute; reflexivity|].
  split; [vm_compute; reflexivity|].
  split; [reflexivity|].
  split; [vm_compute; reflexivity|].
  split; [reflexivity|]. split; [reflexivity|].
  split; [vm_compute; reflexivity|].
  vm_compute. intro H. apply H. reflexivity.
Qed.

(** C6, amended.  In the drive path (no resync pending), for speeds in
    [0, 1000] and input speeds in [-512, 512], one pass of [drive] writes
    one pulse and changes the left motor's speed by at most the
    acceleration rate, whether the speed rises or falls, and likewise the
    right motor's speed when its target is below full scale; the
    deceleration rate plays no part in it: [drive] with any other
    deceleration rate does the same. *)
Theorem C6_drive_ramps_by_acceleration_rate
  (c : Config) (s : DriveState) (nextLeftSpeed nextRightSpeed d : Z)
  (fuel : nat) :
  0 <= accRate c <= NEUTRAL_SPEED -> speedsInRange s ->
  directionChanged s = false ->
  -512 <= nextLeftSpeed <= 512 -> -512 <= nextRightSpeed <= 512 ->
  exists s' p,
    Drive.drive fuel c nextLeftSpeed nextRightSpeed s = Some (s', [p]) /\
    Z.abs (prevLeft s' - prevLeft s) <= accRate c /\
    (Drive.mapDriveSpeed nextRightSpeed < FORWARD_PULSE - REVERSE_PULSE ->
     Z.abs (prevRight s' - prevRight s) <= accRate c) /\
    Drive.drive fuel (setDecRate d c) nextLeftSpeed nextRightSpeed s =
    Drive.drive fuel c nextLeftSpeed nextRightSpeed s.
Proof.
  unfold NEUTRAL_SPEED. intros Ha Hs Hdc Hl Hr.
  unfold Drive.drive. rewrite Hdc.
  change (Drive.driveMotors (setDecRate d c) nextLeftSpeed nextRightSpeed s)
    with (Drive.driveMotors c nextLeftSpeed nextRightSpeed s).
  rewrite (driveMotors_spec c nextLeftSpeed nextRightSpeed s Ha Hs Hl Hr).
  eexists. eexists. split; [reflexivity|].
  cbn [prevLeft prevRight]. destruct Hs as [H1 H2].
  split; [apply leftDrive_step; assumption|].
  split; [intro Hfull; apply rightDrive_step; assumption|].
  reflexivity.
Qed.

Lemma C6_drive_ramps_by_acceleration_rate_witness :
  let c := Setup.defaultConfig sourceTrims in
  let s := mkState 256 252 false true true 750 746 in
  0 <= accRate c <= NEUTRAL_SPEED /\ speedsInRange s /\
  directionChanged s = false /\
  exists s' p,
    Drive.drive 0 c (-256) (-256) s = Some (s', [p]) /\
    Z.abs (prevLeft s' - prevLeft s) <= accRate c.
Proof.
  intros c s.
  assert (H1 : 0 <= accRate c <= NEUTRAL_SPEED)
    by (vm_compute; split; discriminate).
  assert (H2 : speedsInRange s) by (vm_compute; repeat split; discriminate).
  split; [exact H1|]. split; [exact H2|]. split; [reflexivity|].
  destruct (C6_drive_ramps_by_acceleration_rate c s (-256) (-256) 1 0 H1 H2
              eq_refl ltac:(lia) ltac:(lia))
    as (s' & p & E & B & _).
  exists s', p. split; assumption.
Defined.

(** ** The claim about the speed limit *)

(** C8 fails as stated: the trims are applied by plain 16-bit subtraction
    and addition, with no clamp.  Speed limit 72 (0 percent), forward-left
    trim 200, stick forward: the left motor speed is 72 - 200, stored as
    65408 and handed to [drive] as -128, of magnitude 128 > 72. *)
Lemma C8_counterexample :
  let c := mkConfig 630 340 400 600 72 15 20 200 0 4 0 in
  let mv := fst (Joystick.getJoystickInputs c stickForward) in
  let rv := snd (Joystick.getJoystickInputs c stickForward) in
  validConfig c /\
  fst (Joystick.targetSpeeds c mv rv) = 65408 /\
  s16 (fst (Joystick.targetSpeeds c mv rv)) = -128 /\
  ~ Z.abs (s16 (fst (Joystick.targetSpeeds c mv rv))) <= speedLimit c.
Proof.
  vm_compute. repeat split; try discriminate; try reflexivity.
  intro H. apply H. reflexivity.
Qed.

(** C8, amended.  With the speed limit in its configured range and each of
    the four trims between 0 and the speed limit, the left and right motor
    speeds computed from any joystick readings have magnitude at most the
    speed limit. *)
Theorem C8_speeds_within_limit (c : Config) (j : JoystickReads) :
  speedLimitInRange c ->
  0 <= FWD_LEFT_TRIM c <= speedLimit c ->
  0 <= REV_LEFT_TRIM c <= speedLimit c ->
  0 <= FWD_RIGHT_TRIM c <= speedLimit c ->
  0 <= REV_RIGHT_TRIM c <= speedLimit c ->
  let mv := fst (Joystick.getJoystickInputs c j) in
  let rv := snd (Joystick.getJoystickInputs c j) in
  Z.abs (s16 (fst (Joystick.targetSpeeds c mv rv))) <= speedLimit c /\
  Z.abs (s16 (snd (Joystick.targetSpeeds c mv rv))) <= speedLimit c.
Proof.
  intros Hs T1 T2 T3 T4. cbv zeta.
  pose proof (getJoystickInputs_bound c j Hs) as [Hm Hr]. cbv zeta in Hm, Hr.
  unfold speedLimitInRange, MIN_SPEED_LIMIT, MAX_SPEED_LIMIT in Hs.
  apply targetSpeeds_bound; try assumption; lia.
Qed.

Lemma C8_speeds_within_limit_witness :
  let c := Setup.defaultConfig sourceTrims in
  speedLimitInRange c /\
  Z.abs (s16 (fst (Joystick.targetSpeeds c
                     (fst (Joystick.getJoystickInputs c stickForward))
                     (snd (Joystick.getJoystickInputs c stickForward)))))
    <= speedLimit c.
Proof.
  intro c.
  assert (H : speedLimitInRange c) by (vm_compute; split; discriminate).
  split; [exact H|].
  apply (C8_speeds_within_limit c stickForward H);
    vm_compute; split; discriminate.
Defined.

(** ** The claim about passing through neutral *)

(** C1 fails as stated: the resync loop stops within [decRate] of neutral,
    not at neutral.  Default configuration, stick forward for two passes
    and then pulled back: the left pulses are 1500, 1515, 1530, then 1510
    and 1510 from the resync loop and 1495 from the ramp; the output goes
    from above neutral to below it and is never 1500 in between. *)
Lemma C1_counterexample :
  let c := Setup.defaultConfig sourceTrims in
  validConfig c /\
  exists s tr,
    Drive.run 501 c [stickForward; stickForward; stickReverse] coldStart
      = Some (s, tr) /\
    leftPulses tr = [1500; 1515; 1530; 1510; 1510; 1495] /\
    ~ passesExactNeutral (leftPulses tr).
Proof.
  cbv zeta. split; [vm_compute; repeat split; discriminate|].
  eexists. eexists. split; [vm_compute; reflexivity|].
  split; [reflexivity|].
  cbn [leftPulses List.map leftMotorPulse]. intro H.
  destruct (H 2%nat 5%nat 1530 1495 ltac:(lia) eq_refl eq_refl)
    as (k & Hk & Hn).
  - right. vm_compute. split; reflexivity.
  - assert (K : (k = 2 \/ k = 3 \/ k = 4 \/ k = 5)%nat) by lia.
    destruct K as [-> | [-> | [-> | ->]]]; vm_compute in Hn; discriminate.
Qed.

(** C1, amended.  In every run of the control loop from the cold start,
    under a configuration in the configured ranges, whenever a motor's
    pulse lies strictly on one side of the neutral pulse at one output and
    strictly on the other side at a later output (outputs of the resync
    loop counted), some output from the earlier one on and before the later
    one lies within [decRate] of the neutral pulse. *)
Theorem C1_crosses_neutral_within_one_step
  (c : Config) (js : list JoystickReads) (fuel : nat) :
  validConfig c -> (500 < fuel)%nat ->
  exists s tr,
    Drive.run fuel c js coldStart = Some (s, tr) /\
    passesNeutralBand (decRate c) (leftPulses tr) /\
    passesNeutralBand (decRate c) (rightPulses tr).
Proof.
  intros Hc Hf.
  assert (Hd : 0 <= decRate c).
  { destruct Hc as (_ & (_ & Rd) & _). unfold MIN_DECREASE_RAMPING in Rd. lia. }
  assert (B0 : betweenCycles c coldStart).
  { unfold betweenCycles, headingFor, nearNeutral.
    split; [reflexivity|]. split; [vm_compute; repeat split; discriminate|].
    cbn [coldStart prevLeft prevRight]. unfold NEUTRAL_SPEED.
    split; left; change (500 - 500) with 0; cbn [Z.abs]; lia. }
  destruct (run_spec c fuel Hc Hf js coldStart B0)
    as (s' & tr & E & _ & _ & CL & CR & _).
  exists s', tr. split; [exact E|].
  assert (P : forall p l, chain (decRate c) p l -> passesNeutralBand (decRate c) l).
  { intros p l Hch. destruct l as [|o l'].
    - intros i j a b _ Ha. destruct i; discriminate.
    - destruct Hch as [_ Hch]. apply chain_passes; assumption. }
  split; eapply P; eassumption.
Qed.

Lemma C1_crosses_neutral_within_one_step_witness :
  let c := Setup.defaultConfig sourceTrims in
  validConfig c /\ (500 < 501)%nat /\
  exists s tr,
    Drive.run 501 c [stickForward; stickForward; stickReverse] coldStart
      = Some (s, tr) /\
    passesNeutralBand (decRate c) (leftPulses tr).
Proof.
  intro c.
  assert (H : validConfig c) by (vm_compute; repeat split; discriminate).
  split; [exact H|]. split; [lia|].
  destruct (C1_crosses_neutral_within_one_step
              c [stickForward; stickForward; stickReverse] 501 H ltac:(lia))
    as (s & tr & E & PL & _).
  exists s, tr. split; assumption.
Defined.

(** ** Touchscreen adjustments and the second sketch *)

(** A percentage in [0, 100] stays there under any button press. *)
Lemma adjustPercent_range (upOrDown : ascii) (incAmount percent : Z) :
  0 <= percent <= 100 ->
  0 <= Touch.adjustPercent upOrDown incAmount percent <= 100.
Proof.
  intro H. unfold Touch.adjustPercent.
  pose proof (u8_range incAmount) as B.
  destruct (Ascii.eqb upOrDown "U" && negb (percent =? 100)).
  - rewrite u16_small by lia.
    destruct (Z.gtb_spec (percent + u8 incAmount) 100); lia.
  - destruct (Ascii.eqb upOrDown "D" && negb (percent =? 0)); [|exact H].
    destruct (Z_lt_le_dec (percent - u8 incAmount) 0).
    + rewrite u16_neg by lia.
      destruct (Z.gtb_spec (percent - u8 incAmount + 65536) 100); lia.
    + rewrite u16_small by lia.
      destruct (Z.gtb_spec (percent - u8 incAmount) 100); lia.
Qed.

(** The second sketch reads [rotateValue] only when [moveValue] is 0. *)
Lemma NewBoard_rotate_ignored (moveValue r1 r2 : Z) :
  moveValue <> 0 ->
  NewBoard.targetSpeeds moveValue r1 = NewBoard.targetSpeeds moveValue r2.
Proof.
  intro H. unfold NewBoard.targetSpeeds.
  destruct (Z.gtb_spec moveValue 0); [reflexivity|].
  destruct (Z.ltb_spec moveValue 0); [reflexivity|]. lia.
Qed.

(** Its ramp moves either motor by at most [INCREASE_RAMPING], full-scale
    targets included. *)
Lemma NewBoard_ramp_bound (nextSpeed prev : Z) :
  Z.abs (NewBoard.rampMotor nextSpeed prev - prev) <= NewBoard.INCREASE_RAMPING.
Proof.
  unfold NewBoard.rampMotor, NewBoard.INCREASE_RAMPING.
  set (t := map nextSpeed 0 1023 0 _). clearbody t.
  destruct (Z.gtb_spec t (prev + 5)); [lia|].
  destruct (Z.ltb_spec t (prev - 5)); lia.
Qed.

(** ** Scenarios *)

(** Thresholds 400, 600, 630, 340: a raw X of 700 is a right input, 300 a
    left input, 500 none. *)
Example classify_x_axis :
  let c := Setup.defaultConfig sourceTrims in
  let q := fun x : Z =>
    Joystick.quantize (u16 x >? rightThresh c) (u16 x <? leftThresh c) in
  (q 700, q 300, q 500) = (1023, 0, 512).
Proof. reflexivity. Qed.

(** With the defaults a stick at rest gives move value 0 and rotate value
    -1, hence the resting pulses 1499 and 1497. *)
Example rest_pulses :
  let c := Setup.defaultConfig sourceTrims in
  Joystick.getJoystickInputs c stickAtRest = (0, -1) /\
  Drive.run 501 c [stickAtRest; stickAtRest] coldStart =
    Some (mkState 65535 65533 false true true 499 497,
          [mkPulse 1500 1500; mkPulse 1499 1497; mkPulse 1499 1497]).
Proof. vm_compute. split; reflexivity. Qed.

(** Speed limit 256, acceleration rate 15: from rest the left motor climbs
    by 15 per pass and reaches its forward speed of 750 on pass 17. *)
Example forward_ramp :
  let c := Setup.defaultConfig sourceTrims in
  option_map (fun r => leftPulses (snd r))
    (Drive.run 501 c (repeat stickForward 18) coldStart) =
  Some [1500; 1515; 1530; 1545; 1560; 1575; 1590; 1605; 1620; 1635; 1650;
        1665; 1680; 1695; 1710; 1725; 1740; 1750; 1750].
Proof. vm_compute. reflexivity. Qed.

(** * Further properties of the sketch *)

(** ** The classifier *)

Lemma rest_rotate_exact sl :
  72 <= sl <= 512 ->
  Joystick.recentre
    (u16 (map 512 0 1023 (Joystick.turnOutMin sl) (Joystick.turnOutMax sl)))
  = (if sl mod 3 =? 0 then 0 else -1).
Proof.
  intros Hs. unfold Joystick.turnOutMin, Joystick.turnOutMax.
  rewrite !Z.quot_div_nonneg by lia.
  unfold map. change (1023 - 0) with 1023.
  set (lo := (3 * 512 - 2 * sl) / 3). set (hi := (3 * 512 + 2 * sl) / 3).
  assert (Hlo : lo = 512 - (2 * sl + 2) / 3)
    by (subst lo; Z.div_mod_to_equations; lia).
  assert (Hhi : hi = 512 + 2 * sl / 3)
    by (subst hi; Z.div_mod_to_equations; lia).
  assert (B1 : 48 <= 2 * sl / 3 <= 341) by (Z.div_mod_to_equations; lia).
  assert (B3 : 2 * sl / 3 <= (2 * sl + 2) / 3 <= 2 * sl / 3 + 1)
    by (Z.div_mod_to_equations; lia).
  assert (B4 : (2 * sl + 2) / 3 - 2 * sl / 3 = (if sl mod 3 =? 0 then 0 else 1)).
  { destruct (Z.eqb_spec (sl mod 3) 0); Z.div_mod_to_equations; lia. }
  rewrite Z.quot_div_nonneg by lia.
  assert (E : (512 - 0) * (hi - lo) / 1023 = 2 * sl / 3).
  { rewrite Hlo, Hhi. clear Hlo Hhi B4. subst lo hi.
    set (a := 2 * sl / 3) in *. set (b := (2 * sl + 2) / 3) in *.
    clearbody a b. Z.div_mod_to_equations. lia. }
  rewrite E. rewrite u16_small by lia. rewrite recentre_value by lia.
  destruct (sl mod 3 =? 0); lia.
Qed.

(** X1.  With the speed limit in its configured range and the stick
    inside all four deadzones, [getJoystickInputs] hands on a move value
    of 0 and a rotate value of 0 when the speed limit is a multiple of 3,
    and of -1 otherwise. *)
Theorem X1_stick_at_rest (c : Config) (j : JoystickReads) :
  speedLimitInRange c -> atRest c j ->
  Joystick.getJoystickInputs c j =
  (0, if speedLimit c mod 3 =? 0 then 0 else -1).
Proof.
  unfold speedLimitInRange, MIN_SPEED_LIMIT, MAX_SPEED_LIMIT.
  intros Hs (A & B & C & D). unfold Joystick.getJoystickInputs.
  rewrite A, B, C, D. cbn [Joystick.quantize].
  rewrite rest_rotate_exact by exact Hs.
  pose proof (moveValue_cases (speedLimit c) 512 Hs ltac:(auto)) as HM.
  cbv zeta in HM. destruct HM as [[F _]|[[F _]|[_ E]]]; try discriminate.
  rewrite E. f_equal.
  destruct (speedLimit c mod 3 =? 0); reflexivity.
Qed.

Lemma X1_stick_at_rest_witness :
  let c := Setup.defaultConfig sourceTrims in
  speedLimitInRange c /\ atRest c stickAtRest /\
  Joystick.getJoystickInputs c stickAtRest = (0, -1).
Proof.
  intro c.
  assert (H1 : speedLimitInRange c) by (vm_compute; split; discriminate).
  assert (H2 : atRest c stickAtRest) by (vm_compute; repeat split).
  split; [exact H1|]. split; [exact H2|].
  exact (X1_stick_at_rest c stickAtRest H1 H2).
Defined.

(** X2.  With the speed limit in its configured range, a reading above the
    forward threshold gives a move value of exactly the speed limit and a
    reading below the reverse threshold one of exactly its opposite (the
    reverse speed is not reduced); a reading above the right threshold
    gives a rotate value of two thirds of the speed limit rounded down, a
    reading below the left threshold the opposite of two thirds rounded up,
    in both cases of magnitude at least [MIN_SPEED_LIMIT]. *)
Theorem X2_pushed_stick_values (c : Config) (j : JoystickReads) :
  speedLimitInRange c ->
  let mv := fst (Joystick.getJoystickInputs c j) in
  let rv := snd (Joystick.getJoystickInputs c j) in
  ((u16 (readYp j) >? forwardThresh c) = true -> mv = speedLimit c) /\
  ((u16 (readYp j) >? forwardThresh c) = false ->
   (u16 (readYn j) <? reverseThresh c) = true -> mv = - speedLimit c) /\
  ((u16 (readXp j) >? rightThresh c) = true ->
   rv = Z.max MIN_SPEED_LIMIT (2 * speedLimit c / 3)) /\
  ((u16 (readXp j) >? rightThresh c) = false ->
   (u16 (readXn j) <? leftThresh c) = true ->
   rv = - Z.max MIN_SPEED_LIMIT ((2 * speedLimit c + 2) / 3)).
Proof.
  unfold speedLimitInRange, MIN_SPEED_LIMIT, MAX_SPEED_LIMIT.
  intros Hs. cbv zeta. unfold Joystick.getJoystickInputs. cbn [fst snd].
  assert (B1 : 48 <= 2 * speedLimit c / 3 <= 341)
    by (Z.div_mod_to_equations; lia).
  assert (B2 : 48 <= (2 * speedLimit c + 2) / 3 <= 342)
    by (Z.div_mod_to_equations; lia).
  split; [|split; [|split]].
  - intro A. rewrite A. cbn [Joystick.quantize].
    pose proof (moveValue_cases (speedLimit c) 1023 Hs ltac:(auto)) as HM.
    cbv zeta in HM. destruct HM as [[_ E]|[[F _]|[F _]]]; try discriminate.
    exact E.
  - intros A B. rewrite A, B. cbn [Joystick.quantize].
    pose proof (moveValue_cases (speedLimit c) 0 Hs ltac:(auto)) as HM.
    cbv zeta in HM. destruct HM as [[F _]|[[_ E]|[F _]]]; try discriminate.
    exact E.
  - intro A. rewrite A. cbn [Joystick.quantize].
    pose proof (rotateValue_cases (speedLimit c) 1023 Hs ltac:(auto)) as HR.
    cbv zeta in HR. destruct HR as [[_ E]|[[F _]|[F _]]]; try discriminate.
    rewrite E.
    pose proof (minRotate_cases (2 * speedLimit c / 3) ltac:(lia)) as HC.
    unfold MIN_SPEED_LIMIT in HC. lia.
  - intros A B. rewrite A, B. cbn [Joystick.quantize].
    pose proof (rotateValue_cases (speedLimit c) 0 Hs ltac:(auto)) as HR.
    cbv zeta in HR. destruct HR as [[F _]|[[_ E]|[F _]]]; try discriminate.
    rewrite E.
    pose proof (minRotate_cases (- ((2 * speedLimit c + 2) / 3)) ltac:(lia)) as HC.
    unfold MIN_SPEED_LIMIT in HC. lia.
Qed.

Lemma X2_pushed_stick_values_witness :
  let c := Setup.defaultConfig sourceTrims in
  speedLimitInRange c /\
  ((u16 (readYp stickReverse) >? forwardThresh c) = false ->
   (u16 (readYn stickReverse) <? reverseThresh c) = true ->
   fst (Joystick.getJoystickInputs c stickReverse) = - speedLimit c).
Proof.
  intro c.
  assert (H1 : speedLimitInRange c) by (vm_compute; split; discriminate).
  split; [exact H1|].
  exact (proj1 (proj2 (X2_pushed_stick_values c stickReverse H1))).
Defined.

(** X3.  For every [int16_t] rotate value, the minimum-speed adjustment
    returns a value that is never strictly between 3 and [MIN_SPEED_LIMIT]
    in magnitude, leaves values outside that band as they are, and applied
    again changes nothing. *)
Theorem X3_minimum_turn_speed (rotateValue : Z) :
  -32768 <= rotateValue < 32768 ->
  let m := Joystick.minRotate rotateValue in
  ~ (3 < Z.abs m < MIN_SPEED_LIMIT) /\
  (~ (3 < Z.abs rotateValue < MIN_SPEED_LIMIT) -> m = rotateValue) /\
  (3 < Z.abs rotateValue < MIN_SPEED_LIMIT ->
   Z.abs m = MIN_SPEED_LIMIT /\ 0 < m * rotateValue) /\
  Joystick.minRotate m = m.
Proof.
  intros H m. subst m.
  pose proof (minRotate_cases rotateValue H) as HC.
  assert (Hm : -32768 <= Joystick.minRotate rotateValue < 32768)
    by (unfold MIN_SPEED_LIMIT in HC; lia).
  pose proof (minRotate_cases (Joystick.minRotate rotateValue) Hm) as HC2.
  unfold MIN_SPEED_LIMIT in *.
  repeat split; try lia; intros; try nia.
Qed.

Lemma X3_minimum_turn_speed_witness :
  -32768 <= -48 < 32768 /\ Joystick.minRotate (Joystick.minRotate (-48)) =
                            Joystick.minRotate (-48).
Proof.
  split; [lia|].
  exact (proj2 (proj2 (proj2 (X3_minimum_turn_speed (-48) ltac:(lia))))).
Defined.

Lemma targetSpeeds_move_only c mv r1 r2 :
  mv <> 0 -> Joystick.targetSpeeds c mv r1 = Joystick.targetSpeeds c mv r2.
Proof.
  intro H. unfold Joystick.targetSpeeds.
  destruct (Z.gtb_spec mv 0); [reflexivity|].
  destruct (Z.ltb_spec mv 0); [reflexivity|]. lia.
Qed.

(** X4.  While the stick is outside the forward/reverse deadzone, the
    readings of the X axis have no effect at all: two passes of the control
    loop from the same state with the same Y readings write the same pulses
    and leave the same state, whatever the X readings. *)
Theorem X4_steering_ignored_while_driving
  (c : Config) (j1 j2 : JoystickReads) (s : DriveState) (fuel : nat) :
  speedLimitInRange c ->
  readYp j1 = readYp j2 -> readYn j1 = readYn j2 ->
  (u16 (readYp j1) >? forwardThresh c) = true \/
  (u16 (readYn j1) <? reverseThresh c) = true ->
  Drive.cycle fuel c j1 s = Drive.cycle fuel c j2 s.
Proof.
  intros Hs Ep En Hout.
  assert (Hm : fst (Joystick.getJoystickInputs c j1) =
               fst (Joystick.getJoystickInputs c j2)).
  { unfold Joystick.getJoystickInputs. cbn [fst]. rewrite Ep, En. reflexivity. }
  assert (Hnz : fst (Joystick.getJoystickInputs c j1) <> 0).
  { unfold speedLimitInRange, MIN_SPEED_LIMIT, MAX_SPEED_LIMIT in Hs.
    unfold Joystick.getJoystickInputs. cbn [fst].
    destruct (u16 (readYp j1) >? forwardThresh c) eqn:A; cbn [Joystick.quantize].
    - pose proof (moveValue_cases (speedLimit c) 1023 Hs ltac:(auto)) as HM.
      cbv zeta in HM. destruct HM as [[_ E]|[[F _]|[F _]]]; try discriminate.
      rewrite E. lia.
    - destruct Hout as [F|B]; [discriminate|]. rewrite B.
      pose proof (moveValue_cases (speedLimit c) 0 Hs ltac:(auto)) as HM.
      cbv zeta in HM. destruct HM as [[F _]|[[_ E]|[F _]]]; try discriminate.
      rewrite E. lia. }
  unfold Drive.cycle.
  destruct (Joystick.getJoystickInputs c j1) as [m1 r1].
  destruct (Joystick.getJoystickInputs c j2) as [m2 r2].
  cbn [fst] in Hm, Hnz. subst m2.
  unfold Drive.setLeftRightMotorSpeeds.
  rewrite (targetSpeeds_move_only c m1 r1 r2 Hnz). reflexivity.
Qed.

Lemma X4_steering_ignored_while_driving_witness :
  let c := Setup.defaultConfig sourceTrims in
  speedLimitInRange c /\
  Drive.cycle 501 c (mkReads 0 0 1023 1023) coldStart =
  Drive.cycle 501 c (mkReads 1023 1023 1023 1023) coldStart.
Proof.
  intro c.
  assert (H1 : speedLimitInRange c) by (vm_compute; split; discriminate).
  split; [exact H1|].
  apply (X4_steering_ignored_while_driving c (mkReads 0 0 1023 1023)
           (mkReads 1023 1023 1023 1023) coldStart 501 H1);
    [reflexivity | reflexivity | left; reflexivity].
Defined.

(** The characteristics the save branch derives from percentages in
    [0, 100]. *)
Lemma saveDerive_values p c :
  percentsValid p ->
  Setup.saveDerive p c =
  mkConfig (600 + 4 * forwardSensPercent p) (4 * reverseSensPercent p)
           (4 * leftSensPercent p) (600 + 4 * rightSensPercent p)
           (72 + speedLimitPercent p * 440 / 100)
           (1 + accRatePercent p * 29 / 100)
           (1 + decRatePercent p * 29 / 100)
           (FWD_LEFT_TRIM c) (REV_LEFT_TRIM c) (FWD_RIGHT_TRIM c)
           (REV_RIGHT_TRIM c).
Proof.
  intros (Hf & Hr & Hl & Hg & Hs & Ha & Hd). unfold Setup.saveDerive.
  unfold MAX_FORWARD_THRESH, MIN_FORWARD_THRESH, MIN_REVERSE_THRESH,
    MAX_REVERSE_THRESH, MIN_LEFT_THRESH, MAX_LEFT_THRESH, MAX_RIGHT_THRESH,
    MIN_RIGHT_THRESH, MIN_SPEED_LIMIT, MAX_SPEED_LIMIT, MIN_INCREASE_RAMPING,
    MAX_INCREASE_RAMPING, MIN_DECREASE_RAMPING, MAX_DECREASE_RAMPING.
  rewrite (map_percent (forwardSensPercent p) 600 1000) by lia.
  rewrite (map_percent (rightSensPercent p) 600 1000) by lia.
  rewrite (map_percent (reverseSensPercent p) 0 400) by lia.
  rewrite (map_percent (leftSensPercent p) 0 400) by lia.
  rewrite (map_percent (speedLimitPercent p) 72 512) by lia.
  rewrite (map_percent (accRatePercent p) 1 30) by lia.
  rewrite (map_percent (decRatePercent p) 1 30) by lia.
  f_equal; (rewrite u16_small || rewrite s16_small);
    Z.div_mod_to_equations; lia.
Qed.

(** X5.  Whichever of the two derivations produced the thresholds, from
    percentages in [0, 100], the negative bound of each axis is at most 400
    and the positive bound at least 600, so no single reading is above the
    positive and below the negative threshold of its axis. *)
Theorem X5_deadzones_never_overlap
  (p : Percents) (t : Trims) (c cfg : Config) (reading : Z) :
  percentsValid p ->
  cfg = Setup.setupDerive p t \/ cfg = Setup.saveDerive p c ->
  reverseThresh cfg <= 400 /\ 600 <= forwardThresh cfg /\
  leftThresh cfg <= 400 /\ 600 <= rightThresh cfg /\
  (u16 reading >? rightThresh cfg) && (u16 reading <? leftThresh cfg) = false /\
  (u16 reading >? forwardThresh cfg) && (u16 reading <? reverseThresh cfg) = false.
Proof.
  intros Hp Hc.
  assert (B : reverseThresh cfg <= 400 /\ 600 <= forwardThresh cfg /\
              leftThresh cfg <= 400 /\ 600 <= rightThresh cfg).
  { destruct Hp as (Hf & Hr & Hl & Hg & Hs & Ha & Hd).
    destruct Hc as [-> | ->].
    - rewrite setupDerive_values by assumption.
      cbn [reverseThresh forwardThresh leftThresh rightThresh]. lia.
    - rewrite saveDerive_values by (repeat split; lia).
      cbn [reverseThresh forwardThresh leftThresh rightThresh]. lia. }
  destruct B as (B1 & B2 & B3 & B4).
  repeat split; try assumption.
  - destruct (Z.gtb_spec (u16 reading) (rightThresh cfg)); [|reflexivity].
    destruct (Z.ltb_spec (u16 reading) (leftThresh cfg)); [lia|reflexivity].
  - destruct (Z.gtb_spec (u16 reading) (forwardThresh cfg)); [|reflexivity].
    destruct (Z.ltb_spec (u16 reading) (reverseThresh cfg)); [lia|reflexivity].
Qed.

Lemma X5_deadzones_never_overlap_witness :
  let p := mkPercents 50 50 50 50 50 50 50 in
  percentsValid p /\
  reverseThresh (Setup.saveDerive p (Setup.defaultConfig sourceTrims)) <= 400.
Proof.
  intro p.
  assert (H : percentsValid p) by (vm_compute; repeat split; discriminate).
  split; [exact H|].
  exact (proj1 (X5_deadzones_never_overlap p sourceTrims
                  (Setup.defaultConfig sourceTrims)
                  (Setup.saveDerive p (Setup.defaultConfig sourceTrims)) 512
                  H (or_intror eq_refl))).
Defined.

(** ** The ramp of [drive] *)

Lemma leftDrive_ideal c v q :
  1 <= accRate c <= 500 -> -512 <= v <= 512 ->
  accRate c <= q <= 1000 ->
  Drive.leftDrive c v q =
  (if q + accRate c <? Drive.mapDriveSpeed v then q + accRate c
   else if Drive.mapDriveSpeed v <? q - accRate c then q - accRate c
   else Drive.mapDriveSpeed v).
Proof.
  intros Ha Hv Hq.
  pose proof (mapDriveSpeed_range v Hv) as Ht.
  assert (Hq' : speedInRange q) by (unfold_consts; lia).
  pose proof (leftDrive_cases c v q ltac:(lia) Hq' Ht) as H. cbv zeta in H.
  destruct (Z.ltb_spec (q + accRate c) (Drive.mapDriveSpeed v));
    destruct (Z.ltb_spec (Drive.mapDriveSpeed v) (q - accRate c)); lia.
Qed.

Lemma rightDrive_ideal c v q :
  1 <= accRate c <= 500 -> -512 <= v <= 512 ->
  accRate c <= q <= 1000 -> Drive.mapDriveSpeed v < 1000 ->
  Drive.rightDrive c v q =
  (if q + accRate c <? Drive.mapDriveSpeed v then q + accRate c
   else if Drive.mapDriveSpeed v <? q - accRate c then q - accRate c
   else Drive.mapDriveSpeed v).
Proof.
  intros Ha Hv Hq Hfull.
  pose proof (mapDriveSpeed_range v Hv) as Ht.
  assert (Hq' : speedInRange q) by (unfold_consts; lia).
  pose proof (rightDrive_cases c v q ltac:(lia) Hq' Ht) as H. cbv zeta in H.
  destruct (Z.ltb_spec (q + accRate c) (Drive.mapDriveSpeed v));
    destruct (Z.ltb_spec (Drive.mapDriveSpeed v) (q - accRate c)); lia.
Qed.

Lemma rampedSpeed_step acc p t n :
  1 <= acc -> acc <= p <= 1000 -> acc <= t <= 1000 ->
  let q := rampedSpeed acc p t n in
  acc <= q <= 1000 /\
  rampedSpeed acc p t (S n) =
  (if q + acc <? t then q + acc else if t <? q - acc then q - acc else t).
Proof.
  intros Ha Hp Ht q. subst q. unfold rampedSpeed.
  rewrite Nat2Z.inj_succ. rewrite Z.mul_succ_l.
  assert (Hm : 0 <= Z.of_nat n * acc) by nia.
  set (m := Z.of_nat n * acc) in *. clearbody m.
  destruct (Z.leb_spec p t).
  - split; [lia|].
    destruct (Z.ltb_spec (Z.min t (p + m) + acc) t);
      destruct (Z.ltb_spec t (Z.min t (p + m) - acc)); lia.
  - split; [lia|].
    destruct (Z.ltb_spec (Z.max t (p - m) + acc) t);
      destruct (Z.ltb_spec t (Z.max t (p - m) - acc)); lia.
Qed.

(** X6.  With the same input speed held, a speed of at least [accRate]
    and a mapped target of at least [accRate], the left motor block of
    [drive] takes the speed after [n] passes to the target if [n] steps of
    [accRate] cover the distance, and [n] steps of [accRate] towards the
    target otherwise; the right motor block does the same for a target
    below full scale. *)
Theorem X6_ramp_closed_form (c : Config) (v p : Z) (n : nat) :
  1 <= accRate c <= 500 -> -512 <= v <= 512 ->
  accRate c <= p <= 1000 -> accRate c <= Drive.mapDriveSpeed v ->
  Nat.iter n (Drive.leftDrive c v) p =
    rampedSpeed (accRate c) p (Drive.mapDriveSpeed v) n /\
  (Drive.mapDriveSpeed v < 1000 ->
   Nat.iter n (Drive.rightDrive c v) p =
     rampedSpeed (accRate c) p (Drive.mapDriveSpeed v) n).
Proof.
  intros Ha Hv Hp Ht.
  pose proof (mapDriveSpeed_range v Hv) as Hr. unfold_consts.
  assert (Ht' : accRate c <= Drive.mapDriveSpeed v <= 1000) by lia.
  split; [|intro Hfull]; induction n as [|n IH].
  - unfold rampedSpeed, Nat.iter. cbn [nat_rect Z.of_nat]. rewrite Z.mul_0_l.
    destruct (Z.leb_spec p (Drive.mapDriveSpeed v)); lia.
  - rewrite Nat.iter_succ. rewrite IH.
    destruct (rampedSpeed_step (accRate c) p (Drive.mapDriveSpeed v) n
                ltac:(lia) Hp Ht') as [Hq E].
    rewrite E. apply leftDrive_ideal; assumption.
  - unfold rampedSpeed, Nat.iter. cbn [nat_rect Z.of_nat]. rewrite Z.mul_0_l.
    destruct (Z.leb_spec p (Drive.mapDriveSpeed v)); lia.
  - rewrite Nat.iter_succ. rewrite IH.
    destruct (rampedSpeed_step (accRate c) p (Drive.mapDriveSpeed v) n
                ltac:(lia) Hp Ht') as [Hq E].
    rewrite E. apply rightDrive_ideal; assumption.
Qed.

Lemma X6_ramp_closed_form_witness :
  let c := Setup.defaultConfig sourceTrims in
  1 <= accRate c <= 500 /\
  Nat.iter 17 (Drive.leftDrive c 256) 500 =
  rampedSpeed (accRate c) 500 (Drive.mapDriveSpeed 256) 17.
Proof.
  intro c.
  assert (H : 1 <= accRate c <= 500) by (vm_compute; split; discriminate).
  split; [exact H|].
  apply (X6_ramp_closed_form c 256 500 17 H);
    vm_compute; try split; discriminate.
Defined.

(** X7.  A motor whose speed is below [accRate] and whose mapped target is
    not more than [accRate] above that speed is sent to 0 by either block
    of [drive], whatever the target: the unsigned comparison with
    [prev - accRate] takes the decrease branch.  So a target strictly
    between 0 and [accRate] is not held. *)
Theorem X7_low_speed_falls_to_zero (c : Config) (v p : Z) :
  0 <= accRate c <= 500 -> -512 <= v <= 512 ->
  0 <= p < accRate c -> Drive.mapDriveSpeed v <= p + accRate c ->
  Drive.leftDrive c v p = 0 /\ Drive.rightDrive c v p = 0.
Proof.
  intros Ha Hv Hp Ht.
  pose proof (mapDriveSpeed_range v Hv) as Hr. unfold_consts.
  unfold Drive.leftDrive, Drive.rightDrive.
  set (t := Drive.mapDriveSpeed v) in *. clearbody t.
  rewrite full_scale. rewrite !u16_s16.
  rewrite (u16_small (p + accRate c)) by lia.
  rewrite (u16_neg (p - accRate c)) by lia.
  rewrite (s16_small (p - accRate c)) by lia.
  destruct (Z.gtb_spec t (p + accRate c)); [lia|].
  destruct (Z.ltb_spec t (p - accRate c + 65536)); [|lia].
  destruct (Z.gtb_spec (p - accRate c) 0); [lia|]. split; reflexivity.
Qed.

Lemma X7_low_speed_falls_to_zero_witness :
  let c := mkConfig 600 400 400 600 485 30 30 0 0 4 0 in
  0 <= accRate c <= 500 /\ Drive.mapDriveSpeed (-485) = 26 /\
  Drive.leftDrive c (-485) 26 = 0.
Proof.
  intro c.
  assert (H : 0 <= accRate c <= 500) by (vm_compute; split; discriminate).
  split; [exact H|]. split; [reflexivity|].
  apply (X7_low_speed_falls_to_zero c (-485) 26 H);
    vm_compute; repeat split; try discriminate.
Defined.

(** ** The length of a resync *)

Lemma resyncSteps_near d dist :
  1 <= d -> 0 <= dist <= d -> resyncSteps d dist = 0.
Proof.
  intros Hd H. unfold resyncSteps.
  assert ((dist - 1) / d < 1) by (apply Z.div_lt_upper_bound; lia). lia.
Qed.

Lemma resyncSteps_far d dist :
  1 <= d -> d < dist -> resyncSteps d dist = 1 + resyncSteps d (dist - d).
Proof.
  intros Hd H. unfold resyncSteps.
  replace (dist - 1) with (dist - d - 1 + 1 * d) by lia.
  rewrite Z.div_add by lia.
  assert (0 <= (dist - d - 1) / d) by (apply Z.div_pos; lia). lia.
Qed.

Lemma resyncSteps_nonneg d dist : 0 <= resyncSteps d dist.
Proof. unfold resyncSteps. lia. Qed.

Lemma resetMoves_steps d p b p' b' :
  1 <= d -> resetMoves d p b p' b' -> (b = true -> nearNeutral d p) ->
  (b' = b /\ ~ nearNeutral d p /\
   resyncSteps d (Z.abs (p - NEUTRAL_SPEED)) =
   1 + resyncSteps d (Z.abs (p' - NEUTRAL_SPEED))) \/
  (b' = true /\ nearNeutral d p /\ p' = p /\
   resyncSteps d (Z.abs (p - NEUTRAL_SPEED)) = 0).
Proof.
  unfold resetMoves. unfold_consts. intros Hd H Hon.
  destruct H as [(A & -> & E)|[(A & -> & E)|(A & -> & E)]].
  - left. split; [exact E|]. split; [lia|].
    rewrite (resyncSteps_far d (Z.abs (p - 500))) by lia.
    do 2 f_equal. lia.
  - left. split; [exact E|]. split; [lia|].
    rewrite (resyncSteps_far d (Z.abs (p - 500))) by lia.
    do 2 f_equal. lia.
  - right. split; [exact E|]. split; [exact A|]. split; [reflexivity|].
    apply resyncSteps_near; lia.
Qed.

Lemma resetLoop_count c :
  1 <= decRate c <= 500 ->
  forall (fuel : nat) (s : DriveState),
    speedsInRange s -> flagsHonest (decRate c) s ->
    directionChanged s = true -> (resetMeasure s < fuel)%nat ->
    exists s' outs,
      Drive.resetLoop fuel c (prevLeft s, prevRight s) s = Some (s', outs) /\
      Z.of_nat (length outs) =
        1 + Z.max (resyncSteps (decRate c) (Z.abs (prevLeft s - NEUTRAL_SPEED)))
                  (resyncSteps (decRate c) (Z.abs (prevRight s - NEUTRAL_SPEED))) /\
      (nearNeutral (decRate c) (prevLeft s) ->
       prevLeft s' = prevLeft s /\
       Forall (fun o => leftMotorPulse o = REVERSE_PULSE + prevLeft s) outs) /\
      (nearNeutral (decRate c) (prevRight s) ->
       prevRight s' = prevRight s /\
       Forall (fun o => rightMotorPulse o = REVERSE_PULSE + prevRight s) outs).
Proof.
  intros Hd. induction fuel as [|fuel IH]; intros s Hs Hon Hdc Hm; [lia|].
  destruct (resetIteration_spec c s ltac:(lia) Hs)
    as (l' & lc & r' & rc & ML & MR & EI).
  rewrite Hdc in EI. cbn [Drive.resetLoop]. rewrite Hdc, EI.
  destruct Hon as [HonL HonR].
  pose proof (resetMoves_steps _ _ _ _ _ (proj1 Hd) ML HonL) as SL.
  pose proof (resetMoves_steps _ _ _ _ _ (proj1 Hd) MR HonR) as SR.
  pose proof (resyncSteps_nonneg (decRate c) (Z.abs (l' - NEUTRAL_SPEED))) as NL.
  pose proof (resyncSteps_nonneg (decRate c) (Z.abs (r' - NEUTRAL_SPEED))) as NR.
  set (s1 := mkState (prevLeftMotorSpeed s) (prevRightMotorSpeed s)
                     (if lc && rc then false else true) lc rc l' r').
  destruct Hs as [Hl Hr].
  assert (Hs1 : speedsInRange s1).
  { split; unfold s1; cbn [prevLeft prevRight].
    - eapply resetMoves_range; [| exact Hl | exact ML]; lia.
    - eapply resetMoves_range; [| exact Hr | exact MR]; lia. }
  assert (Hon1 : flagsHonest (decRate c) s1).
  { split; unfold s1; cbn [prevLeft prevRight leftResetComplete
                           rightResetComplete]; intro E.
    - eapply resetMoves_honest; [| exact ML | exact HonL | exact E]; lia.
    - eapply resetMoves_honest; [| exact MR | exact HonR | exact E]; lia. }
  destruct (lc && rc) eqn:Hb.
  - rewrite resetLoop_done by reflexivity.
    exists s1, [mkPulse (REVERSE_PULSE + l') (REVERSE_PULSE + r')].
    apply andb_prop in Hb. destruct Hb as [-> ->].
    split; [reflexivity|]. split.
    { cbn [length]. destruct SL as [(F & NN & _)|(_ & _ & _ & ->)].
      - exfalso. apply NN, HonL. symmetry. exact F.
      - destruct SR as [(F & NN & _)|(_ & _ & _ & ->)]; [|lia].
        exfalso. apply NN, HonR. symmetry. exact F. }
    split.
    + intro N. destruct SL as [(_ & F & _)|(_ & _ & -> & _)]; [contradiction|].
      split; [reflexivity|]. constructor; [reflexivity | constructor].
    + intro N. destruct SR as [(_ & F & _)|(_ & _ & -> & _)]; [contradiction|].
      split; [reflexivity|]. constructor; [reflexivity | constructor].
  - assert (Hm1 : (resetMeasure s1 < fuel)%nat).
    { pose proof (resetMoves_measure _ _ _ _ _ _ _ _ _ (proj1 Hd) ML MR Hb) as D.
      unfold resetMeasure in *. unfold s1. cbn [prevLeft prevRight]. lia. }
    destruct (IH s1 Hs1 Hon1 eq_refl Hm1) as (s' & outs & E & Len & EL & ER).
    unfold s1 in Len, EL, ER. cbn [prevLeft prevRight] in Len, EL, ER.
    change (prevLeft s1) with l' in E. change (prevRight s1) with r' in E.
    rewrite E.
    exists s', (mkPulse (REVERSE_PULSE + l') (REVERSE_PULSE + r') :: outs).
    split; [reflexivity|]. split.
    { cbn [length]. rewrite Nat2Z.inj_succ, Len.
      destruct SL as [(B1 & _ & Z1)|(B1 & _ & E1 & Z1)];
        destruct SR as [(B2 & _ & Z2)|(B2 & _ & E2 & Z2)].
      - lia.
      - subst r'. lia.
      - subst l'. lia.
      - subst lc rc. discriminate. }
    split.
    + intro N. destruct SL as [(_ & F & _)|(_ & _ & -> & _)]; [contradiction|].
      destruct (EL N) as [A B]. split; [exact A|].
      constructor; [reflexivity | exact B].
    + intro N. destruct SR as [(_ & F & _)|(_ & _ & -> & _)]; [contradiction|].
      destruct (ER N) as [A B]. split; [exact A|].
      constructor; [reflexivity | exact B].
Qed.

(** X8.  Entered in the RESYNCING state the loop of [resetMotorSpeeds]
    writes exactly 1 + max (nL, nR) pulse pairs, where a motor at distance
    [dist] from neutral speed contributes [resyncSteps decRate dist] =
    max (0, (dist - 1) / decRate) moves.  A resync therefore costs at
    least one pulse pair, also when both motors are already at neutral. *)
Theorem X8_resync_pulse_count (c : Config) (s : DriveState) (fuel : nat) :
  MIN_DECREASE_RAMPING <= decRate c <= NEUTRAL_SPEED ->
  speedsInRange s -> resyncing s -> (500 < fuel)%nat ->
  exists s' outs,
    Drive.resetMotorSpeeds fuel c s = Some (s', outs) /\
    Z.of_nat (length outs) =
      1 + Z.max (resyncSteps (decRate c) (Z.abs (prevLeft s - NEUTRAL_SPEED)))
                (resyncSteps (decRate c) (Z.abs (prevRight s - NEUTRAL_SPEED))).
Proof.
  unfold MIN_DECREASE_RAMPING, NEUTRAL_SPEED at 1.
  intros Hd Hs (Hdc & Fl & Fr) Hf.
  pose proof (resetMeasure_bound s Hs) as Hb.
  assert (Hon : flagsHonest (decRate c) s)
    by (split; intro E; congruence).
  destruct (resetLoop_count c Hd fuel s Hs Hon Hdc ltac:(lia))
    as (s' & outs & E & Len & _).
  exists s', outs. split; [|exact Len].
  unfold Drive.resetMotorSpeeds. destruct Hs as [Hl Hr].
  rewrite (u16_small (prevLeft s)) by (unfold_consts; lia).
  rewrite (u16_small (prevRight s)) by (unfold_consts; lia).
  exact E.
Qed.

Lemma X8_resync_pulse_count_witness :
  let c := Setup.defaultConfig sourceTrims in
  let s := mkState 512 512 true false false 1000 530 in
  exists s' outs,
    Drive.resetMotorSpeeds 501 c s = Some (s', outs) /\
    Z.of_nat (length outs) = 1 + Z.max 24 1.
Proof.
  intros c s.
  destruct (X8_resync_pulse_count c s 501
              ltac:(vm_compute; split; discriminate)
              ltac:(vm_compute; repeat split; discriminate)
              ltac:(repeat split) ltac:(lia))
    as (s' & outs & E & Len).
  exists s', outs. split; [exact E|]. rewrite Len. reflexivity.
Defined.

(** X9.  A motor that is within [decRate] of neutral speed when the resync
    starts is not moved by it: every pulse the loop writes to that motor
    repeats its current speed, and the speed is unchanged when the loop
    ends, however long the other motor takes. *)
Theorem X9_resync_holds_motor_near_neutral (c : Config) (s : DriveState)
        (fuel : nat) :
  MIN_DECREASE_RAMPING <= decRate c <= NEUTRAL_SPEED ->
  speedsInRange s -> resyncing s -> (500 < fuel)%nat ->
  exists s' outs,
    Drive.resetMotorSpeeds fuel c s = Some (s', outs) /\
    (nearNeutral (decRate c) (prevLeft s) ->
     prevLeft s' = prevLeft s /\
     Forall (fun o => leftMotorPulse o = REVERSE_PULSE + prevLeft s) outs) /\
    (nearNeutral (decRate c) (prevRight s) ->
     prevRight s' = prevRight s /\
     Forall (fun o => rightMotorPulse o = REVERSE_PULSE + prevRight s) outs).
Proof.
  unfold MIN_DECREASE_RAMPING, NEUTRAL_SPEED at 1.
  intros Hd Hs (Hdc & Fl & Fr) Hf.
  pose proof (resetMeasure_bound s Hs) as Hb.
  assert (Hon : flagsHonest (decRate c) s)
    by (split; intro E; congruence).
  destruct (resetLoop_count c Hd fuel s Hs Hon Hdc ltac:(lia))
    as (s' & outs & E & _ & EL & ER).
  exists s', outs. split; [|split; assumption].
  unfold Drive.resetMotorSpeeds. destruct Hs as [Hl Hr].
  rewrite (u16_small (prevLeft s)) by (unfold_consts; lia).
  rewrite (u16_small (prevRight s)) by (unfold_consts; lia).
  exact E.
Qed.

Lemma X9_resync_holds_motor_near_neutral_witness :
  let c := Setup.defaultConfig sourceTrims in
  let s := mkState 512 512 true false false 1000 515 in
  exists s' outs,
    Drive.resetMotorSpeeds 501 c s = Some (s', outs) /\
    prevRight s' = 515 /\
    Forall (fun o => rightMotorPulse o = REVERSE_PULSE + 515) outs.
Proof.
  intros c s.
  destruct (X9_resync_holds_motor_near_neutral c s 501
              ltac:(vm_compute; split; discriminate)
              ltac:(vm_compute; repeat split; discriminate)
              ltac:(repeat split) ltac:(lia))
    as (s' & outs & E & _ & R).
  exists s', outs. split; [exact E|].
  apply R. vm_compute. discriminate.
Defined.

(** ** Pulses written per pass of [loop] *)

Lemma drive_length c nl nr s fuel :
  1 <= decRate c <= 500 -> speedsInRange s -> (500 < fuel)%nat ->
  (directionChanged s = true ->
   leftResetComplete s = false /\ rightResetComplete s = false) ->
  exists s' outs,
    Drive.drive fuel c nl nr s = Some (s', outs) /\
    Z.of_nat (length outs) =
      if directionChanged s
      then 2 + Z.max (resyncSteps (decRate c) (Z.abs (prevLeft s - NEUTRAL_SPEED)))
                     (resyncSteps (decRate c) (Z.abs (prevRight s - NEUTRAL_SPEED)))
      else 1.
Proof.
  intros Hd Hs Hf Hfl. unfold Drive.drive.
  destruct (directionChanged s) eqn:Hdc.
  - destruct (Hfl eq_refl) as [Fl Fr].
    pose proof (resetMeasure_bound s Hs) as Hb.
    assert (Hon : flagsHonest (decRate c) s)
      by (split; intro E; congruence).
    destruct (resetLoop_count c Hd fuel s Hs Hon Hdc ltac:(lia))
      as (s' & outs & E & Len & _).
    unfold Drive.resetMotorSpeeds. destruct Hs as [Hl Hr].
    rewrite (u16_small (prevLeft s)) by (unfold_consts; lia).
    rewrite (u16_small (prevRight s)) by (unfold_consts; lia).
    rewrite E. destruct (Drive.driveMotors c nl nr s') as [s2 p].
    exists s2, (outs ++ [p]). split; [reflexivity|].
    rewrite length_app. cbn [length]. lia.
  - destruct (Drive.driveMotors c nl nr s) as [s2 p].
    exists s2, ([] ++ [p]). split; reflexivity.
Qed.

Lemma cycle_length c j s fuel :
  validConfig c -> betweenCycles c s -> (500 < fuel)%nat ->
  let mv := fst (Joystick.getJoystickInputs c j) in
  let rv := snd (Joystick.getJoystickInputs c j) in
  let l := fst (Joystick.targetSpeeds c mv rv) in
  let r := snd (Joystick.targetSpeeds c mv rv) in
  exists s' outs,
    Drive.cycle fuel c j s = Some (s', outs) /\
    betweenCycles c s' /\
    prevLeftMotorSpeed s' = l /\ prevRightMotorSpeed s' = r /\
    Z.of_nat (length outs) =
      if (l =? prevLeftMotorSpeed s) && (r =? prevRightMotorSpeed s)
      then 1
      else 2 + Z.max (resyncSteps (decRate c) (Z.abs (prevLeft s - NEUTRAL_SPEED)))
                     (resyncSteps (decRate c) (Z.abs (prevRight s - NEUTRAL_SPEED))).
Proof.
  intros Hc Hb Hf. cbv zeta.
  destruct (cycle_spec c j s fuel Hc Hb Hf) as (s' & outs & E & Hb' & _).
  exists s', outs. split; [exact E|]. split; [exact Hb'|].
  destruct Hb as (Hdc & Hs & _).
  pose proof (cycle_targets_in_domain c j Hc) as [Dl Dr]. cbv zeta in Dl, Dr.
  destruct Hc as (_ & (Ra & Rd) & _).
  unfold MIN_INCREASE_RAMPING, MAX_INCREASE_RAMPING, MIN_DECREASE_RAMPING,
    MAX_DECREASE_RAMPING in Ra, Rd.
  unfold Drive.cycle in E.
  destruct (Joystick.getJoystickInputs c j) as [mv rv].
  cbn [fst snd] in *.
  unfold Drive.setLeftRightMotorSpeeds in E.
  destruct (Joystick.targetSpeeds c mv rv) as [l r]. cbn [fst snd] in *.
  set (s1 := Drive.storeTargets l r (Drive.interlock l r s)) in E.
  assert (Hst : prevLeftMotorSpeed s1 = l /\ prevRightMotorSpeed s1 = r /\
                prevLeft s1 = prevLeft s /\ prevRight s1 = prevRight s /\
                directionChanged s1 =
                  negb ((l =? prevLeftMotorSpeed s) && (r =? prevRightMotorSpeed s)) /\
                (directionChanged s1 = true ->
                 leftResetComplete s1 = false /\ rightResetComplete s1 = false)).
  { unfold s1, Drive.interlock.
    destruct (l =? prevLeftMotorSpeed s), (r =? prevRightMotorSpeed s);
      cbn [negb orb andb Drive.storeTargets Drive.signalChange directionChanged
           prevLeftMotorSpeed prevRightMotorSpeed prevLeft prevRight
           leftResetComplete rightResetComplete];
      repeat split; try assumption; try congruence. }
  destruct Hst as (E1 & E2 & E3 & E4 & E5 & E6).
  assert (Hs1 : speedsInRange s1).
  { destruct Hs as [A B]. split; [rewrite E3 | rewrite E4]; assumption. }
  destruct (drive_spec c (s16 l) (s16 r) s1 fuel ltac:(lia) ltac:(lia)
              Hs1 Dl Dr Hf) as (t & o & Et & _ & _ & PL & PR & _).
  destruct (drive_length c (s16 l) (s16 r) s1 fuel ltac:(lia) Hs1 Hf E6)
    as (t' & o' & Et' & Len).
  rewrite E in Et. injection Et as <- <-.
  rewrite E in Et'. injection Et' as <- <-.
  rewrite PL, PR, E1, E2. split; [reflexivity|]. split; [reflexivity|].
  rewrite Len, E5, E3, E4.
  destruct ((l =? prevLeftMotorSpeed s) && (r =? prevRightMotorSpeed s));
    reflexivity.
Qed.

(** X10.  Pulses per pass of [loop].  A pass whose joystick reading gives
    the stored targets writes one pulse pair; a pass whose reading changes
    a target writes 2 + max (nL, nR) pulse pairs, the resync to neutral
    followed by the first step of the ramp; and a second pass with the same
    reading writes one pulse pair again. *)
Theorem X10_pulses_per_pass (c : Config) (j : JoystickReads) (s : DriveState)
        (fuel : nat) :
  validConfig c -> betweenCycles c s -> (500 < fuel)%nat ->
  let mv := fst (Joystick.getJoystickInputs c j) in
  let rv := snd (Joystick.getJoystickInputs c j) in
  let l := fst (Joystick.targetSpeeds c mv rv) in
  let r := snd (Joystick.targetSpeeds c mv rv) in
  exists s1 o1 s2 o2,
    Drive.cycle fuel c j s = Some (s1, o1) /\
    Drive.cycle fuel c j s1 = Some (s2, o2) /\
    length o2 = 1%nat /\
    (l = prevLeftMotorSpeed s /\ r = prevRightMotorSpeed s ->
     length o1 = 1%nat) /\
    (l <> prevLeftMotorSpeed s \/ r <> prevRightMotorSpeed s ->
     Z.of_nat (length o1) =
       2 + Z.max (resyncSteps (decRate c) (Z.abs (prevLeft s - NEUTRAL_SPEED)))
                 (resyncSteps (decRate c) (Z.abs (prevRight s - NEUTRAL_SPEED)))).
Proof.
  intros Hc Hb Hf. cbv zeta.
  destruct (cycle_length c j s fuel Hc Hb Hf)
    as (s1 & o1 & E1 & B1 & PL & PR & Len1). cbv zeta in PL, PR, Len1.
  destruct (cycle_length c j s1 fuel Hc B1 Hf)
    as (s2 & o2 & E2 & _ & _ & _ & Len2). cbv zeta in Len2.
  rewrite PL, PR, !Z.eqb_refl in Len2. cbn [andb] in Len2.
  exists s1, o1, s2, o2.
  split; [exact E1|]. split; [exact E2|]. split; [lia|]. split.
  - intros [A B]. rewrite A, B, !Z.eqb_refl in Len1. cbn [andb] in Len1. lia.
  - intros H. rewrite Len1.
    destruct (Z.eqb_spec (fst (Joystick.targetSpeeds c
                (fst (Joystick.getJoystickInputs c j))
                (snd (Joystick.getJoystickInputs c j))))
              (prevLeftMotorSpeed s));
      destruct (Z.eqb_spec (snd (Joystick.targetSpeeds c
                  (fst (Joystick.getJoystickInputs c j))
                  (snd (Joystick.getJoystickInputs c j))))
                (prevRightMotorSpeed s));
      cbn [andb]; try reflexivity.
    destruct H; contradiction.
Qed.

Lemma X10_pulses_per_pass_witness :
  let c := Setup.defaultConfig sourceTrims in
  exists s1 o1 s2 o2,
    Drive.cycle 501 c stickForward coldStart = Some (s1, o1) /\
    Drive.cycle 501 c stickForward s1 = Some (s2, o2) /\
    length o2 = 1%nat /\ Z.of_nat (length o1) = 2.
Proof.
  intro c.
  assert (Hc : validConfig c) by (vm_compute; repeat split; discriminate).
  assert (Hb : betweenCycles c coldStart).
  { split; [reflexivity|].
    split; [vm_compute; repeat split; discriminate|].
    split; left; vm_compute; discriminate. }
  destruct (X10_pulses_per_pass c stickForward coldStart 501 Hc Hb ltac:(lia))
    as (s1 & o1 & s2 & o2 & E1 & E2 & L2 & _ & L1).
  exists s1, o1, s2, o2.
  split; [exact E1|]. split; [exact E2|]. split; [exact L2|].
  apply L1. left. vm_compute. discriminate.
Defined.

(** ** The touchscreen menu *)

Lemma u8_small z : 0 <= z < 256 -> u8 z = z.
Proof. intro H. unfold u8. apply Z.mod_small. exact H. Qed.

Lemma adjustPercent_up incAmount percent :
  0 <= percent <= 100 ->
  Touch.adjustPercent "U" incAmount percent = Z.min 100 (percent + u8 incAmount).
Proof.
  intro H. unfold Touch.adjustPercent.
  pose proof (u8_range incAmount) as B.
  change (Ascii.eqb "U" "U") with true. cbn [andb].
  destruct (Z.eqb_spec percent 100) as [E|E]; cbn [negb].
  - change (Ascii.eqb "U" "D") with false. cbn [andb]. lia.
  - rewrite u16_small by lia.
    destruct (Z.gtb_spec (percent + u8 incAmount) 100); lia.
Qed.

Lemma adjustPercent_down incAmount percent :
  0 <= percent <= 100 ->
  Touch.adjustPercent "D" incAmount percent = Z.max 0 (percent - u8 incAmount).
Proof.
  intro H. unfold Touch.adjustPercent.
  pose proof (u8_range incAmount) as B.
  change (Ascii.eqb "D" "U") with false. change (Ascii.eqb "D" "D") with true.
  cbn [andb].
  destruct (Z.eqb_spec percent 0) as [E|E]; cbn [negb]; [lia|].
  destruct (Z_lt_le_dec (percent - u8 incAmount) 0).
  - rewrite u16_neg by lia.
    destruct (Z.gtb_spec (percent - u8 incAmount + 65536) 100); lia.
  - rewrite u16_small by lia.
    destruct (Z.gtb_spec (percent - u8 incAmount) 100); lia.
Qed.

(** X11.  The two unsigned tests against 100 in each [case] of
    [updateSensitivityReadout] and [updateMotionCharReadout] implement
    saturating arithmetic: for a percentage in [0, 100] and any [uint8_t]
    increment, up gives min (100, p + inc) and down gives max (0, p - inc);
    any other direction character leaves the percentage alone.  When
    neither saturates, a press on the opposite button undoes a press. *)
Theorem X11_adjust_saturates (incAmount percent : Z) :
  0 <= percent <= 100 ->
  Touch.adjustPercent "U" incAmount percent
    = Z.min 100 (percent + u8 incAmount) /\
  Touch.adjustPercent "D" incAmount percent
    = Z.max 0 (percent - u8 incAmount) /\
  (forall ch : ascii, ch <> "U"%char -> ch <> "D"%char ->
     Touch.adjustPercent ch incAmount percent = percent) /\
  (percent + u8 incAmount <= 100 ->
   Touch.adjustPercent "D" incAmount
     (Touch.adjustPercent "U" incAmount percent) = percent) /\
  (0 <= percent - u8 incAmount ->
   Touch.adjustPercent "U" incAmount
     (Touch.adjustPercent "D" incAmount percent) = percent).
Proof.
  intro H. pose proof (u8_range incAmount) as B.
  split; [apply adjustPercent_up; exact H|].
  split; [apply adjustPercent_down; exact H|].
  split.
  { intros ch NU ND. unfold Touch.adjustPercent.
    destruct (Ascii.eqb_spec ch "U") as [E|_]; [contradiction|].
    destruct (Ascii.eqb_spec ch "D") as [E|_]; [contradiction|].
    reflexivity. }
  split.
  - intro Hle. rewrite (adjustPercent_up incAmount percent H).
    rewrite adjustPercent_down by lia. lia.
  - intro Hge. rewrite (adjustPercent_down incAmount percent H).
    rewrite adjustPercent_up by lia. lia.
Qed.

Lemma X11_adjust_saturates_witness :
  Touch.adjustPercent "U" 10 95 = 100 /\
  Touch.adjustPercent "D" 10 5 = 0 /\
  Touch.adjustPercent "D" 5 (Touch.adjustPercent "U" 5 50) = 50.
Proof.
  destruct (X11_adjust_saturates 10 95 ltac:(lia)) as (U & _).
  destruct (X11_adjust_saturates 10 5 ltac:(lia)) as (_ & D & _).
  destruct (X11_adjust_saturates 5 50 ltac:(lia)) as (_ & _ & _ & R & _).
  split; [exact U|]. split; [exact D|].
  apply R. vm_compute. discriminate.
Defined.

Ltac percents_fields :=
  cbn [forwardSensPercent reverseSensPercent leftSensPercent rightSensPercent
       speedLimitPercent accRatePercent decRatePercent].

Lemma updateSensitivityReadout_valid row ud inc p :
  percentsValid p -> percentsValid (Menu.updateSensitivityReadout row ud inc p).
Proof.
  intros (H1 & H2 & H3 & H4 & H5 & H6 & H7).
  unfold Menu.updateSensitivityReadout. cbv zeta.
  repeat (match goal with
          | |- context [if ?b then _ else _] => destruct b
          end);
    unfold percentsValid; percents_fields;
    repeat split; try apply adjustPercent_range; lia.
Qed.

Lemma updateMotionCharReadout_valid row ud inc p :
  percentsValid p -> percentsValid (Menu.updateMotionCharReadout row ud inc p).
Proof.
  intros (H1 & H2 & H3 & H4 & H5 & H6 & H7).
  unfold Menu.updateMotionCharReadout. cbv zeta.
  repeat (match goal with
          | |- context [if ?b then _ else _] => destruct b
          end);
    unfold percentsValid; percents_fields;
    repeat split; try apply adjustPercent_range; lia.
Qed.

Lemma adjustByTouch_valid x y inc p :
  percentsValid p -> percentsValid (Menu.adjustByTouch x y inc p).
Proof.
  intro H. unfold Menu.adjustByTouch.
  repeat (match goal with
          | |- context [if Menu.within ?a ?b ?v then _ else _] =>
              destruct (Menu.within a b v)
          end);
    first [ exact H
          | apply updateSensitivityReadout_valid; exact H
          | apply updateMotionCharReadout_valid; exact H ].
Qed.

Lemma selectIncrement_valid x y inc :
  incrementValid inc -> incrementValid (Menu.selectIncrement x y inc).
Proof.
  intro H. unfold Menu.selectIncrement, incrementValid.
  repeat (match goal with
          | |- context [if Menu.within ?a ?b ?v then _ else _] =>
              destruct (Menu.within a b v)
          end); first [exact H | lia].
Qed.

Lemma handleTouch_valid a t x y m :
  percentsValid (Menu.percents m) -> incrementValid (Menu.readoutIncrement m) ->
  percentsValid (Menu.percents (Menu.handleTouch a t x y m)) /\
  incrementValid (Menu.readoutIncrement (Menu.handleTouch a t x y m)).
Proof.
  intros Hp Hi. unfold Menu.handleTouch.
  destruct (t >? Menu.u32 (Menu.prevTimePressed m + Menu.CONSECUTIVE_TOUCH_DELAY));
    [|split; assumption].
  cbv zeta.
  destruct (Menu.savePressed x y && a); cbn [Menu.percents Menu.readoutIncrement];
    (split; [apply adjustByTouch_valid; exact Hp
            | apply selectIncrement_valid; exact Hi]).
Qed.

(** X12.  Whatever is touched, and however often, the seven percentages
    stay in [0, 100] and the increment stays one of 1, 5 and 10. *)
Theorem X12_menu_keeps_settings_valid (a : bool) (ts : list (Z * Z * Z))
        (m : Menu.MenuState) :
  percentsValid (Menu.percents m) -> incrementValid (Menu.readoutIncrement m) ->
  percentsValid (Menu.percents (menuRun a ts m)) /\
  incrementValid (Menu.readoutIncrement (menuRun a ts m)).
Proof.
  unfold menuRun. revert m.
  induction ts as [|t ts IH]; intros m Hp Hi; cbn [fold_left].
  - split; assumption.
  - destruct (handleTouch_valid a (fst (fst t)) (snd (fst t)) (snd t) m Hp Hi)
      as [Hp' Hi'].
    apply IH; assumption.
Qed.

Lemma X12_menu_keeps_settings_valid_witness :
  let m := Menu.mkMenu (mkPercents 95 5 50 50 100 0 50) 10
                  (Setup.defaultConfig sourceTrims) (fun _ => 255) 0 in
  let ts := [(200, 1100, 2700); (400, 1500, 3700); (600, 2900, 3000)] in
  percentsValid (Menu.percents (menuRun true ts m)) /\
  incrementValid (Menu.readoutIncrement (menuRun true ts m)).
Proof.
  intros m ts.
  apply (X12_menu_keeps_settings_valid true ts m).
  - vm_compute. repeat split; discriminate.
  - right. right. reflexivity.
Defined.

(** ** Touch regions *)

Lemma within_spec lo hi v : Menu.within lo hi v = true <-> lo < v < hi.
Proof.
  unfold Menu.within. rewrite andb_true_iff.
  destruct (Z.gtb_spec v lo), (Z.ltb_spec v hi); intuition (try lia; discriminate).
Qed.

Lemma within_disjoint lo1 hi1 lo2 hi2 v :
  Menu.within lo1 hi1 v = true -> hi1 <= lo2 +1 \/ hi2 <= lo1 + 1 ->
  Menu.within lo2 hi2 v = false.
Proof.
  intros H D. apply within_spec in H.
  destruct (Menu.within lo2 hi2 v) eqn:E; [|reflexivity].
  apply within_spec in E. lia.
Qed.

Ltac menu_consts :=
  unfold Menu.L_BUTTON_R1_TOUCH_X1, Menu.L_BUTTON_R1_TOUCH_X2,
    Menu.L_BUTTON_R2_TOUCH_X1, Menu.L_BUTTON_R2_TOUCH_X2,
    Menu.L_BUTTON_R3_TOUCH_X1, Menu.L_BUTTON_R3_TOUCH_X2,
    Menu.L_BUTTON_R4_TOUCH_X1, Menu.L_BUTTON_R4_TOUCH_X2,
    Menu.L_BUTTON_C1_TOUCH_Y1, Menu.L_BUTTON_C1_TOUCH_Y2,
    Menu.L_BUTTON_C2_TOUCH_Y1, Menu.L_BUTTON_C2_TOUCH_Y2,
    Menu.INC_BTNS_TOUCH_X1, Menu.INC_BTNS_TOUCH_X2,
    Menu.x1_TOUCH_Y1, Menu.x1_TOUCH_Y2, Menu.x5_TOUCH_Y1, Menu.x5_TOUCH_Y2,
    Menu.x10_TOUCH_Y1, Menu.x10_TOUCH_Y2,
    Menu.SAVE_VAL_TOUCH_X1, Menu.SAVE_VAL_TOUCH_X2,
    Menu.SAVE_VAL_TOUCH_Y1, Menu.SAVE_VAL_TOUCH_Y2,
    Menu.R_BUTTON_R1_TOUCH_X1, Menu.R_BUTTON_R1_TOUCH_X2,
    Menu.R_BUTTON_R2_TOUCH_X1, Menu.R_BUTTON_R2_TOUCH_X2,
    Menu.R_BUTTON_R3_TOUCH_X1, Menu.R_BUTTON_R3_TOUCH_X2,
    Menu.R_BUTTON_C1_TOUCH_Y1, Menu.R_BUTTON_C1_TOUCH_Y2,
    Menu.R_BUTTON_C2_TOUCH_Y1, Menu.R_BUTTON_C2_TOUCH_Y2 in *.

(** Every extent test of [adjustByTouch] and [selectIncrement] is decided
    once the coordinates are known to lie in one extent: the tests are
    split into their comparisons and the impossible combinations dropped. *)
Ltac split_extents :=
  unfold Menu.within; menu_consts;
  repeat (match goal with
          | |- context [?v >? ?k] => destruct (Z.gtb_spec v k); try lia
          | |- context [?v <? ?k] => destruct (Z.ltb_spec v k); try lia
          end; cbn [andb]).

Lemma adjustByTouch_off_increment x y inc p :
  Menu.within Menu.INC_BTNS_TOUCH_X1 Menu.INC_BTNS_TOUCH_X2 x = true ->
  Menu.adjustByTouch x y inc p = p.
Proof.
  intro H. apply within_spec in H. unfold Menu.adjustByTouch.
  split_extents; reflexivity.
Qed.

Lemma savePressed_spec x y :
  Menu.savePressed x y = true <->
  Menu.SAVE_VAL_TOUCH_X1 < x < Menu.SAVE_VAL_TOUCH_X2 /\
  Menu.SAVE_VAL_TOUCH_Y2 < y < Menu.SAVE_VAL_TOUCH_Y1.
Proof.
  unfold Menu.savePressed. rewrite andb_true_iff, !within_spec. tauto.
Qed.

Lemma adjustByTouch_off_save x y inc p :
  Menu.savePressed x y = true -> Menu.adjustByTouch x y inc p = p.
Proof.
  intro H. apply savePressed_spec in H. destruct H as [Hx Hy].
  unfold Menu.adjustByTouch. split_extents; reflexivity.
Qed.

Lemma selectIncrement_off_save x y inc :
  Menu.savePressed x y = true -> Menu.selectIncrement x y inc = inc.
Proof.
  intro H. apply savePressed_spec in H. destruct H as [Hx Hy].
  unfold Menu.selectIncrement. split_extents; reflexivity.
Qed.

Lemma selectIncrement_changes x y inc :
  Menu.selectIncrement x y inc <> inc ->
  Menu.within Menu.INC_BTNS_TOUCH_X1 Menu.INC_BTNS_TOUCH_X2 x = true.
Proof.
  unfold Menu.selectIncrement.
  destruct (Menu.within Menu.INC_BTNS_TOUCH_X1 Menu.INC_BTNS_TOUCH_X2 x);
    [reflexivity | intro H; contradiction H; reflexivity].
Qed.

Lemma changedPercents_same p : changedPercents p p = 0%nat.
Proof. unfold changedPercents. rewrite !Z.eqb_refl. reflexivity. Qed.

Lemma updateSensitivityReadout_changes_one row ud inc p :
  (changedPercents p (Menu.updateSensitivityReadout row ud inc p) <= 1)%nat.
Proof.
  unfold Menu.updateSensitivityReadout. cbv zeta.
  repeat (match goal with
          | |- context [if u8 row =? ?k then _ else _] => destruct (u8 row =? k)
          end);
    try (rewrite changedPercents_same; lia);
    unfold changedPercents; percents_fields; rewrite !Z.eqb_refl;
    match goal with
    | |- context [if ?b then _ else _] => destruct b
    end; cbn; lia.
Qed.

Lemma updateMotionCharReadout_changes_one row ud inc p :
  (changedPercents p (Menu.updateMotionCharReadout row ud inc p) <= 1)%nat.
Proof.
  unfold Menu.updateMotionCharReadout. cbv zeta.
  repeat (match goal with
          | |- context [if u8 row =? ?k then _ else _] => destruct (u8 row =? k)
          end);
    try (rewrite changedPercents_same; lia);
    unfold changedPercents; percents_fields; rewrite !Z.eqb_refl;
    match goal with
    | |- context [if ?b then _ else _] => destruct b
    end; cbn; lia.
Qed.

Lemma adjustByTouch_changes_one x y inc p :
  (changedPercents p (Menu.adjustByTouch x y inc p) <= 1)%nat.
Proof.
  unfold Menu.adjustByTouch.
  repeat (match goal with
          | |- context [if Menu.within ?a ?b ?v then _ else _] =>
              destruct (Menu.within a b v)
          end);
    first [ rewrite changedPercents_same; lia
          | apply updateSensitivityReadout_changes_one
          | apply updateMotionCharReadout_changes_one ].
Qed.

(** X13.  One touch, one action.  The extents of the fourteen up and down
    buttons, the three increment buttons and the save button do not
    overlap, although the three blocks of [loop] are tested one after the
    other: a touch changes at most one percentage; a touch that changes a
    percentage changes neither the increment, nor the characteristics in
    force, nor the EEPROM; a touch that changes the increment changes
    nothing else; and a touch on the save button changes neither a
    percentage nor the increment. *)
Theorem X13_one_action_per_touch (a : bool) (t x y : Z) (m : Menu.MenuState) :
  let m' := Menu.handleTouch a t x y m in
  (changedPercents (Menu.percents m) (Menu.percents m') <= 1)%nat /\
  (Menu.percents m' <> Menu.percents m ->
   Menu.readoutIncrement m' = Menu.readoutIncrement m /\
   Menu.characteristics m' = Menu.characteristics m /\
   Menu.storage m' = Menu.storage m) /\
  (Menu.readoutIncrement m' <> Menu.readoutIncrement m ->
   Menu.percents m' = Menu.percents m /\
   Menu.characteristics m' = Menu.characteristics m /\
   Menu.storage m' = Menu.storage m) /\
  (Menu.savePressed x y = true ->
   Menu.percents m' = Menu.percents m /\
   Menu.readoutIncrement m' = Menu.readoutIncrement m).
Proof.
  cbv zeta. unfold Menu.handleTouch.
  destruct (t >? Menu.u32 (Menu.prevTimePressed m + Menu.CONSECUTIVE_TOUCH_DELAY)).
  2:{ rewrite changedPercents_same. repeat split; try reflexivity; lia. }
  cbv zeta.
  destruct (Menu.savePressed x y) eqn:S.
  - pose proof (adjustByTouch_off_save x y (Menu.readoutIncrement m)
                  (Menu.percents m) S) as A.
    pose proof (selectIncrement_off_save x y (Menu.readoutIncrement m) S) as I.
    destruct a; cbn [andb Menu.percents Menu.readoutIncrement
                     Menu.characteristics Menu.storage];
      rewrite A, I, changedPercents_same;
      (split; [lia|]); (split; [intro H; contradiction H; reflexivity|]);
      (split; [intro H; contradiction H; reflexivity|]);
      intros _; split; reflexivity.
  - cbn [andb Menu.percents Menu.readoutIncrement
         Menu.characteristics Menu.storage].
    split; [apply adjustByTouch_changes_one|].
    split.
    + intro H. split; [|split; reflexivity].
      destruct (Z.eq_dec (Menu.selectIncrement x y (Menu.readoutIncrement m))
                         (Menu.readoutIncrement m)) as [E|E]; [exact E|].
      apply selectIncrement_changes in E.
      contradiction H.
      apply adjustByTouch_off_increment. exact E.
    + split; [|discriminate].
      intro H. apply selectIncrement_changes in H.
      split; [|split; reflexivity].
      apply adjustByTouch_off_increment. exact H.
Qed.

(** ** Saving and restarting *)

Lemma saved_cells p e :
  percentsValid p ->
  Menu.saveValues p e FORWARD_SENS_ADDRESS = forwardSensPercent p /\
  Menu.saveValues p e REVERSE_SENS_ADDRESS = reverseSensPercent p /\
  Menu.saveValues p e LEFT_SENS_ADDRESS = leftSensPercent p /\
  Menu.saveValues p e RIGHT_SENS_ADDRESS = rightSensPercent p /\
  Menu.saveValues p e SPEED_LIMIT_ADDRESS = speedLimitPercent p /\
  Menu.saveValues p e ACC_RATE_ADDRESS = accRatePercent p /\
  Menu.saveValues p e DEC_RATE_ADDRESS = decRatePercent p.
Proof.
  intros (H1 & H2 & H3 & H4 & H5 & H6 & H7).
  unfold Menu.saveValues, Menu.EEPROM_update. cbv zeta.
  unfold FORWARD_SENS_ADDRESS, REVERSE_SENS_ADDRESS, LEFT_SENS_ADDRESS,
    RIGHT_SENS_ADDRESS, SPEED_LIMIT_ADDRESS, ACC_RATE_ADDRESS, DEC_RATE_ADDRESS.
  cbn [Z.eqb Pos.eqb].
  repeat split; apply u8_small; lia.
Qed.

(** X14.  Save, then restart.  When the seven percentages are in [0, 100]
    the save branch of [loop] writes them to EEPROM cells 1 to 7 and to no
    other cell, and the next [setup] reads back exactly these percentages;
    reverse and left threshold, speed limit and both rates that [setup]
    derives are those the save branch put in force. *)
Theorem X14_saved_settings_survive_restart (p : Percents) (e : EEPROM)
        (t : Trims) (c : Config) :
  percentsValid p ->
  let e' := Menu.saveValues p e in
  let c' := snd (Setup.setup true e' t) in
  fst (Setup.setup true e' t) = p /\
  (forall address : Z, ~ 1 <= address <= 7 -> e' address = e address) /\
  reverseThresh c' = reverseThresh (Setup.saveDerive p c) /\
  leftThresh c' = leftThresh (Setup.saveDerive p c) /\
  speedLimit c' = speedLimit (Setup.saveDerive p c) /\
  accRate c' = accRate (Setup.saveDerive p c) /\
  decRate c' = decRate (Setup.saveDerive p c).
Proof.
  intros Hp. cbv zeta.
  assert (E : fst (Setup.setup true (Menu.saveValues p e) t) = p).
  { destruct (saved_cells p e Hp) as (S1 & S2 & S3 & S4 & S5 & S6 & S7).
    destruct Hp as (H1 & H2 & H3 & H4 & H5 & H6 & H7).
    unfold Setup.setup, Setup.readPercents, EEPROM_read. cbn [fst].
    rewrite S1, S2, S3, S4, S5, S6, S7.
    unfold Setup.clampPercents. percents_fields.
    rewrite !u8_small by lia. rewrite !u16_small by lia.
    unfold Setup.clampPercent.
    destruct (Z.gtb_spec (forwardSensPercent p) 100); [lia|].
    destruct (Z.gtb_spec (reverseSensPercent p) 100); [lia|].
    destruct (Z.gtb_spec (leftSensPercent p) 100); [lia|].
    destruct (Z.gtb_spec (rightSensPercent p) 100); [lia|].
    destruct (Z.gtb_spec (speedLimitPercent p) 100); [lia|].
    destruct (Z.gtb_spec (accRatePercent p) 100); [lia|].
    destruct (Z.gtb_spec (decRatePercent p) 100); [lia|].
    destruct p; reflexivity. }
  split; [exact E|]. split.
  { intros address Ha.
    unfold Menu.saveValues, Menu.EEPROM_update. cbv zeta.
    unfold FORWARD_SENS_ADDRESS, REVERSE_SENS_ADDRESS, LEFT_SENS_ADDRESS,
      RIGHT_SENS_ADDRESS, SPEED_LIMIT_ADDRESS, ACC_RATE_ADDRESS,
      DEC_RATE_ADDRESS.
    repeat (match goal with
            | |- context [address =? ?k] =>
                destruct (Z.eqb_spec address k); [lia|]
            end).
    reflexivity. }
  assert (E2 : snd (Setup.setup true (Menu.saveValues p e) t)
               = Setup.setupDerive p t).
  { unfold Setup.setup in *. cbn [fst snd] in *. rewrite E. reflexivity. }
  rewrite E2. repeat split.
Qed.

Lemma X14_saved_settings_survive_restart_witness :
  let p := mkPercents 95 5 50 50 100 0 50 in
  fst (Setup.setup true (Menu.saveValues p (fun _ => 255)) sourceTrims) = p.
Proof.
  intro p.
  apply (X14_saved_settings_survive_restart p (fun _ => 255) sourceTrims
           (Setup.defaultConfig sourceTrims)).
  vm_compute. repeat split; discriminate.
Defined.

(** ** Debouncing *)

(** X15.  The time stamp test of [loop].  A time stamp at most
    [CONSECUTIVE_TOUCH_DELAY] after the last accepted one is ignored, and a
    time stamp is acted on once: a second pass of [loop] with the same
    stamp changes nothing.  Both need the sum in the test to stay below
    2^32.  In the last 100 ms before [millis] wraps the sum wraps to a
    small number, and a pass of [loop] acts again on the stamp it has just
    accepted. *)
Theorem X15_touch_debounce (a : bool) (t x y : Z) (m : Menu.MenuState) :
  0 <= t < 4294967296 -> 0 <= Menu.prevTimePressed m ->
  (Menu.prevTimePressed m + Menu.CONSECUTIVE_TOUCH_DELAY < 4294967296 ->
   t <= Menu.prevTimePressed m + Menu.CONSECUTIVE_TOUCH_DELAY ->
   Menu.handleTouch a t x y m = m) /\
  (t + Menu.CONSECUTIVE_TOUCH_DELAY < 4294967296 ->
   Menu.handleTouch a t x y (Menu.handleTouch a t x y m)
   = Menu.handleTouch a t x y m) /\
  (4294967296 <= t + Menu.CONSECUTIVE_TOUCH_DELAY ->
   Menu.prevTimePressed m = t ->
   Menu.percents (Menu.handleTouch a t x y m)
   = Menu.adjustByTouch x y (Menu.readoutIncrement m) (Menu.percents m)).
Proof.
  unfold Menu.CONSECUTIVE_TOUCH_DELAY. intros Ht Hp.
  split; [|split].
  - intros Hs Hle. unfold Menu.handleTouch, Menu.CONSECUTIVE_TOUCH_DELAY, Menu.u32.
    rewrite Z.mod_small by lia.
    destruct (Z.gtb_spec t (Menu.prevTimePressed m + 100)); [lia | reflexivity].
  - intros Hs.
    assert (R : forall m1 : Menu.MenuState, Menu.prevTimePressed m1 = t ->
                  Menu.handleTouch a t x y m1 = m1).
    { intros m1 P. unfold Menu.handleTouch, Menu.CONSECUTIVE_TOUCH_DELAY,
        Menu.u32. rewrite P, Z.mod_small by lia.
      destruct (Z.gtb_spec t (t + 100)); [lia | reflexivity]. }
    destruct (t >? Menu.u32 (Menu.prevTimePressed m + 100)) eqn:E.
    + apply R. unfold Menu.handleTouch, Menu.CONSECUTIVE_TOUCH_DELAY.
      rewrite E. cbv zeta. destruct (Menu.savePressed x y && a); reflexivity.
    + assert (H : Menu.handleTouch a t x y m = m).
      { unfold Menu.handleTouch, Menu.CONSECUTIVE_TOUCH_DELAY. rewrite E.
        reflexivity. }
      rewrite H. exact H.
  - intros Hw P. unfold Menu.handleTouch, Menu.CONSECUTIVE_TOUCH_DELAY, Menu.u32.
    rewrite P.
    replace ((t + 100) mod 4294967296) with (t + 100 - 4294967296)
      by (apply Z.mod_unique with 1; lia).
    destruct (Z.gtb_spec t (t + 100 - 4294967296)); [|lia].
    cbv zeta. destruct (Menu.savePressed x y && a); reflexivity.
Qed.

Lemma X15_touch_debounce_witness :
  let m := Menu.mkMenu (mkPercents 95 5 50 50 100 0 50) 10
                       (Setup.defaultConfig sourceTrims) (fun _ => 255) 1000 in
  Menu.handleTouch true 1100 1100 2700 m = m /\
  Menu.handleTouch true 1101 1100 2700 (Menu.handleTouch true 1101 1100 2700 m)
  = Menu.handleTouch true 1101 1100 2700 m.
Proof.
  intro m.
  destruct (X15_touch_debounce true 1100 1100 2700 m
              ltac:(lia) ltac:(vm_compute; discriminate)) as (A & _).
  destruct (X15_touch_debounce true 1101 1100 2700 m
              ltac:(lia) ltac:(vm_compute; discriminate)) as (_ & B & _).
  split.
  - apply A; vm_compute; try reflexivity; discriminate.
  - apply B. vm_compute. reflexivity.
Defined.

(** ** Minimum speed calibration over the serial line *)

Ltac config_fields :=
  cbn [calibConfig calibrationStarted courseOrFine
       Calibration.setSpeedLimit Calibration.setTrims
       forwardThresh reverseThresh leftThresh rightThresh speedLimit
       accRate decRate FWD_LEFT_TRIM REV_LEFT_TRIM FWD_RIGHT_TRIM
       REV_RIGHT_TRIM].

Lemma selectedInc_cases t :
  Calibration.selectedInc t = 32 \/ Calibration.selectedInc t = 2.
Proof. destruct t; [left | right]; reflexivity. Qed.

Lemma serialEvent_calibrating en b k :
  calibrating (calibConfig k) ->
  calibrating (calibConfig (Calibration.serialEvent en b k)).
Proof.
  intros H. unfold Calibration.serialEvent.
  destruct (en && calibrationStarted k); [|exact H]. cbv zeta.
  pose proof (selectedInc_cases (courseOrFine k)) as Hi.
  set (inc := Calibration.selectedInc (courseOrFine k)) in *. clearbody inc.
  destruct H as (Hs & He & H1 & H2 & H3 & H4 & H5 & H6 & T1 & T2 & T3 & T4).
  pose proof (u8_range (FWD_LEFT_TRIM (calibConfig k) + 1)).
  pose proof (u8_range (FWD_LEFT_TRIM (calibConfig k) - 1)).
  pose proof (u8_range (REV_LEFT_TRIM (calibConfig k) + 1)).
  pose proof (u8_range (REV_LEFT_TRIM (calibConfig k) - 1)).
  pose proof (u8_range (FWD_RIGHT_TRIM (calibConfig k) + 1)).
  pose proof (u8_range (FWD_RIGHT_TRIM (calibConfig k) - 1)).
  pose proof (u8_range (REV_RIGHT_TRIM (calibConfig k) + 1)).
  pose proof (u8_range (REV_RIGHT_TRIM (calibConfig k) - 1)).
  assert (Up : forall v, v = u16 (speedLimit (calibConfig k) + inc) ->
                 v <= 512 -> 0 <= v <= 512 /\ v mod 2 = 0).
  { intros v -> Hv. rewrite u16_small in * by lia.
    split; [lia|]. destruct Hi as [-> | ->]; revert He;
      Z.div_mod_to_equations; lia. }
  assert (Dn : forall v, v = u16 (speedLimit (calibConfig k) - inc) ->
                 v <= 512 -> 0 <= v <= 512 /\ v mod 2 = 0).
  { intros v -> Hv.
    destruct (Z_lt_le_dec (speedLimit (calibConfig k) - inc) 0).
    - rewrite u16_neg in Hv by lia. lia.
    - rewrite u16_small in * by lia.
      split; [lia|]. destruct Hi as [-> | ->]; revert He;
        Z.div_mod_to_equations; lia. }
  repeat (match goal with
          | |- context [if ?a || ?b then _ else _] => destruct (a || b)
          | |- context [if u8 b =? ?n then _ else _] => destruct (u8 b =? n)
          | |- context [if ?x <=? 512 then _ else _] =>
              destruct (Z.leb_spec x 512)
          end);
    unfold calibrating, trimsInRange; config_fields;
    try (repeat split; solve [assumption | lia]).
  - match goal with
    | L : u16 _ <= 512 |- _ => destruct (Up _ eq_refl L)
    end.
    repeat split; solve [assumption | lia].
  - match goal with
    | L : u16 _ <= 512 |- _ => destruct (Dn _ eq_refl L)
    end.
    repeat split; solve [assumption | lia].
Qed.

(** X16.  Throughout a minimum speed calibration, whatever bytes arrive on
    the serial line, the speed limit stays an even number between 0 and
    512: an increase that would pass 512 and a decrease that would pass 0
    (seen as a wrap of the unsigned difference) are both dropped.  The
    thresholds stay at 900, 100, 100 and 900, both rates at 50, and the
    trims stay bytes. *)
Theorem X16_calibration_limits (en : bool) (bytes : list Z) (k : CalibState) :
  calibrating (calibConfig (calibRun en bytes
                                     (Calibration.startSpeedCalibration k))).
Proof.
  assert (G : forall bs k1, calibrating (calibConfig k1) ->
                calibrating (calibConfig (calibRun en bs k1))).
  { unfold calibRun. induction bs as [|b bs IH]; intros k1 H; cbn [fold_left].
    - exact H.
    - apply IH. apply serialEvent_calibrating. exact H. }
  apply G. unfold Calibration.startSpeedCalibration, calibrating, trimsInRange.
  config_fields. repeat split; lia.
Qed.

Lemma u8_up_down t : 0 <= t <= 255 -> u8 (u8 (t + 1) - 1) = t.
Proof. intro H. unfold u8. Z.div_mod_to_equations. lia. Qed.

Lemma u8_down_up t : 0 <= t <= 255 -> u8 (u8 (t - 1) + 1) = t.
Proof. intro H. unfold u8. Z.div_mod_to_equations. lia. Qed.

Lemma config_eta (c : Config) :
  mkConfig (forwardThresh c) (reverseThresh c) (leftThresh c) (rightThresh c)
           (speedLimit c) (accRate c) (decRate c)
           (FWD_LEFT_TRIM c) (REV_LEFT_TRIM c) (FWD_RIGHT_TRIM c)
           (REV_RIGHT_TRIM c) = c.
Proof. destruct c; reflexivity. Qed.

(** Runs [serialEvent] on a state with [calibrationStarted] set and a
    given key. *)
Ltac run_keys :=
  unfold Calibration.serialEvent; cbv zeta;
  try change (49 + 1) with 50; try change (51 + 1) with 52;
  try change (53 + 1) with 54; try change (55 + 1) with 56;
  try change (u8 49) with 49; try change (u8 50) with 50;
  try change (u8 51) with 51; try change (u8 52) with 52;
  try change (u8 53) with 53; try change (u8 54) with 54;
  try change (u8 55) with 55; try change (u8 56) with 56;
  cbn [Z.eqb Pos.eqb orb andb calibrationStarted calibConfig courseOrFine].

Lemma trim_keys_undo (k : CalibState) (b : Z) :
  calibrationStarted k = true -> trimsInRange (calibConfig k) ->
  b = 49 \/ b = 51 \/ b = 53 \/ b = 55 ->
  calibConfig (Calibration.serialEvent true (b + 1)
                 (Calibration.serialEvent true b k)) = calibConfig k /\
  calibConfig (Calibration.serialEvent true b
                 (Calibration.serialEvent true (b + 1) k)) = calibConfig k.
Proof.
  intros Hst (T1 & T2 & T3 & T4) Hb.
  destruct k as [st mode cf c]. cbn [calibrationStarted calibConfig] in *.
  subst st.
  destruct Hb as [-> | [-> | [-> | ->]]]; split; run_keys;
    unfold Calibration.setTrims; config_fields;
    rewrite ?u8_up_down, ?u8_down_up by assumption;
    apply config_eta.
Qed.

(** X17.  The calibration keys come in pairs that undo each other.  With
    the trims held as bytes, '1' then '2' (and '2' then '1') leaves the
    characteristics as they were, also across the wrap from 255 to 0, and
    so do '3'/'4', '5'/'6' and '7'/'8'.  'u' then 'd' restores the speed
    limit when the increase fits below 512, and 'd' then 'u' when the
    decrease fits above 0; an increase past 512 or a decrease past 0 does
    nothing at all. *)
Theorem X17_calibration_keys_undo (k : CalibState) (b : Z) :
  calibrationStarted k = true -> trimsInRange (calibConfig k) ->
  0 <= speedLimit (calibConfig k) <= 512 ->
  b = 49 \/ b = 51 \/ b = 53 \/ b = 55 ->
  let inc := Calibration.selectedInc (courseOrFine k) in
  let sl := speedLimit (calibConfig k) in
  calibConfig (Calibration.serialEvent true (b + 1)
                 (Calibration.serialEvent true b k)) = calibConfig k /\
  calibConfig (Calibration.serialEvent true b
                 (Calibration.serialEvent true (b + 1) k)) = calibConfig k /\
  (sl + inc <= 512 ->
   calibConfig (Calibration.serialEvent true 100
                  (Calibration.serialEvent true 117 k)) = calibConfig k) /\
  (inc <= sl ->
   calibConfig (Calibration.serialEvent true 117
                  (Calibration.serialEvent true 100 k)) = calibConfig k) /\
  (512 < sl + inc ->
   calibConfig (Calibration.serialEvent true 117 k) = calibConfig k) /\
  (sl < inc ->
   calibConfig (Calibration.serialEvent true 100 k) = calibConfig k).
Proof.
  intros Hst Ht Hs Hb. cbv zeta.
  destruct (trim_keys_undo k b Hst Ht Hb) as [A B].
  split; [exact A|]. split; [exact B|].
  pose proof (selectedInc_cases (courseOrFine k)) as Hi.
  destruct k as [st mode cf c].
  cbn [calibrationStarted calibConfig courseOrFine] in *. subst st.
  set (inc := Calibration.selectedInc cf) in *.
  assert (U : forall c0 cf0 mode0,
            calibConfig (Calibration.serialEvent true 117
                           (mkCalib true mode0 cf0 c0)) =
            if u16 (speedLimit c0 + Calibration.selectedInc cf0) <=? 512
            then Calibration.setSpeedLimit
                   (u16 (speedLimit c0 + Calibration.selectedInc cf0)) c0
            else c0).
  { intros c0 cf0 mode0.
    change (Calibration.serialEvent true 117 (mkCalib true mode0 cf0 c0)) with
      (if u16 (speedLimit c0 + Calibration.selectedInc cf0) <=? 512
       then mkCalib true ["1"%char] cf0
              (Calibration.setSpeedLimit
                 (u16 (speedLimit c0 + Calibration.selectedInc cf0)) c0)
       else mkCalib true ["1"%char] cf0 c0).
    destruct (_ <=? 512); reflexivity. }
  assert (D : forall c0 cf0 mode0,
            calibConfig (Calibration.serialEvent true 100
                           (mkCalib true mode0 cf0 c0)) =
            if u16 (speedLimit c0 - Calibration.selectedInc cf0) <=? 512
            then Calibration.setSpeedLimit
                   (u16 (speedLimit c0 - Calibration.selectedInc cf0)) c0
            else c0).
  { intros c0 cf0 mode0.
    change (Calibration.serialEvent true 100 (mkCalib true mode0 cf0 c0)) with
      (if u16 (speedLimit c0 - Calibration.selectedInc cf0) <=? 512
       then mkCalib true ["1"%char] cf0
              (Calibration.setSpeedLimit
                 (u16 (speedLimit c0 - Calibration.selectedInc cf0)) c0)
       else mkCalib true ["1"%char] cf0 c0).
    destruct (_ <=? 512); reflexivity. }
  assert (KU : forall mode0,
            Calibration.serialEvent true 117 (mkCalib true mode0 cf c) =
            mkCalib true ["1"%char] cf
              (calibConfig (Calibration.serialEvent true 117
                              (mkCalib true mode0 cf c)))).
  { intro mode0.
    change (Calibration.serialEvent true 117 (mkCalib true mode0 cf c)) with
      (if u16 (speedLimit c + Calibration.selectedInc cf) <=? 512
       then mkCalib true ["1"%char] cf
              (Calibration.setSpeedLimit
                 (u16 (speedLimit c + Calibration.selectedInc cf)) c)
       else mkCalib true ["1"%char] cf c).
    destruct (_ <=? 512); reflexivity. }
  assert (KD : forall mode0,
            Calibration.serialEvent true 100 (mkCalib true mode0 cf c) =
            mkCalib true ["1"%char] cf
              (calibConfig (Calibration.serialEvent true 100
                              (mkCalib true mode0 cf c)))).
  { intro mode0.
    change (Calibration.serialEvent true 100 (mkCalib true mode0 cf c)) with
      (if u16 (speedLimit c - Calibration.selectedInc cf) <=? 512
       then mkCalib true ["1"%char] cf
              (Calibration.setSpeedLimit
                 (u16 (speedLimit c - Calibration.selectedInc cf)) c)
       else mkCalib true ["1"%char] cf c).
    destruct (_ <=? 512); reflexivity. }
  fold inc in KU, KD.
  split; [|split; [|split]].
  - intro H. rewrite KU, D, U. fold inc.
    rewrite (u16_small (speedLimit c + inc)) by lia.
    destruct (Z.leb_spec (speedLimit c + inc) 512); [|lia].
    cbn [Calibration.setSpeedLimit speedLimit].
    replace (speedLimit c + inc - inc) with (speedLimit c) by lia.
    rewrite (u16_small (speedLimit c)) by lia.
    destruct (Z.leb_spec (speedLimit c) 512); [|lia].
    unfold Calibration.setSpeedLimit. config_fields. apply config_eta.
  - intro H. rewrite KD, U, D. fold inc.
    rewrite (u16_small (speedLimit c - inc)) by lia.
    destruct (Z.leb_spec (speedLimit c - inc) 512); [|lia].
    cbn [Calibration.setSpeedLimit speedLimit].
    replace (speedLimit c - inc + inc) with (speedLimit c) by lia.
    rewrite (u16_small (speedLimit c)) by lia.
    destruct (Z.leb_spec (speedLimit c) 512); [|lia].
    unfold Calibration.setSpeedLimit. config_fields. apply config_eta.
  - intro H. rewrite U. fold inc.
    rewrite (u16_small (speedLimit c + inc)) by lia.
    destruct (Z.leb_spec (speedLimit c + inc) 512); [lia | reflexivity].
  - intro H. rewrite D. fold inc.
    rewrite (u16_neg (speedLimit c - inc)) by lia.
    destruct (Z.leb_spec (speedLimit c - inc + 65536) 512); [lia | reflexivity].
Qed.

Lemma X17_calibration_keys_undo_witness :
  let k := Calibration.startSpeedCalibration
             (mkCalib false [] COURSE (Setup.defaultConfig sourceTrims)) in
  calibConfig (Calibration.serialEvent true 50
                 (Calibration.serialEvent true 49 k)) = calibConfig k /\
  calibConfig (Calibration.serialEvent true 49
                 (Calibration.serialEvent true 50 k)) = calibConfig k.
Proof.
  intro k.
  destruct (X17_calibration_keys_undo k 49 eq_refl
              ltac:(vm_compute; repeat split; discriminate)
              ltac:(vm_compute; split; discriminate)
              ltac:(left; reflexivity)) as (A & B & _).
  split; [exact A | exact B].
Defined.

(** ** The second sketch: from target speed to pulse *)

Lemma remap_value v :
  -512 <= v <= 512 -> NewBoardDrive.remap v = (v + 512) * 1023 / 1024.
Proof.
  intro H. unfold NewBoardDrive.remap, map.
  change (512 - -512) with 1024.
  replace ((v - -512) * (1023 - 0)) with ((v + 512) * 1023) by lia.
  rewrite Z.quot_div_nonneg by lia.
  rewrite Z.add_0_r. apply s16_small.
  Z.div_mod_to_equations; lia.
Qed.

Lemma second_map_value n :
  0 <= n <= 1023 ->
  map n 0 1023 0 (u16 (FORWARD_PULSE - REVERSE_PULSE)) = n * 1000 / 1023.
Proof.
  intro H. unfold map. rewrite full_scale.
  change (1023 - 0) with 1023. rewrite Z.sub_0_r, Z.add_0_r.
  change (1000 - 0) with 1000.
  apply Z.quot_div_nonneg; lia.
Qed.

(** X18.  The second sketch maps a target speed twice, first to
    [0, 1023] in [setLeftRightMotorSpeeds] and then to [0, 1000] in
    [drive], where the sketch with the LCD maps once.  The two agree at
    full reverse and full forward, the double map is never above the
    single one and at most 1 below it, and it is 1 below at target 0: the
    second sketch's neutral is drive speed 499, not 500. *)
Theorem X18_double_map_loses_one (v : Z) :
  -512 <= v <= 512 ->
  let twice := map (NewBoardDrive.remap v) 0 1023 0
                   (u16 (FORWARD_PULSE - REVERSE_PULSE)) in
  Drive.mapDriveSpeed v - 1 <= twice <= Drive.mapDriveSpeed v /\
  (v = -512 \/ v = 512 -> twice = Drive.mapDriveSpeed v) /\
  (v = 0 -> twice = NEUTRAL_SPEED - 1 /\ Drive.mapDriveSpeed v = NEUTRAL_SPEED).
Proof.
  intro H. cbv zeta.
  rewrite (remap_value v H), (mapDriveSpeed_value v H).
  rewrite second_map_value by (Z.div_mod_to_equations; lia).
  split; [Z.div_mod_to_equations; lia|].
  split.
  - intros [-> | ->]; reflexivity.
  - intros ->. split; reflexivity.
Qed.

Lemma X18_double_map_loses_one_witness :
  map (NewBoardDrive.remap 0) 0 1023 0 (u16 (FORWARD_PULSE - REVERSE_PULSE))
  = NEUTRAL_SPEED - 1.
Proof.
  destruct (X18_double_map_loses_one 0 ltac:(lia)) as (_ & _ & N).
  apply N. reflexivity.
Defined.

Lemma rampMotor_range n prev :
  0 <= n <= 1023 -> 0 <= prev <= 1000 ->
  0 <= NewBoard.rampMotor n prev <= 1000.
Proof.
  intros Hn Hp. unfold NewBoard.rampMotor, NewBoard.INCREASE_RAMPING.
  cbv zeta. rewrite (second_map_value n Hn).
  assert (0 <= n * 1000 / 1023 <= 1000) by (Z.div_mod_to_equations; lia).
  destruct (Z.gtb_spec (n * 1000 / 1023) (prev + 5)); [lia|].
  destruct (Z.ltb_spec (n * 1000 / 1023) (prev - 5)); lia.
Qed.

(** X19.  One pass of the second sketch's [drive] without a pending
    resync, for targets within [-512, 512] and motor speeds within
    [0, 1000]: both new speeds are again within [0, 1000] and within
    [INCREASE_RAMPING] of the old ones, in both directions and for
    full-scale targets too; the left pulse is 1000 plus the left speed and
    the inverted right pulse 2000 minus the right speed, both in
    [1000, 2000]; and with equal speeds the two pulses mirror each other
    about 1500. *)
Theorem X19_second_sketch_pulses (vl vr prevLeft prevRight : Z) :
  -512 <= vl <= 512 -> -512 <= vr <= 512 ->
  0 <= prevLeft <= 1000 -> 0 <= prevRight <= 1000 ->
  let out := NewBoardDrive.driveMotors (NewBoardDrive.remap vl)
                                       (NewBoardDrive.remap vr)
                                       prevLeft prevRight in
  let l := fst (fst out) in
  let r := snd (fst out) in
  let lp := fst (snd out) in
  let rp := snd (snd out) in
  0 <= l <= 1000 /\ 0 <= r <= 1000 /\
  Z.abs (l - prevLeft) <= NewBoard.INCREASE_RAMPING /\
  Z.abs (r - prevRight) <= NewBoard.INCREASE_RAMPING /\
  lp = REVERSE_PULSE + l /\ rp = FORWARD_PULSE - r /\
  REVERSE_PULSE <= lp <= FORWARD_PULSE /\
  REVERSE_PULSE <= rp <= FORWARD_PULSE /\
  (l = r -> lp + rp = REVERSE_PULSE + FORWARD_PULSE).
Proof.
  intros Hl Hr Hpl Hpr. cbv zeta.
  unfold NewBoardDrive.driveMotors. cbv zeta. cbn [fst snd].
  assert (Rl : 0 <= NewBoardDrive.remap vl <= 1023)
    by (rewrite remap_value by exact Hl; Z.div_mod_to_equations; lia).
  assert (Rr : 0 <= NewBoardDrive.remap vr <= 1023)
    by (rewrite remap_value by exact Hr; Z.div_mod_to_equations; lia).
  pose proof (rampMotor_range _ _ Rl Hpl) as Bl.
  pose proof (rampMotor_range _ _ Rr Hpr) as Br.
  pose proof (NewBoard_ramp_bound (NewBoardDrive.remap vl) prevLeft) as Sl.
  pose proof (NewBoard_ramp_bound (NewBoardDrive.remap vr) prevRight) as Sr.
  set (l := NewBoard.rampMotor (NewBoardDrive.remap vl) prevLeft) in *.
  set (r := NewBoard.rampMotor (NewBoardDrive.remap vr) prevRight) in *.
  clearbody l r.
  unfold NewBoardDrive.motorPulse, NewBoardDrive.INVERT_LEFT_MOTOR,
    NewBoardDrive.INVERT_RIGHT_MOTOR.
  unfold REVERSE_PULSE, FORWARD_PULSE.
  rewrite (u16_small (1000 + l)) by lia.
  rewrite (u16_small (2000 - r)) by lia.
  rewrite (s16_small (1000 + l)) by lia.
  rewrite (s16_small (2000 - r)) by lia.
  repeat split; try lia; try assumption.
Qed.

Lemma X19_second_sketch_pulses_witness :
  NewBoardDrive.driveMotors (NewBoardDrive.remap 512) (NewBoardDrive.remap 512)
                            500 500
  = ((505, 505), (1505, 1495)) /\
  0 <= fst (fst (NewBoardDrive.driveMotors (NewBoardDrive.remap 512)
                   (NewBoardDrive.remap 512) 500 500)) <= 1000.
Proof.
  split; [reflexivity|].
  apply (X19_second_sketch_pulses 512 512 500 500); lia.
Defined.

(** ** The magnitude bar *)

Lemma barLoop_geometry (n : nat) :
  forall ns cb x y h col,
    0 <= x -> x + 4 * Z.of_nat n < 65536 ->
    Z.of_nat n <= y -> y < 65536 ->
    0 <= h -> h + Z.of_nat n < 256 ->
    length (MagnitudeBar.barLoop n ns cb x y h col) = n /\
    forall (i : nat) (d : Rect), (i < n)%nat ->
      let r := nth i (MagnitudeBar.barLoop n ns cb x y h col) d in
      rectX r = x + 4 * Z.of_nat i /\ rectY r = y - Z.of_nat i /\
      rectW r = 3 /\ rectH r = h + Z.of_nat i.
Proof.
  induction n as [|n IH]; intros ns cb x y h col Hx Hx' Hy Hy' Hh Hh'.
  - split; [reflexivity | intros i d Hi; lia].
  - cbn [MagnitudeBar.barLoop].
    rewrite (u16_small (x + 4)) by lia.
    rewrite (u16_small (y - 1)) by lia.
    rewrite (u8_small (h + 1)) by lia.
    destruct (IH ns (u8 (cb + 1)) (x + 4) (y - 1) (h + 1)
                 (MagnitudeBar.nextColor ns cb col)
                 ltac:(lia) ltac:(lia) ltac:(lia) ltac:(lia) ltac:(lia)
                 ltac:(lia)) as [L G].
    split; [cbn [length]; rewrite L; reflexivity|].
    intros [|i] d Hi; cbv zeta.
    + cbn [nth rectX rectY rectW rectH]. repeat split; lia.
    + cbn [nth]. destruct (G i d ltac:(lia)) as (A & B & C & D).
      rewrite A, B, C, D. repeat split; lia.
Qed.

(** X20.  The 25 segments of a magnitude bar.  For a box whose corner
    leaves room for it on the 16 bit coordinates, [drawMagnitudeBar] fills
    25 rectangles whatever the percentage: segment [i] (from 0) is 3 wide
    and [2 + i] high at [x0 + 2 + 4 i], so that neighbours are one pixel
    apart, all of them stand on the line [y0 + 29], and every one lies
    inside the box of [MAG_BAR_BOX_WIDTH] by [MENU_LINE_HEIGHT]. *)
Theorem X20_magnitude_bar_geometry (x0 y0 percentMagnitude : Z)
        (i : nat) (d : Rect) :
  0 <= x0 <= 65535 - MagnitudeBar.MAG_BAR_BOX_WIDTH ->
  0 <= y0 <= 65535 - MagnitudeBar.MENU_LINE_HEIGHT ->
  (i < 25)%nat ->
  let bar := MagnitudeBar.drawMagnitudeBar x0 y0 percentMagnitude in
  let r := nth i bar d in
  length bar = 25%nat /\
  rectX r = x0 + 2 + 4 * Z.of_nat i /\ rectW r = 3 /\
  rectH r = 2 + Z.of_nat i /\
  rectY r + rectH r = y0 + 29 /\
  x0 < rectX r /\ rectX r + rectW r < x0 + MagnitudeBar.MAG_BAR_BOX_WIDTH /\
  y0 < rectY r /\ rectY r + rectH r < y0 + MagnitudeBar.MENU_LINE_HEIGHT.
Proof.
  unfold MagnitudeBar.MAG_BAR_BOX_WIDTH, MagnitudeBar.MENU_LINE_HEIGHT.
  intros Hx Hy Hi. cbv zeta. unfold MagnitudeBar.drawMagnitudeBar. cbv zeta.
  rewrite (u16_small (x0 + 2)) by lia.
  rewrite (u16_small (y0 + 27)) by lia.
  destruct (barLoop_geometry 25
              (MagnitudeBar.numSegmentsToFill percentMagnitude) 1
              (x0 + 2) (y0 + 27) 2
              (if MagnitudeBar.numSegmentsToFill percentMagnitude =? 0
               then MagnitudeBar.WHITE else MagnitudeBar.GREEN)
              ltac:(lia) ltac:(lia) ltac:(lia) ltac:(lia) ltac:(lia)
              ltac:(lia)) as [L G].
  split; [exact L|].
  destruct (G i d Hi) as (A & B & C & D).
  rewrite A, B, C, D. repeat split; lia.
Qed.

Lemma X20_magnitude_bar_geometry_witness :
  let bar := MagnitudeBar.drawMagnitudeBar 10 20 60 in
  length bar = 25%nat /\
  rectX (nth 24 bar (mkRect 0 0 0 0 0)) = 108.
Proof.
  intro bar.
  destruct (X20_magnitude_bar_geometry 10 20 60 24 (mkRect 0 0 0 0 0)
              ltac:(vm_compute; split; discriminate)
              ltac:(vm_compute; split; discriminate)
              ltac:(lia)) as (L & X & _).
  split; [exact L | exact X].
Defined.

Lemma barLoop_colors (n : nat) :
  forall ns cb x y h col x' y' h',
    List.map rectColor (MagnitudeBar.barLoop n ns cb x y h col) =
    List.map rectColor (MagnitudeBar.barLoop n ns cb x' y' h' col).
Proof.
  induction n as [|n IH]; intros; [reflexivity|].
  cbn [MagnitudeBar.barLoop List.map rectColor]. f_equal. apply IH.
Qed.

Lemma numSegmentsToFill_u8 p :
  MagnitudeBar.numSegmentsToFill (u8 p) = MagnitudeBar.numSegmentsToFill p.
Proof.
  unfold MagnitudeBar.numSegmentsToFill.
  rewrite (u8_small (u8 p)) by apply u8_range. reflexivity.
Qed.

Lemma allBytes_spec p : 0 <= p < 256 -> In p allBytes.
Proof.
  intro H. unfold allBytes. apply in_map_iff.
  exists (Z.to_nat p). split; [lia|]. apply in_seq. lia.
Qed.

Lemma bar_colours_checked : forallb barColoursAgree allBytes = true.
Proof. vm_compute. reflexivity. Qed.

Lemma colouredSegments_u8 p : colouredSegments (u8 p) = colouredSegments p.
Proof. unfold colouredSegments. rewrite numSegmentsToFill_u8. reflexivity. Qed.

(** X21.  How far a magnitude bar is filled.  Whatever the corner and the
    percentage byte, the colours of the 25 segments are the first [k]
    colours of the green to red gradient followed by [25 - k] whites,
    where [k] is the rounded quarter of the percentage, at least 1 for a
    percentage above 0 and at most 25.  No gradient colour is white, so
    [k] can be read off the bar; a larger percentage never fills fewer
    segments, 0 fills none and 98 or more fill all 25. *)
Theorem X21_magnitude_bar_fill (x0 y0 percentMagnitude : Z) :
  let k := colouredSegments percentMagnitude in
  List.map rectColor (MagnitudeBar.drawMagnitudeBar x0 y0 percentMagnitude)
    = firstn k fullGradient ++ repeat MagnitudeBar.WHITE (25 - k) /\
  ~ In MagnitudeBar.WHITE fullGradient /\
  (k <= 25)%nat /\
  (k = 0%nat <-> u8 percentMagnitude = 0) /\
  (98 <= u8 percentMagnitude -> k = 25%nat) /\
  (forall q : Z, u8 percentMagnitude <= u8 q ->
     (k <= colouredSegments q)%nat).
Proof.
  cbv zeta. split.
  { transitivity
      (List.map rectColor (MagnitudeBar.drawMagnitudeBar 0 0 (u8 percentMagnitude))).
    - unfold MagnitudeBar.drawMagnitudeBar. cbv zeta.
      rewrite numSegmentsToFill_u8. apply barLoop_colors.
    - pose proof (proj1 (forallb_forall barColoursAgree allBytes)
                    bar_colours_checked (u8 percentMagnitude)
                    (allBytes_spec _ (u8_range percentMagnitude))) as H.
      unfold barColoursAgree in H. cbv zeta in H.
      rewrite colouredSegments_u8 in H.
      destruct (list_eq_dec Z.eq_dec _ _) as [E|_] in H; [exact E|discriminate]. }
  split.
  { vm_compute. intuition discriminate. }
  pose proof (u8_range percentMagnitude) as B.
  unfold colouredSegments, MagnitudeBar.numSegmentsToFill. cbv zeta.
  set (p := u8 percentMagnitude) in *. clearbody p.
  assert (Q : 0 <= (p + 2) / 4 < 256) by (Z.div_mod_to_equations; lia).
  rewrite (u8_small ((p + 2) / 4)) by exact Q.
  split.
  { destruct ((p >? 0) && ((p + 2) / 4 =? 0)); lia. }
  split.
  { destruct (Z.gtb_spec p 0), (Z.eqb_spec ((p + 2) / 4) 0); cbn [andb];
      split; intro K; try lia;
      revert K; Z.div_mod_to_equations; lia. }
  split.
  { intro K. destruct (Z.gtb_spec p 0), (Z.eqb_spec ((p + 2) / 4) 0);
      cbn [andb]; revert K; Z.div_mod_to_equations; lia. }
  intros q Hq. pose proof (u8_range q) as Bq.
  set (p' := u8 q) in *. clearbody p'.
  assert (Q' : 0 <= (p' + 2) / 4 < 256) by (Z.div_mod_to_equations; lia).
  rewrite (u8_small ((p' + 2) / 4)) by exact Q'.
  assert (M : (p + 2) / 4 <= (p' + 2) / 4)
    by (apply Z.div_le_mono; lia).
  destruct (Z.gtb_spec p 0), (Z.eqb_spec ((p + 2) / 4) 0);
    destruct (Z.gtb_spec p' 0), (Z.eqb_spec ((p' + 2) / 4) 0);
    cbn [andb]; lia.
Qed.

(** ** The resync loop of the second sketch *)

Lemma NewBoard_resetMotor_cases p (b : bool) :
  speedInRange p ->
  let d := NewBoard.DECREASE_RAMPING in
  let r := NewBoardReset.resetMotor p p b in
  (NEUTRAL_SPEED + d < p /\ r = (p - d, b)) \/
  (p < NEUTRAL_SPEED - d /\ r = (p + d, b)) \/
  (nearNeutral d p /\ r = (p, true)).
Proof.
  intros Hp d r. subst d r.
  unfold NewBoardReset.resetMotor, NewBoard.DECREASE_RAMPING, nearNeutral.
  unfold_consts.
  change (s16 (500 + 15)) with 515. change (s16 (500 - 15)) with 485.
  destruct (Z.gtb_spec p 515).
  - left. rewrite s16_small by lia. split; [lia|reflexivity].
  - destruct (Z.ltb_spec p 485).
    + right; left. rewrite s16_small by lia. split; [lia|reflexivity].
    + right; right. split; [lia|reflexivity].
Qed.

Lemma resetMoves_functional d p b p1 b1 p2 b2 :
  0 <= d -> resetMoves d p b p1 b1 -> resetMoves d p b p2 b2 ->
  p1 = p2 /\ b1 = b2.
Proof.
  unfold resetMoves, nearNeutral. unfold_consts. intros Hd H1 H2.
  destruct H1 as [(A1 & -> & ->)|[(A1 & -> & ->)|(A1 & -> & ->)]];
    destruct H2 as [(A2 & -> & ->)|[(A2 & -> & ->)|(A2 & -> & ->)]];
    try lia; split; reflexivity.
Qed.

Lemma NewBoard_resetIteration_spec s :
  speedsInRange s ->
  exists l' lc r' rc,
    resetMoves NewBoard.DECREASE_RAMPING (prevLeft s) (leftResetComplete s) l' lc /\
    resetMoves NewBoard.DECREASE_RAMPING (prevRight s) (rightResetComplete s) r' rc /\
    NewBoardReset.resetIteration (prevLeft s, prevRight s) s =
    ((l', r'),
     mkState (prevLeftMotorSpeed s) (prevRightMotorSpeed s)
             (if lc && rc then false else directionChanged s) lc rc l' r',
     mkPulse (REVERSE_PULSE + l') (FORWARD_PULSE - r')).
Proof.
  intros [Hl Hr].
  pose proof (NewBoard_resetMotor_cases (prevLeft s) (leftResetComplete s) Hl) as CL.
  pose proof (NewBoard_resetMotor_cases (prevRight s) (rightResetComplete s) Hr) as CR.
  cbv zeta in CL, CR.
  unfold NewBoardReset.resetIteration.
  destruct (NewBoardReset.resetMotor (prevLeft s) (prevLeft s)
              (leftResetComplete s)) as [l' lc] eqn:EL.
  cbn [Drive.setLeft prevRight rightResetComplete].
  destruct (NewBoardReset.resetMotor (prevRight s) (prevRight s)
              (rightResetComplete s)) as [r' rc] eqn:ER.
  exists l', lc, r', rc.
  assert (ML : resetMoves NewBoard.DECREASE_RAMPING (prevLeft s)
                          (leftResetComplete s) l' lc).
  { unfold resetMoves.
    destruct CL as [[? E]|[[? E]|[? E]]]; inversion E; subst; tauto. }
  assert (MR : resetMoves NewBoard.DECREASE_RAMPING (prevRight s)
                          (rightResetComplete s) r' rc).
  { unfold resetMoves.
    destruct CR as [[? E]|[[? E]|[? E]]]; inversion E; subst; tauto. }
  split; [exact ML|]. split; [exact MR|].
  assert (Bl : 0 <= l' <= 1000)
    by (unfold resetMoves, NewBoard.DECREASE_RAMPING in ML; unfold_consts; lia).
  assert (Br : 0 <= r' <= 1000)
    by (unfold resetMoves, NewBoard.DECREASE_RAMPING in MR; unfold_consts; lia).
  cbn [Drive.setRight Drive.setLeft Drive.clearChange leftResetComplete
       rightResetComplete prevLeftMotorSpeed prevRightMotorSpeed
       directionChanged prevLeft prevRight].
  unfold NewBoardDrive.motorPulse, NewBoardDrive.INVERT_LEFT_MOTOR,
    NewBoardDrive.INVERT_RIGHT_MOTOR.
  rewrite (u16_small (REVERSE_PULSE + l')) by (unfold_consts; lia).
  rewrite (u16_small (FORWARD_PULSE - r')) by (unfold_consts; lia).
  rewrite (s16_small (REVERSE_PULSE + l')) by (unfold_consts; lia).
  rewrite (s16_small (FORWARD_PULSE - r')) by (unfold_consts; lia).
  destruct (lc && rc); reflexivity.
Qed.

Lemma NewBoard_resetLoop_mirrors c :
  decRate c = NewBoard.DECREASE_RAMPING ->
  forall (fuel : nat) (s : DriveState),
    speedsInRange s ->
    NewBoardReset.resetLoop fuel (prevLeft s, prevRight s) s =
    mirrored (Drive.resetLoop fuel c (prevLeft s, prevRight s) s).
Proof.
  intros Hd.
  assert (Hd' : 0 <= decRate c <= 500)
    by (rewrite Hd; unfold NewBoard.DECREASE_RAMPING; lia).
  induction fuel as [|fuel IH]; intros s Hs.
  - cbn [NewBoardReset.resetLoop Drive.resetLoop].
    destruct (directionChanged s); reflexivity.
  - cbn [NewBoardReset.resetLoop Drive.resetLoop].
    destruct (directionChanged s) eqn:Hdc; [|reflexivity].
    destruct (resetIteration_spec c s Hd' Hs)
      as (l1 & lc1 & r1 & rc1 & ML1 & MR1 & E1).
    destruct (NewBoard_resetIteration_spec s Hs)
      as (l2 & lc2 & r2 & rc2 & ML2 & MR2 & E2).
    rewrite Hd in ML1, MR1.
    assert (P15 : 0 <= NewBoard.DECREASE_RAMPING)
      by (unfold NewBoard.DECREASE_RAMPING; lia).
    destruct (resetMoves_functional _ _ _ _ _ _ _ P15 ML1 ML2) as [<- <-].
    destruct (resetMoves_functional _ _ _ _ _ _ _ P15 MR1 MR2) as [<- <-].
    rewrite E1, E2, Hdc.
    set (s1 := mkState (prevLeftMotorSpeed s) (prevRightMotorSpeed s)
                       (if lc1 && rc1 then false else true) lc1 rc1 l1 r1).
    assert (Hs1 : speedsInRange s1).
    { destruct Hs as [Hl Hr]. split; unfold s1; cbn [prevLeft prevRight].
      - eapply resetMoves_range; [| exact Hl | exact ML1];
          unfold NewBoard.DECREASE_RAMPING; lia.
      - eapply resetMoves_range; [| exact Hr | exact MR1];
          unfold NewBoard.DECREASE_RAMPING; lia. }
    pose proof (IH s1 Hs1) as I.
    change (prevLeft s1) with l1 in I. change (prevRight s1) with r1 in I.
    rewrite I.
    destruct (Drive.resetLoop fuel c (l1, r1) s1) as [[s2 ps]|];
      [|reflexivity].
    assert (P : mirrorRight (mkPulse (REVERSE_PULSE + l1) (REVERSE_PULSE + r1))
                = mkPulse (REVERSE_PULSE + l1) (FORWARD_PULSE - r1)).
    { unfold mirrorRight. cbn [leftMotorPulse rightMotorPulse].
      f_equal. unfold_consts. lia. }
    cbn [mirrored List.map]. rewrite P. reflexivity.
Qed.

(** X22.  The resync loop of the second sketch against that of the sketch
    with the LCD.  From motor speeds within [0, 1000], and with the
    deceleration rate of the first set to the second's
    [DECREASE_RAMPING], the two loops stop after the same number of
    iterations, or both run out of any given bound, leave the same speeds
    and flags, and write the same left pulses; each right pulse of the
    second sketch is the first sketch's mirrored about 1500.  With more
    than 500 iterations allowed the second sketch's loop ends with
    [directionChanged] cleared and all its pulses within [1000, 2000]. *)
Theorem X22_second_sketch_resync_mirrors (c : Config) (s : DriveState)
        (fuel : nat) :
  decRate c = NewBoard.DECREASE_RAMPING -> speedsInRange s ->
  NewBoardReset.resetMotorSpeeds fuel s
    = mirrored (Drive.resetMotorSpeeds fuel c s) /\
  ((500 < fuel)%nat ->
   exists s' outs,
     NewBoardReset.resetMotorSpeeds fuel s = Some (s', outs) /\
     directionChanged s' = false /\ speedsInRange s' /\
     Forall pulseInRange outs).
Proof.
  intros Hd Hs.
  assert (E : NewBoardReset.resetMotorSpeeds fuel s
              = mirrored (Drive.resetMotorSpeeds fuel c s)).
  { unfold NewBoardReset.resetMotorSpeeds, Drive.resetMotorSpeeds.
    destruct Hs as [Hl Hr].
    rewrite (u16_small (prevLeft s)) by (unfold_consts; lia).
    rewrite (u16_small (prevRight s)) by (unfold_consts; lia).
    apply NewBoard_resetLoop_mirrors; [exact Hd | split; assumption]. }
  split; [exact E|].
  intro Hf. pose proof (resetMeasure_bound s Hs) as Hb.
  destruct (resetLoop_spec c ltac:(rewrite Hd; unfold NewBoard.DECREASE_RAMPING; lia)
              fuel s Hs ltac:(lia))
    as (s' & outs & EL & Hdc & Hs' & _ & _ & Fo & _).
  exists s', (List.map mirrorRight outs).
  split.
  { rewrite E. unfold Drive.resetMotorSpeeds. destruct Hs as [Hl Hr].
    rewrite (u16_small (prevLeft s)) by (unfold_consts; lia).
    rewrite (u16_small (prevRight s)) by (unfold_consts; lia).
    rewrite EL. reflexivity. }
  split; [exact Hdc|]. split; [exact Hs'|].
  apply Forall_map. revert Fo. apply Forall_impl.
  intros p. unfold pulseInRange, mirrorRight.
  cbn [leftMotorPulse rightMotorPulse]. unfold_consts. lia.
Qed.

Lemma X22_second_sketch_resync_mirrors_witness :
  let c := setDecRate 15 (Setup.defaultConfig sourceTrims) in
  let s := mkState 512 512 true false false 1000 515 in
  NewBoardReset.resetMotorSpeeds 501 s
    = mirrored (Drive.resetMotorSpeeds 501 c s).
Proof.
  intros c s.
  apply (X22_second_sketch_resync_mirrors c s 501).
  - reflexivity.
  - vm_compute. repeat split; discriminate.
Defined.
